(** * Indirection and lazy-materialization views of awkward-array

    A shallow embedding of [awkward/array/indexed.py] and
    [awkward/array/virtual.py]: the numpy indexing the views are written
    against, then the views themselves ([IndexedArray], [ByteIndexedArray],
    [IndexedMaskedArray], [UnionArray], [VirtualArray]), then the properties
    of the specification, each stated over these definitions. *)

From Stdlib Require Import ZArith Bool Lia.
From Stdlib.Strings Require Import Byte.
From stdpp Require Import base option list strings gmap.

Local Open Scope Z_scope.

(** ** Python exceptions and results *)

(** The exceptions the modelled code can raise.  [UnboundLocalError] is a
    subclass of [NameError] in Python; [ShapeMismatch] is the [ValueError]
    whose message is "tags shape (..) does not match index shape (..)";
    [Raised] stands for any other exception class (a cache or a generator is
    free to raise what it likes). *)
Inductive exn : Type :=
| NameError (name : string)
| UnboundLocalError (name : string)
| IndexError
| KeyError
| TypeError
| ValueError (msg : string)
| ShapeMismatch (tags_shape index_shape : list nat)
| Raised (cls : string).

(** [isinstance(e, NameError)] *)
Definition is_NameError (e : exn) : bool :=
  match e with
  | NameError _ | UnboundLocalError _ => true
  | _ => false
  end.

Definition read_only : exn := ValueError "assignment destination is read-only".

Inductive result (A : Type) : Type :=
| Ok (a : A)
| Err (e : exn).
Arguments Ok {A} a.
Arguments Err {A} e.

#[global] Instance result_ret : MRet result := fun A a => Ok a.
#[global] Instance result_bind : MBind result := fun A B f m =>
  match m with
  | Ok a => f a
  | Err e => Err e
  end.

Definition is_Ok {A} (r : result A) : bool :=
  match r with Ok _ => true | Err _ => false end.

(** [o] when present, the exception [e] otherwise *)
Definition or_raise {A} (e : exn) (o : option A) : result A :=
  match o with
  | Some a => Ok a
  | None => Err e
  end.

(** Sequential evaluation of [f] over a list, stopping at the first
    exception (a comprehension, or numpy checking every index in turn). *)
Fixpoint traverse {A B} (f : A -> result B) (l : list A) : result (list B) :=
  match l with
  | [] => Ok []
  | x :: l' => y ← f x; ys ← traverse f l'; Ok (y :: ys)
  end.

(** Stateful code that may raise: the state survives the exception, as a
    mutated object does in Python. *)
Definition action (S A : Type) : Type := S -> result A * S.

Definition act_ret {S A} (a : A) : action S A := fun s => (Ok a, s).
Definition act_raise {S A} (e : exn) : action S A := fun s => (Err e, s).
Definition act_bind {S A B} (m : action S A) (k : A -> action S B) : action S B :=
  fun s =>
    match m s with
    | (Ok a, s') => k a s'
    | (Err e, s') => (Err e, s')
    end.
Definition act_get {S} : action S S := fun s => (Ok s, s).
Definition act_put {S} (s : S) : action S unit := fun _ => (Ok tt, s).
(** A pure computation that may raise, run inside an action. *)
Definition act_lift {S A} (r : result A) : action S A := fun s => (r, s).

Notation "'let!' x ':=' m 'in' k" := (act_bind m (fun x => k))
  (at level 10, x name, m at level 100, k at level 200, only parsing).

(** ** numpy: one-dimensional arrays and their indexing *)

(** Modelled from the spec: [INDEXTYPE] and [CHARTYPE] are class attributes
    of [awkward.array.base.AwkwardArray], which is not among the sources;
    they are "the two canonical scalar element types (signed integer for
    indices/tags, raw byte for buffers)".  The signed integer is taken 64
    bits wide, the byte unsigned. *)
Definition INDEXTYPE_bits : Z := 64.

(** Fixed-width integer element types, little-endian: [itemsize] bytes,
    two's complement when [signed]. *)
Record dtype : Type := mk_dtype { itemsize : nat; signed : bool }.

#[global] Instance dtype_eq_dec : EqDecision dtype.
Proof. solve_decision. Defined.

(** The value a [bits]-wide integer slot holds after [v] is cast into it. *)
Definition wrap_bits (bits : Z) (sgn : bool) (v : Z) : Z :=
  let m := 2 ^ bits in
  let u := v mod m in
  if sgn && (m / 2 <=? u) then u - m else u.

Definition wrap (dt : dtype) (v : Z) : Z :=
  wrap_bits (8 * Z.of_nat (itemsize dt)) (signed dt) v.

Definition INDEXTYPE_wrap (v : Z) : Z := wrap_bits INDEXTYPE_bits true v.

Definition representable (dt : dtype) (v : Z) : Prop := wrap dt v = v.

Definition int64 : dtype := mk_dtype 8 true.
Definition uint64 : dtype := mk_dtype 8 false.

(** What goes between the brackets of [a[...]] for a one-dimensional [a]. *)
Inductive selector : Type :=
| SInt (i : Z)                              (* an integer *)
| SSlice (start stop step : option Z)       (* start:stop:step *)
| SFancy (idx : list Z)                     (* an integer array or list *)
| SMask (m : list bool).                    (* a boolean array *)

(** [isinstance(head, (numbers.Integral, numpy.integer))] *)
Definition is_integer (s : selector) : bool :=
  match s with SInt _ => true | _ => false end.

(** Only basic slicing yields a view onto the indexed array; integer and
    boolean arrays yield copies. *)
Definition is_view (s : selector) : bool :=
  match s with SSlice _ _ _ => true | _ => false end.

(** The slot an integer index addresses in an axis of length [n]: negative
    indices count from the end. *)
Definition norm_index (n : nat) (i : Z) : option nat :=
  if (0 <=? i) && (i <? Z.of_nat n) then Some (Z.to_nat i)
  else if (- Z.of_nat n <=? i) && (i <? 0) then Some (Z.to_nat (Z.of_nat n + i))
  else None.

(** Python's [slice.indices(len)]. *)
Definition slice_indices (start stop step : option Z) (len : Z) : result (Z * Z * Z) :=
  let st := default 1 step in
  if st =? 0 then Err (ValueError "slice step cannot be zero")
  else
    let lower := if st <? 0 then -1 else 0 in
    let upper := if st <? 0 then len - 1 else len in
    let clamp v := if v <? 0 then Z.max (v + len) lower else Z.min v upper in
    let b := match start with
             | None => if st <? 0 then upper else lower
             | Some v => clamp v
             end in
    let e := match stop with
             | None => if st <? 0 then lower else upper
             | Some v => clamp v
             end in
    Ok (b, e, st).

(** Python's [range(b, e, st)] for [st <> 0]. *)
Definition py_range (b e st : Z) : list Z :=
  let count :=
    if 0 <? st then (if b <? e then (e - b - 1) / st + 1 else 0)
    else (if e <? b then (b - e - 1) / (- st) + 1 else 0) in
  map (fun k => b + Z.of_nat k * st) (seq 0 (Z.to_nat count)).

(** The slots of an axis of length [n] that a selector addresses, in the
    order numpy visits them. *)
Definition resolve (n : nat) (s : selector) : result (list nat) :=
  match s with
  | SInt i => k ← or_raise IndexError (norm_index n i); Ok [k]
  | SSlice start stop step =>
      '(b, e, st) ← slice_indices start stop step (Z.of_nat n);
      Ok (map Z.to_nat (py_range b e st))
  | SFancy idx => traverse (fun i => or_raise IndexError (norm_index n i)) idx
  | SMask m =>
      if decide (length m = n)
      then Ok (map fst (filter (fun p => snd p = true) (zip (seq 0 n) m)))
      else Err IndexError
  end.

(** The result of indexing: a single element or an array. *)
Inductive picked (A : Type) : Type :=
| One (x : A)
| Many (xs : list A).
Arguments One {A} x.
Arguments Many {A} xs.

Definition gather {A} (a : list A) (ps : list nat) : result (list A) :=
  traverse (fun k => or_raise IndexError (a !! k)) ps.

(** [a[s]] *)
Definition np_getitem {A} (a : list A) (s : selector) : result (picked A) :=
  ps ← resolve (length a) s;
  xs ← gather a ps;
  match s, xs with
  | SInt _, x :: _ => Ok (One x)
  | SInt _, [] => Err IndexError
  | _, _ => Ok (Many xs)
  end.

(** [a[t]] for a tuple [t] of selectors, [a] one-dimensional: the empty
    tuple selects the whole array, more than one entry is one index too
    many. *)
Definition np_getitem_tuple {A} (a : list A) (t : list selector) : result (picked A) :=
  match t with
  | [] => Ok (Many a)
  | [s] => np_getitem a s
  | _ => Err IndexError
  end.

(** [a[i]] for the outcome [i] of an earlier indexing: an integer, or an
    integer array (a copy is gathered). *)
Definition np_take {A} (a : list A) (ix : picked Z) : result (picked A) :=
  match ix with
  | One i => np_getitem a (SInt i)
  | Many idx => np_getitem a (SFancy idx)
  end.

(** The right-hand side of a numpy assignment, after numpy has converted
    it: a scalar, or a one-dimensional array.  The elements of an array
    are of a fixed width and a store casts them.  A scalar is a numpy
    scalar, or a Python integer that fits a C long; numpy refuses a Python
    integer beyond that range with OverflowError before anything is
    stored, and such an integer is not among the right-hand sides here:
    the properties of scalar stores are stated for scalars the destination
    can represent. *)
Inductive rhs (A : Type) : Type :=
| RScalar (v : A)
| RArray (vs : list A).
Arguments RScalar {A} v.
Arguments RArray {A} vs.

(** The values each [n] addressed slots receive: a scalar and a length-1
    array broadcast, an array of length [n] is taken element by element,
    any other length is a shape mismatch. *)
Definition shape_mismatch : exn :=
  ValueError "shape mismatch: value array could not be broadcast to indexing result".

Definition broadcast {A} (n : nat) (v : rhs A) : result (list A) :=
  match v with
  | RScalar x => Ok (replicate n x)
  | RArray [x] => Ok (replicate n x)
  | RArray vs => if decide (length vs = n) then Ok vs else Err shape_mismatch
  end.

(** Assignments performed in order; a slot addressed twice keeps the last
    value. *)
Definition scatter {A} (a : list A) (ps : list nat) (vs : list A) : list A :=
  fold_left (fun acc pv => <[fst pv := snd pv]> acc) (zip ps vs) a.

(** [a[s] = v]: the indices are checked and the value broadcast before
    anything is stored, so an exception leaves [a] as it was. *)
Definition np_setitem {A} (a : list A) (s : selector) (v : rhs A) : result (list A) :=
  ps ← resolve (length a) s;
  vs ← broadcast (length ps) v;
  Ok (scatter a ps vs).

(** [a[i] = v] for the outcome [i] of an earlier indexing. *)
Definition np_put {A} (a : list A) (ix : picked Z) (v : rhs A) : result (list A) :=
  match ix with
  | One i => np_setitem a (SInt i) v
  | Many idx => np_setitem a (SFancy idx) v
  end.

(** ** Content arrays *)

(** A numeric numpy array: its element type and its elements. *)
Record ndarray : Type := mk_ndarray { nd_dtype : dtype; nd_data : list Z }.

(** The content a view reads through: a plain numeric array, or a structured
    array, kept as its named columns (positional access to a structured
    array acts on every column alike). *)
Inductive content : Type :=
| Plain (a : ndarray)
| Columns (cols : list (string * ndarray)).

(** What a read yields: a scalar, a row of a structured array, or an array. *)
Inductive value : Type :=
| VScalar (z : Z)
| VRow (r : list (string * Z))
| VArray (c : content).

Fixpoint assoc {A} (name : string) (cols : list (string * A)) : option A :=
  match cols with
  | [] => None
  | (n, a) :: cols' => if decide (n = name) then Some a else assoc name cols'
  end.

Fixpoint assoc_set {A} (name : string) (a : A) (cols : list (string * A)) : list (string * A) :=
  match cols with
  | [] => []
  | (n, b) :: cols' =>
      if decide (n = name) then (n, a) :: cols' else (n, b) :: assoc_set name a cols'
  end.

(** [c[name]] for a string [name]: a view of the named column; a plain array
    takes no string index, a structured one only the names of its fields. *)
Definition content_field (c : content) (name : string) : result content :=
  match c with
  | Plain _ => Err IndexError
  | Columns cols =>
      a ← or_raise (ValueError "no field of name") (assoc name cols); Ok (Plain a)
  end.

(** The column view written back: the column shares its memory with [c]. *)
Definition content_set_field (c : content) (name : string) (col : content) : content :=
  match c, col with
  | Columns cols, Plain a => Columns (assoc_set name a cols)
  | _, _ => c
  end.

Definition ndarray_take (a : ndarray) (ix : picked Z) : result (picked Z) :=
  np_take (nd_data a) ix.

Definition rhs_map {A B} (f : A -> B) (v : rhs A) : rhs B :=
  match v with
  | RScalar x => RScalar (f x)
  | RArray xs => RArray (map f xs)
  end.

(** Storing casts to the element type of the destination. *)
Definition ndarray_put (a : ndarray) (ix : picked Z) (v : rhs Z) : result ndarray :=
  d ← np_put (nd_data a) ix (rhs_map (wrap (nd_dtype a)) v);
  Ok (mk_ndarray (nd_dtype a) d).

(** [c[ix]] *)
Definition content_take (c : content) (ix : picked Z) : result value :=
  match c with
  | Plain a =>
      r ← ndarray_take a ix;
      Ok (match r with
          | One z => VScalar z
          | Many zs => VArray (Plain (mk_ndarray (nd_dtype a) zs))
          end)
  | Columns cols =>
      match ix with
      | One _ =>
          r ← traverse (fun nc =>
                 x ← ndarray_take (snd nc) ix;
                 match x with
                 | One z => Ok (fst nc, z)
                 | Many _ => Err IndexError
                 end) cols;
          Ok (VRow r)
      | Many _ =>
          r ← traverse (fun nc =>
                 x ← ndarray_take (snd nc) ix;
                 match x with
                 | One _ => Err IndexError
                 | Many zs => Ok (fst nc, mk_ndarray (nd_dtype (snd nc)) zs)
                 end) cols;
          Ok (VArray (Columns r))
      end
  end.

(** [c[ix] = v] *)
Definition content_put (c : content) (ix : picked Z) (v : rhs Z) : result content :=
  match c with
  | Plain a => a' ← ndarray_put a ix v; Ok (Plain a')
  | Columns cols =>
      r ← traverse (fun nc => a' ← ndarray_put (snd nc) ix v; Ok (fst nc, a')) cols;
      Ok (Columns r)
  end.

(** Modelled from the spec: [_isstring], of [awkward.array.base], is not
    among the sources; it is "a predicate distinguishing column-name
    indexing from positional indexing", and holds of [KStr] alone.
    [where] is a column name, a single selector, or a tuple of selectors. *)
Inductive pykey : Type :=
| KStr (name : string)
| KSel (s : selector)
| KTuple (t : list selector).

(** [a[where]] for a positional [where] on a one-dimensional array. *)
Definition np_index {A} (a : list A) (where_ : pykey) : result (picked A) :=
  match where_ with
  | KStr _ => Err IndexError
  | KSel s => np_getitem a s
  | KTuple t => np_getitem_tuple a t
  end.

(** [if not isinstance(where, tuple): where = (where,)] and then
    [head, tail = where[0], where[1:]] *)
Definition head_tail (where_ : pykey) : result (selector * list selector) :=
  match where_ with
  | KStr _ => Err TypeError
  | KSel s => Ok (s, [])
  | KTuple [] => Err IndexError
  | KTuple (s :: t) => Ok (s, t)
  end.

(** [c[(ix,) + tail]] and [c[(ix,) + tail] = v]: content has one axis, so a
    non-empty [tail] indexes an axis that is not there. *)
Definition content_take_tail (c : content) (ix : picked Z) (tail : list selector) : result value :=
  match tail with
  | [] => content_take c ix
  | _ => Err IndexError
  end.

Definition content_put_tail (c : content) (ix : picked Z) (tail : list selector)
    (v : rhs Z) : result content :=
  match tail with
  | [] => content_put c ix v
  | _ => Err IndexError
  end.

(** ** IndexedArray *)

Module IndexedArray.

Record t : Type := mk { _index : list Z; _content : content; _writeable : bool }.

(** A read yields a value, or (by column name) another view. *)
Inductive read : Type :=
| Value (v : value)
| View (a : t).

(** [IndexedArray.__getitem__] *)
Definition __getitem__ (self : t) (where_ : pykey) : result read :=
  match where_ with
  | KStr name =>
      c ← content_field (_content self) name;
      Ok (View (mk (_index self) c (_writeable self)))
  | _ =>
      ix ← np_index (_index self) where_;
      v ← content_take (_content self) ix;
      Ok (Value v)
  end.

(** The positional branch of [__setitem__]. *)
Definition assign (where_ : pykey) (what : rhs Z) : action t unit :=
  fun self =>
    if negb (_writeable self) then (Err read_only, self)
    else
      match (ix ← np_index (_index self) where_; content_put (_content self) ix what) with
      | Ok c => (Ok tt, mk (_index self) c (_writeable self))
      | Err e => (Err e, self)
      end.

(** [IndexedArray.__setitem__]; by column name it assigns [[:]] of the view
    over that column, which shares the column with the content. *)
Definition __setitem__ (where_ : pykey) (what : rhs Z) : action t unit :=
  fun self =>
    match where_ with
    | KStr name =>
        match content_field (_content self) name with
        | Err e => (Err e, self)
        | Ok col =>
            let (r, sub) :=
              assign (KSel (SSlice None None None)) what
                     (mk (_index self) col (_writeable self)) in
            (r, mk (_index self)
                   (content_set_field (_content self) name (_content sub))
                   (_writeable self))
        end
    | _ => assign where_ what self
    end.

End IndexedArray.

(** ** ByteIndexedArray *)

(** The unsigned value of a run of bytes, least significant first. *)
Fixpoint le_value (bs : list byte) : Z :=
  match bs with
  | [] => 0
  | b :: bs' => Z.of_N (Byte.to_N b) + 256 * le_value bs'
  end.

(** One element of type [dt] read from its bytes. *)
Definition decode (dt : dtype) (bs : list byte) : Z := wrap dt (le_value bs).

(** The [j]-th element of a buffer reinterpreted from byte [offset] on. *)
Definition element_at (dt : dtype) (buf : list byte) (offset : Z) (j : nat) : Z :=
  decode dt (take (itemsize dt)
                  (drop (Z.to_nat offset + j * itemsize dt)%nat buf)).

(** [numpy.frombuffer(buf, dtype=dt, count=count, offset=offset)] *)
Definition frombuffer (buf : list byte) (dt : dtype) (count offset : Z) : result (list Z) :=
  let ts := Z.of_nat (length buf) in
  let sz := Z.of_nat (itemsize dt) in
  if (offset <? 0) || (ts <? offset)
  then Err (ValueError "offset must be non-negative and no greater than buffer length")
  else
    let s := ts - offset in
    n ← (if count <? 0
         then if sz =? 0 then Err (ValueError "cannot determine count if itemsize is 0")
              else if s mod sz =? 0 then Ok (s / sz)
              else Err (ValueError "buffer size must be a multiple of element size")
         else if s <? count * sz then Err (ValueError "buffer is smaller than requested size")
              else Ok count);
    Ok (map (element_at dt buf offset) (seq 0 (Z.to_nat n))).

(** [numpy.empty(n, ...)]: storage whose initial content is not to be relied
    on; [junk] is what happens to be there. *)
Definition np_empty {A} (junk : A) (n : nat) : list A := replicate n junk.

Definition many {A} (r : picked A) : result (list A) :=
  match r with
  | Many xs => Ok xs
  | One _ => Err TypeError
  end.

(** One turn of the loop of the index construction:
    [idx[offset::itemsz] = idx[::itemsz] + offset], in the arithmetic of
    [INDEXTYPE]. *)
Definition spread_column (itemsz : nat) (idx : list Z) (offset : nat) : result (list Z) :=
  col ← (r ← np_getitem idx (SSlice None None (Some (Z.of_nat itemsz))); many r);
  np_setitem idx (SSlice (Some (Z.of_nat offset)) None (Some (Z.of_nat itemsz)))
             (RArray (map (fun x => INDEXTYPE_wrap (x + Z.of_nat offset)) col)).

(** The index construction shared by the batched paths:
<<
    idx[::itemsz] = heads
    for offset in range(1, itemsz):
        idx[offset::itemsz] = idx[::itemsz] + offset
>>
    with [idx] of element type [INDEXTYPE]. *)
Definition spread (idx : list Z) (itemsz : nat) (heads : list Z) : result (list Z) :=
  idx0 ← np_setitem idx (SSlice None None (Some (Z.of_nat itemsz)))
                    (RArray (map INDEXTYPE_wrap heads));
  foldl (fun acc offset => cur ← acc; spread_column itemsz cur offset)
        (Ok idx0) (seq 1 (itemsz - 1)).

(** A byte buffer read as consecutive elements of type [dt]. *)
Definition reinterpret (dt : dtype) (buf : list byte) : list Z :=
  map (element_at dt buf 0) (seq 0 (length buf / itemsize dt)).

(** The byte that holds the eight low bits of [z]. *)
Definition byte_of_Z (z : Z) : byte :=
  default Byte.x00 (Byte.of_N (Z.to_N (z mod 256))).

(** The [n] low bytes of [z], least significant first (two's complement
    for a negative [z]). *)
Fixpoint le_bytes (n : nat) (z : Z) : list byte :=
  match n with
  | O => []
  | S n' => byte_of_Z z :: le_bytes n' (z / 256)
  end.

(** One element of type [dt] as its bytes: the cast keeps the low bytes. *)
Definition encode (dt : dtype) (v : Z) : list byte := le_bytes (itemsize dt) v.

(** [numpy.frombuffer(a, dtype=CHARTYPE)]: the bytes of an array of
    elements of type [dt]. *)
Definition tobytes (dt : dtype) (a : list Z) : list byte := concat (map (encode dt) a).

(** The buffer with the run [bs] stored from byte [o] on. *)
Definition write_at (buf : list byte) (o : nat) (bs : list byte) : list byte :=
  take o buf ++ bs ++ drop (o + length bs) buf.

(** Stores through the array [numpy.frombuffer(buf, dtype=dt, offset=offset)],
    which shares its memory with [buf]: element [k] lies at byte
    [offset + k * itemsize]. *)
Definition store_elements (dt : dtype) (buf : list byte) (offset : nat)
    (ps : list nat) (vs : list Z) : list byte :=
  fold_left (fun acc pv => write_at acc (offset + fst pv * itemsize dt) (encode dt (snd pv)))
            (zip ps vs) buf.

Module ByteIndexedArray.

(** [_indextype] is the element type of the index array: the setter of
    [index] keeps the integer type the array comes with. *)
Record t : Type :=
  mk { _index : list Z; _content : list byte; _dtype : dtype; _writeable : bool;
       _indextype : dtype }.

Inductive read : Type :=
| Scalar (z : Z)
| Array (a : ndarray).

(** [divmod(starts, self._dtype.itemsize)] yields integers unless [starts]
    is an unsigned 64-bit integer: numpy promotes a uint64 and a Python
    integer to float64, position and offset are then floats, and
    [numpy.frombuffer] refuses a float for [count]. *)
Definition float_divmod (self : t) : bool := bool_decide (_indextype self = uint64).

(** The branch for a single offset. *)
Definition getitem_scalar (self : t) (starts : Z) : result read :=
  let itemsz := Z.of_nat (itemsize (_dtype self)) in
  if float_divmod self then Err TypeError
  else if itemsz =? 0 then Err (Raised "ZeroDivisionError")
  else
    let pos := starts / itemsz in
    let offset := starts mod itemsz in
    a ← frombuffer (_content self) (_dtype self) (pos + 1) offset;
    x ← np_getitem a (SInt pos);
    match x with
    | One z => Ok (Scalar z)
    | Many _ => Err TypeError
    end.

(** The branch for an array of offsets. *)
Definition getitem_batch (self : t) (starts : list Z) : result read :=
  let dt := _dtype self in
  let itemsz := itemsize dt in
  if decide (length starts = 0%nat) then Ok (Array (mk_ndarray dt []))
  else
    let hold := np_empty Byte.x00 (length starts * itemsz) in
    contidx ← spread (np_empty 0 (length starts * itemsz)) itemsz starts;
    holdidx ← spread (np_empty 0 (length starts * itemsz)) itemsz
                     (py_range 0 (Z.of_nat (length starts * itemsz)) (Z.of_nat itemsz));
    bytes ← (r ← np_getitem (_content self) (SFancy contidx); many r);
    hold' ← np_setitem hold (SFancy holdidx) (RArray bytes);
    Ok (Array (mk_ndarray dt (reinterpret dt hold'))).

(** [ByteIndexedArray.__getitem__] *)
Definition __getitem__ (self : t) (where_ : pykey) : result read :=
  match where_ with
  | KStr _ => Err IndexError       (* [self._content[where]] on a byte array *)
  | _ =>
      starts ← np_index (_index self) where_;
      match starts with
      | One o => getitem_scalar self o
      | Many os => getitem_batch self os
      end
  end.

Definition set_content (c : list byte) (self : t) : t :=
  mk (_index self) c (_dtype self) (_writeable self) (_indextype self).

(** The branch of [__setitem__] for a single offset:
<<
  pos, offset = divmod(starts, self._dtype.itemsize)
  buf = numpy.frombuffer(self._content, dtype=self._dtype, count=(pos + 1), offset=offset)
  buf[pos] = what
>>
    [buf] is a view of the content, so the store reaches the content. *)
Definition setitem_scalar (starts : Z) (what : rhs Z) : action t unit :=
  fun self =>
    let itemsz := Z.of_nat (itemsize (_dtype self)) in
    if float_divmod self then (Err TypeError, self)
    else if itemsz =? 0 then (Err (Raised "ZeroDivisionError"), self)
    else
      let pos := starts / itemsz in
      let offset := starts mod itemsz in
      match (buf ← frombuffer (_content self) (_dtype self) (pos + 1) offset;
             ps ← resolve (length buf) (SInt pos);
             vs ← broadcast (length ps) what;
             Ok (store_elements (_dtype self) (_content self) (Z.to_nat offset) ps vs)) with
      | Ok c => (Ok tt, set_content c self)
      | Err e => (Err e, self)
      end.

(** The branch of [__setitem__] for an array of offsets; nothing is done
    for an empty one. *)
Definition setitem_batch (starts : list Z) (what : rhs Z) : action t unit :=
  fun self =>
    let dt := _dtype self in
    let itemsz := itemsize dt in
    if decide (length starts = 0%nat) then (Ok tt, self)
    else
      match (hold ← np_setitem (np_empty 0 (length starts)) (SSlice None None None)
                               (rhs_map (wrap dt) what);
             contidx ← spread (np_empty 0 (length starts * itemsz)) itemsz starts;
             holdidx ← spread (np_empty 0 (length starts * itemsz)) itemsz
                              (py_range 0 (Z.of_nat (length starts * itemsz))
                                        (Z.of_nat itemsz));
             np_setitem (_content self) (SFancy contidx) (RArray (tobytes dt hold))) with
      | Ok c => (Ok tt, set_content c self)
      | Err e => (Err e, self)
      end.

(** [ByteIndexedArray.__setitem__] *)
Definition __setitem__ (where_ : pykey) (what : rhs Z) : action t unit :=
  match where_ with
  | KStr _ => act_raise IndexError   (* [self._content[where]] on a byte array *)
  | _ =>
      let! self := act_get in
      if negb (_writeable self) then act_raise read_only
      else
        let! starts := act_lift (np_index (_index self) where_) in
        match starts with
        | One o => setitem_scalar o what
        | Many os => setitem_batch os what
        end
  end.

End ByteIndexedArray.

(** ** IndexedMaskedArray *)

(** Modelled from the spec: [awkward.array.masked.MaskedArray] is not among
    the sources; it is "a nullable source of matching shape" with "the
    source's own null mask (supporting either polarity of "true means
    valid" vs "true means null")": one mask bit and one content element per
    position, and the polarity [_maskedwhen]. *)
Record MaskedArray : Type :=
  mk_MaskedArray { ma_maskedwhen : bool; ma_items : list (bool * Z) }.

(** What may stand on the right of an assignment to a masked view. *)
Inductive operand : Type :=
| OMasked                                   (* numpy.ma.masked *)
| OScalar (v : Z)
| OSeq (xs : list (option Z))               (* a list or tuple; [None] is a masked element *)
| OArray (xs : list Z)                      (* a one-dimensional numpy.ndarray *)
| OMaskedArray (a : MaskedArray)
| OIndexedMasked (index : list Z) (maskedwhen : Z) (content : list Z).

(** [len(what)], for the operands that have one. *)
Definition operand_len (what : operand) : option nat :=
  match what with
  | OMasked | OScalar _ => None
  | OSeq xs => Some (length xs)
  | OArray xs => Some (length xs)
  | OMaskedArray a => Some (length (ma_items a))
  | OIndexedMasked index _ _ => Some (length index)
  end.

(** [what[0]] for an operand of length one: [None] is the missing marker. *)
Definition operand_first (what : operand) : result (option Z) :=
  match what with
  | OSeq (x :: _) => Ok x
  | OArray (x :: _) => Ok (Some x)
  | OMaskedArray (mk_MaskedArray mw ((b, x) :: _)) =>
      Ok (if decide (b = mw) then None else Some x)
  | OIndexedMasked (i :: _) mw c =>
      if decide (i = mw) then Ok None
      else r ← np_getitem c (SInt i);
           match r with One x => Ok (Some x) | Many _ => Err TypeError end
  | _ => Err IndexError
  end.

Definition is_some {A} (o : option A) : bool :=
  match o with Some _ => true | None => false end.

(** The entries of [xs] whose mask bit is set: [xs[mask]]. *)
Definition select {A} (xs : list A) (mask : list bool) : result (list A) :=
  r ← np_getitem xs (SMask mask); many r.

Module IndexedMaskedArray.

Record t : Type :=
  mk { _index : list Z; _content : content; _maskedwhen : Z; _writeable : bool }.

(** A read yields the missing value [numpy.ma.masked], a value of the
    content, or another view. *)
Inductive read : Type :=
| Masked
| Value (v : value)
| View (a : t).

(** [IndexedMaskedArray.__getitem__] *)
Definition __getitem__ (self : t) (where_ : pykey) : result read :=
  match where_ with
  | KStr name =>
      c ← content_field (_content self) name;
      Ok (View (mk (_index self) c (_maskedwhen self) (_writeable self)))
  | _ =>
      '(head, tail) ← head_tail where_;
      if is_integer head then
        i ← np_getitem (_index self) head;
        match i with
        | One i0 =>
            if decide (i0 = _maskedwhen self) then Ok Masked
            else
              ix ← np_getitem (_index self) head;
              v ← content_take_tail (_content self) ix tail;
              Ok (Value v)
        | Many _ => Err (ValueError "the truth value of an array is ambiguous")
        end
      else
        ix ← (r ← np_getitem (_index self) head; many r);
        c ← match tail with [] => Ok (_content self) | _ => Err IndexError end;
        Ok (View (mk ix c (_maskedwhen self) (_writeable self)))
  end.

Definition set_index (ix : list Z) (self : t) : t :=
  mk ix (_content self) (_maskedwhen self) (_writeable self).
Definition set_content (c : content) (self : t) : t :=
  mk (_index self) c (_maskedwhen self) (_writeable self).

(** [self._index[head] = self._maskedwhen]; the sentinel is stored as it
    is, which is what numpy does with a sentinel the element type of the
    index array holds. *)
Definition mask_at (head : selector) : action t unit :=
  fun self =>
    match np_setitem (_index self) head (RScalar (_maskedwhen self)) with
    | Ok ix => (Ok tt, set_index ix self)
    | Err e => (Err e, self)
    end.

(** [self._content[(ix,) + tail] = v] *)
Definition store (ix : picked Z) (tail : list selector) (v : rhs Z) : action t unit :=
  fun self =>
    match content_put_tail (_content self) ix tail v with
    | Ok c => (Ok tt, set_content c self)
    | Err e => (Err e, self)
    end.

(** [self._content[(self._index[head],) + tail] = v] *)
Definition store_at (head : selector) (tail : list selector) (v : rhs Z) : action t unit :=
  let! self := act_get in
  let! ix := act_lift (np_getitem (_index self) head) in
  store ix tail v.

(** [self._index[head][mask] = self._maskedwhen]: the inner indexing
    yields a view when [head] is a slice and the store reaches the index
    array; it yields a copy otherwise and the store is lost with it; a
    numpy scalar (integer [head]) supports no item assignment.
    [mask = None] is the array numpy builds from an empty list: its
    element type is float, which is no index.  As in [mask_at], the
    sentinel is stored as it is. *)
Definition mask_where (head : selector) (mask : option (list bool)) : action t unit :=
  fun self =>
    match np_getitem (_index self) head with
    | Err e => (Err e, self)
    | Ok (One _) => (Err TypeError, self)
    | Ok (Many sub) =>
        match mask with
        | None => (Err IndexError, self)
        | Some m =>
            match resolve (length sub) (SMask m), resolve (length (_index self)) head with
            | Ok qs, Ok ps =>
                if is_view head then
                  match gather ps qs with
                  | Ok slots =>
                      (Ok tt, set_index (scatter (_index self) slots
                                           (replicate (length slots) (_maskedwhen self))) self)
                  | Err e => (Err e, self)
                  end
                else (Ok tt, self)
            | Err e, _ => (Err e, self)
            | _, Err e => (Err e, self)
            end
        end
    end.

(** [self._content[(self._index[head][mask],) + tail] = vals], the
    right-hand side [vals] evaluated first. *)
Definition store_where (head : selector) (mask : list bool) (tail : list selector)
    (vals : result (list Z)) : action t unit :=
  let! vs := act_lift vals in
  let! self := act_get in
  let! sub := act_lift (np_getitem (_index self) head) in
  let! ix := act_lift (match sub with
                       | One _ => Err IndexError
                       | Many xs => select xs mask
                       end) in
  store (Many ix) tail (RArray vs).

(** The mask of an operand and the values of its unmasked part, for the
    branches that split the target positions by a mask. *)
Definition split_by (mask : option (list bool)) (notmask : list bool)
    (head : selector) (tail : list selector) (vals : result (list Z)) : action t unit :=
  let! _ := mask_where head mask in
  store_where head notmask tail vals.

(** The last markerless branch:
<<
  index = self._index[head]
  only = (index != self._maskedwhen)
  self._content[(index[only],) + tail] = what[only]
>>
    With an integer [head] both [index] and [only] are numpy scalars:
    [what[only]] gains an axis and no longer fits the indexing result. *)
Definition store_unmasked (head : selector) (tail : list selector) (what : list Z)
    : action t unit :=
  let! self := act_get in
  let! index := act_lift (np_getitem (_index self) head) in
  match index with
  | One _ =>
      act_raise (match tail with
                 | [] => shape_mismatch
                 | _ => IndexError
                 end)
  | Many ix =>
      let only := map (fun i => negb (bool_decide (i = _maskedwhen self))) ix in
      let! vs := act_lift (select what only) in
      let! kept := act_lift (select ix only) in
      store (Many kept) tail (RArray vs)
  end.

(** [IndexedMaskedArray.__setitem__]: the branch for a column name reads
    the local [head] before anything has been assigned to it; the other
    branches follow the [isinstance] tests of the source in their order. *)
Definition __setitem__ (where_ : pykey) (what : operand) : action t unit :=
  match where_ with
  | KStr _ => act_raise (UnboundLocalError "head")
  | _ =>
      let! self := act_get in
      if negb (_writeable self) then act_raise read_only
      else
        let! ht := act_lift (head_tail where_) in
        let head := fst ht in
        let tail := snd ht in
        match what with
        | OMasked | OSeq [None] => mask_at head
        | _ =>
            if decide (operand_len what = Some 1%nat) then
              let! x := act_lift (operand_first what) in
              match x with
              | None => mask_at head
              | Some v => store_at head tail (RScalar v)
              end
            else
              match what with
              | OMaskedArray a =>
                  let boolmask := map fst (ma_items a) in
                  let notboolmask := map negb boolmask in
                  let content := map snd (ma_items a) in
                  if ma_maskedwhen a
                  then split_by (Some boolmask) notboolmask head tail
                                (select content notboolmask)
                  else split_by (Some notboolmask) boolmask head tail
                                (select content boolmask)
              | OIndexedMasked windex wmw wcontent =>
                  let boolmask := map (fun i => bool_decide (i = wmw)) windex in
                  let notboolmask := map negb boolmask in
                  split_by (Some boolmask) notboolmask head tail
                           (select wcontent notboolmask)
              | OSeq xs =>
                  let boolmask := map (fun x => negb (is_some x)) xs in
                  let notboolmask := map negb boolmask in
                  split_by (match xs with [] => None | _ => Some boolmask end)
                           notboolmask head tail
                           (Ok (omap id xs))
              | OArray xs => store_unmasked head tail xs
              | OMasked => mask_at head
              | OScalar v => store_at head tail (RScalar v)
              end
        end
  end.

End IndexedMaskedArray.

(** ** UnionArray *)

(** [numpy.unique]: the distinct elements, in increasing order. *)
Fixpoint insert_unique (x : Z) (l : list Z) : list Z :=
  match l with
  | [] => [x]
  | y :: l' =>
      if x <? y then x :: y :: l'
      else if x =? y then y :: l'
      else y :: insert_unique x l'
  end.

Definition np_unique (l : list Z) : list Z := foldr insert_unique [] l.

Fixpoint index_of (x : Z) (l : list Z) : nat :=
  match l with
  | [] => 0%nat
  | y :: l' => if decide (x = y) then 0%nat else S (index_of x l')
  end.

(** [numpy.unique(l, return_inverse=True)]: the inverse gives, for each
    element of [l], its place among the distinct elements. *)
Definition np_unique_inverse (l : list Z) : list Z * list nat :=
  let uniques := np_unique l in
  (uniques, map (fun x => index_of x uniques) l).

(** [a.shape] of a one-dimensional array *)
Definition shape {A} (a : list A) : list nat := [length a].

(** The operands of an assignment to a union: a scalar, a list or tuple, or
    a numpy array (a list is turned into an array before it is split). *)
Inductive plain_operand : Type :=
| PScalar (v : Z)
| PSeq (xs : list Z)
| PArray (xs : list Z).

Module UnionArray.

Record t : Type :=
  mk { _tags : list Z; _index : list Z; _contents : list content; _writeable : bool }.

Inductive read : Type :=
| Value (v : value)
| View (a : t).

(** [tuple(x[where] for x in self._contents)] *)
Definition project (self : t) (name : string) : result (list content) :=
  traverse (fun x => content_field x name) (_contents self).

(** [self._contents[tag]]: a tuple indexed by an integer. *)
Definition content_at (self : t) (tag : Z) : result (nat * content) :=
  k ← or_raise IndexError (norm_index (length (_contents self)) tag);
  c ← or_raise IndexError (_contents self !! k);
  Ok (k, c).

Definition picked_shape {A} (r : picked A) : list nat :=
  match r with
  | One _ => []
  | Many xs => shape xs
  end.

Definition picked_list {A} (r : picked A) : list A :=
  match r with
  | One x => [x]
  | Many xs => xs
  end.

(** [UnionArray.__getitem__] *)
Definition __getitem__ (self : t) (where_ : pykey) : result read :=
  match where_ with
  | KStr name =>
      _ ← project self name;
      (* the keyword argument [writeable=writeable] is evaluated last *)
      Err (NameError "writeable")
  | _ =>
      if negb (bool_decide (shape (_tags self) = shape (_index self)))
      then Err (ShapeMismatch (shape (_tags self)) (shape (_index self)))
      else
        '(head, tail) ← head_tail where_;
        tags ← np_getitem (_tags self) head;
        index ← np_getitem (_index self) head;
        if negb (bool_decide (picked_shape tags = picked_shape index))
        then Err (Raised "AssertionError")
        else
          let uniques := np_unique (picked_list tags) in
          match uniques with
          | [u] =>
              '(_, c) ← content_at self u;
              v ← content_take_tail c index tail;
              Ok (Value v)
          | _ =>
              Ok (View (mk (picked_list tags) (picked_list index)
                           (_contents self) (_writeable self)))
          end
  end.

Definition set_contents (cs : list content) (self : t) : t :=
  mk (_tags self) (_index self) cs (_writeable self).

(** One turn of the loop over [enumerate(uniques)]:
<<
  selection = (i == inverse)
  self._contents[tag][(index[selection],) + tail] = vals
>>
    [vals] is the right-hand side, evaluated first.  A numpy scalar
    [index] (integer [head]) cannot be indexed by the one-dimensional
    [selection]. *)
Definition route (inverse : list nat) (index : picked Z) (tail : list selector)
    (vals : list bool -> result (rhs Z)) (i : nat) (tag : Z) : action t unit :=
  fun self =>
    let selection := map (fun j => bool_decide (j = i)) inverse in
    match (v ← vals selection;
           '(k, c) ← content_at self tag;
           ix ← match index with
                | One _ => Err IndexError
                | Many idx => select idx selection
                end;
           c' ← content_put_tail c (Many ix) tail v;
           Ok (<[k := c']> (_contents self))) with
    | Ok cs => (Ok tt, set_contents cs self)
    | Err e => (Err e, self)
    end.

(** The loop, from turn [i] on: an exception in one turn leaves the
    stores of the earlier turns in place. *)
Fixpoint route_from (inverse : list nat) (index : picked Z) (tail : list selector)
    (vals : list bool -> result (rhs Z)) (i : nat) (uniques : list Z) : action t unit :=
  match uniques with
  | [] => act_ret tt
  | tag :: rest =>
      let! _ := route inverse index tail vals i tag in
      route_from inverse index tail vals (S i) rest
  end.

(** [UnionArray.__setitem__] *)
Definition __setitem__ (where_ : pykey) (what : plain_operand) : action t unit :=
  match where_ with
  | KStr name =>
      let! self := act_get in
      let! _ := act_lift (project self name) in
      act_raise (NameError "writeable")
  | _ =>
      let! self := act_get in
      if negb (_writeable self) then act_raise read_only
      else if negb (bool_decide (shape (_tags self) = shape (_index self)))
      then act_raise (ShapeMismatch (shape (_tags self)) (shape (_index self)))
      else
        let! ht := act_lift (head_tail where_) in
        let tail := snd ht in
        let! tags := act_lift (np_getitem (_tags self) (fst ht)) in
        let! index := act_lift (np_getitem (_index self) (fst ht)) in
        if negb (bool_decide (picked_shape tags = picked_shape index))
        then act_raise (Raised "AssertionError")
        else
          let (uniques, inverse) := np_unique_inverse (picked_list tags) in
          let loop vals := route_from inverse index tail vals 0 uniques in
          match what with
          | PScalar v => loop (fun _ => Ok (RScalar v))
          | PSeq [v] | PArray [v] => loop (fun _ => Ok (RScalar v))
          | PSeq xs | PArray xs =>
              match tags with
              | One _ => act_raise TypeError          (* [len(tags)] of a numpy scalar *)
              | Many ts =>
                  if negb (bool_decide (length xs = length ts))
                  then act_raise
                         (ValueError
                            "cannot copy seqence with size {0} to array axis with dimension {1}")
                  else loop (fun selection => vs ← select xs selection; Ok (RArray vs))
              end
          end
  end.

End UnionArray.

(** ** VirtualArray *)

(** What a view registers its array under: the caller's persistent string,
    or a [TransientKey] made of the view's runtime identity. *)
Inductive key : Type :=
| PersistentKey (name : string)
| TransientKey (id : Z).

#[global] Instance key_eq_dec : EqDecision key.
Proof. solve_decision. Defined.

#[global] Instance key_countable : Countable key.
Proof.
  refine (inj_countable'
            (fun k => match k with PersistentKey s => inl s | TransientKey i => inr i end)
            (fun x => match x with inl s => PersistentKey s | inr i => TransientKey i end) _).
  by intros [].
Defined.

(** An array as a generator may produce it: any number of axes. *)
Record anyarray : Type :=
  mk_anyarray { any_dtype : dtype; any_shape : list nat; any_data : list Z }.

(** The cache is any object with [__getitem__], [__setitem__] and
    [__delitem__] (and [in] for [ismaterialized]); each may raise, and may
    change the cache. *)
Class Cache (C : Type) : Type := {
  cache_getitem : key -> action C anyarray;
  cache_setitem : key -> anyarray -> action C unit;
  cache_delitem : key -> action C unit;
  cache_contains : key -> C -> bool
}.

(** A Python [dict]. *)
#[global] Instance dict_cache : Cache (gmap key anyarray) := {
  cache_getitem k := fun c => (or_raise KeyError (c !! k), c);
  cache_setitem k a := fun c => (Ok tt, <[k := a]> c);
  cache_delitem k := fun c =>
    match c !! k with
    | Some _ => (Ok tt, delete k c)
    | None => (Err KeyError, c)
    end;
  cache_contains k := fun c => bool_decide (is_Some (c !! k))
}.

Module VirtualArray.

(** What [_array] holds. *)
Inductive held : Type :=
| Nothing
| Held (a : anyarray)
| HeldKey (k : key).

Section WithCache.
Context {C : Type} `{Cache C}.

(** The view together with what it refers to: the cache is shared with
    its other users, the generator is a callable whose [n]-th call
    yields [_generator self n] once [_toarray] has converted it (or
    raises); [calls] counts the calls made so far and [id] is [id(self)]. *)
Record t : Type := mk {
  _generator : nat -> result anyarray;
  calls : nat;
  _cache : option C;
  _persistentkey : option string;
  _array : held;
  _dtype : option dtype;
  _shape : option (list nat);
  id : Z
}.

Definition set_array (h : held) (self : t) : t :=
  mk (_generator self) (calls self) (_cache self) (_persistentkey self) h
     (_dtype self) (_shape self) (id self).
Definition set_cache (c : option C) (self : t) : t :=
  mk (_generator self) (calls self) c (_persistentkey self) (_array self)
     (_dtype self) (_shape self) (id self).
Definition set_calls (n : nat) (self : t) : t :=
  mk (_generator self) n (_cache self) (_persistentkey self) (_array self)
     (_dtype self) (_shape self) (id self).

(** The property [key]. *)
Definition key_of (self : t) : key :=
  match _persistentkey self with
  | Some name => PersistentKey name
  | None => TransientKey (id self)
  end.

(** Modelled from the spec: [_toarray], of [awkward.array.base], is not
    among the sources; it is the "conversion of array-like inputs into the
    internal representation".  [_generator self n] is the [n]-th output of
    the generator so converted, or the exception raised on the way;
    [generate] is the call [self._toarray(self.generator(), ...)]. *)
Definition generate : action t anyarray :=
  fun self => (_generator self (calls self), set_calls (S (calls self)) self).

(** A cache operation run on the attached cache. *)
Definition on_cache {A} (c : C) (op : action C A) : action t A :=
  fun self => let (r, c') := op c in (r, set_cache (Some c') self).

(** The checks [materialize] makes on what the generator produced. *)
Definition validate (self : t) (array : anyarray) : result unit :=
  _ ← match _dtype self with
      | Some dt =>
          if bool_decide (dt = any_dtype array) then Ok tt
          else Err (ValueError "materialized array has dtype {0}, expected dtype {1}")
      | None => Ok tt
      end;
  _ ← match _shape self with
      | Some sh =>
          if bool_decide (sh = any_shape array) then Ok tt
          else Err (ValueError "materialized array has shape {0}, expected shape {1}")
      | None => Ok tt
      end;
  if bool_decide (length (any_shape array) = 0%nat)
  then Err (ValueError "materialized object is scalar: {0}")
  else Ok tt.

(** [VirtualArray.materialize] *)
Definition materialize : action t anyarray :=
  let! array := generate in
  let! self := act_get in
  let! _ := act_lift (validate self array) in
  match _cache self with
  | None =>
      let! _ := act_put (set_array (Held array) self) in
      act_ret array
  | Some c =>
      let! _ := act_put (set_array (HeldKey (key_of self)) self) in
      let! _ := on_cache c (cache_setitem (key_of self) array) in
      act_ret array
  end.

(** The property [array]; the cases are the states (1) to (7) of the
    comment in the source. *)
Definition array : action t anyarray :=
  let! self := act_get in
  match _array self, _cache self with
  | Nothing, _ => materialize                            (* (1) and (3) *)
  | HeldKey _, None => materialize                       (* (6) *)
  | Held something, None => act_ret something            (* (2) *)
  | HeldKey something, Some c =>
      fun s =>
        match on_cache c (cache_getitem something) s with
        | (Ok a, s') => (Ok a, s')                       (* (5) *)
        | (Err _, s') => materialize s'                  (* (4) *)
        end
  | Held something, Some c =>                            (* (7) *)
      let! _ := on_cache c (cache_setitem (key_of self) something) in
      act_ret something
  end.

(** The property [ismaterialized]; with a cache attached it asks the
    cache whether it has what [_array] holds, and an array is no key
    (a [dict] refuses to hash it). *)
Definition ismaterialized (self : t) : result bool :=
  match _cache self with
  | None => Ok (match _array self with Held _ => true | _ => false end)
  | Some c =>
      match _array self with
      | Nothing => Ok false
      | HeldKey k => Ok (cache_contains k c)
      | Held _ => Err TypeError
      end
  end.

(** [VirtualArray.__del__]: the entry under a [TransientKey] is taken out
    of the cache, whatever [__delitem__] raises being swallowed; a
    persistent key stays in. *)
Definition __del__ : action t unit :=
  fun self =>
    match _cache self, _array self with
    | Some c, HeldKey (TransientKey i) =>
        let (_, self') := on_cache c (cache_delitem (TransientKey i)) self in
        (Ok tt, self')
    | _, _ => (Ok tt, self)
    end.

(** [__setitem__] *)
Definition __setitem__ : action t unit := act_raise read_only.

End WithCache.
Arguments t C : clear implicits.

End VirtualArray.

(** ** VirtualObjectArray *)

Module VirtualObjectArray.

Section WithObjects.
Context {B : Type}.

(** The view over a one-dimensional numeric content: the generator is a
    callable of one argument whose [n]-th call, on the argument [x], yields
    [_generator self n x] or raises; [calls] counts the calls made so
    far. *)
Record t : Type :=
  mk { _generator : nat -> picked Z -> result B; calls : nat; _content : list Z }.

(** A read yields one object, or a list of objects. *)
Inductive read : Type :=
| Object (b : B)
| Objects (bs : list B).

(** [self.generator(x)] *)
Definition generate (x : picked Z) : action t B :=
  fun self =>
    (_generator self (calls self) x,
     mk (_generator self) (S (calls self)) (_content self)).

(** [[self.generator(x) for x in content]] *)
Fixpoint generate_each (xs : list Z) : action t (list B) :=
  match xs with
  | [] => act_ret []
  | x :: xs' =>
      let! b := generate (One x) in
      let! bs := generate_each xs' in
      act_ret (b :: bs)
  end.

(** [isinstance(where, (numbers.Integral, numpy.integer))] *)
Definition is_integer_key (where_ : pykey) : bool :=
  match where_ with
  | KSel s => is_integer s
  | _ => false
  end.

(** [VirtualObjectArray.__getitem__] *)
Definition __getitem__ (where_ : pykey) : action t read :=
  let! self := act_get in
  let! content := act_lift (np_index (_content self) where_) in
  if is_integer_key where_ then
    let! b := generate content in
    act_ret (Object b)
  else
    match content with
    | One _ => act_raise TypeError            (* a numpy scalar is not iterable *)
    | Many xs =>
        let! bs := generate_each xs in
        act_ret (Objects bs)
    end.

(** [__len__] *)
Definition __len__ (self : t) : nat := length (_content self).

(** [__setitem__] *)
Definition __setitem__ : action t unit := act_raise read_only.

End WithObjects.
Arguments t B : clear implicits.
Arguments read B : clear implicits.

End VirtualObjectArray.

(** ** Worked examples and the vocabulary of the properties *)

Definition ex_indexed : IndexedArray.t :=
  IndexedArray.mk [2; 0; 1] (Plain (mk_ndarray (mk_dtype 8 true) [10; 20; 30])) true.

Definition ex_masked : IndexedMaskedArray.t :=
  IndexedMaskedArray.mk [-1; 3] (Plain (mk_ndarray (mk_dtype 8 true) [1; 2; 3; 4])) (-1) true.

Definition ex_union : UnionArray.t :=
  UnionArray.mk [0; 1; 0] [0; 0; 1]
    [Plain (mk_ndarray (mk_dtype 8 true) [5; 6]); Plain (mk_ndarray (mk_dtype 8 true) [7])]
    true.

Definition ex_union_mismatch (w : bool) : UnionArray.t :=
  UnionArray.mk [0; 1] [0; 0; 1]
    [Columns [("x"%string, mk_ndarray (mk_dtype 8 true) [5; 6])];
     Columns [("x"%string, mk_ndarray (mk_dtype 8 true) [7])]]
    w.

Definition ex_array (n : Z) : anyarray := mk_anyarray (mk_dtype 8 true) [3%nat] [n; n; n].

(** A view whose cache entry was evicted behind its back. *)
Definition ex_evicted : VirtualArray.t (gmap key anyarray) :=
  VirtualArray.mk (fun n => Ok (ex_array (Z.of_nat n))) 1 (Some ∅) (Some "col"%string)
    (VirtualArray.HeldKey (PersistentKey "col")) None None 0.

Definition ex_lazy (c : option (gmap key anyarray)) : VirtualArray.t (gmap key anyarray) :=
  VirtualArray.mk (fun n => Ok (ex_array (Z.of_nat n))) 0 c None VirtualArray.Nothing
    (Some (mk_dtype 8 true)) (Some [3%nat]) 42.

(** The index entries other than the sentinel, and the values that go with
    them. *)
Definition unmasked (M : Z) (ix : list Z) : list Z := filter (fun i => i <> M) ix.

Definition unmasked_values (M : Z) (ix xs : list Z) : list Z :=
  map snd (filter (fun p => fst p <> M) (zip ix xs)).

(** Sizes that the index type can hold. *)
Definition fits_INDEXTYPE (n : nat) : Prop := Z.of_nat n < 2 ^ (INDEXTYPE_bits - 1).

(** The slots [off], [off + itemsz], [off + 2 * itemsz], ... of an axis of
    [K * itemsz] slots. *)
Definition stride_slots (K itemsz off : nat) : list nat :=
  map (fun j => (off + j * itemsz)%nat) (seq 0 K).

(** The entry [idx[j * itemsz + k]] the index construction computes. *)
Definition spread_entry (heads : list Z) (j k : nat) : Z :=
  let h := INDEXTYPE_wrap (nth j heads 0) in
  if decide (k = 0%nat) then h else INDEXTYPE_wrap (h + Z.of_nat k).

(** The element of type [_dtype self] that starts at byte [o] of the
    buffer. *)
Definition read_at (self : ByteIndexedArray.t) (o : Z) : Z :=
  decode (ByteIndexedArray._dtype self)
    (take (itemsize (ByteIndexedArray._dtype self))
          (drop (Z.to_nat o) (ByteIndexedArray._content self))).

(** A byte offset at which a whole element lies inside the buffer. *)
Definition valid_offset (self : ByteIndexedArray.t) (o : Z) : Prop :=
  0 <= o /\
  o + Z.of_nat (itemsize (ByteIndexedArray._dtype self)) <=
    Z.of_nat (length (ByteIndexedArray._content self)).

Definition ex_bytes : ByteIndexedArray.t :=
  ByteIndexedArray.mk [0; 1; 3; 1; 4]
    [Byte.x01; Byte.x02; Byte.x03; Byte.x04; Byte.x05; Byte.x06; Byte.xff; Byte.xf0]
    (mk_dtype 4 true) true int64.

Definition ex_negative : ByteIndexedArray.t :=
  ByteIndexedArray.mk [-1] [Byte.x03; Byte.x07] (mk_dtype 1 false) true int64.

Definition ex_negative4 : ByteIndexedArray.t :=
  ByteIndexedArray.mk [-5]
    [Byte.x00; Byte.x01; Byte.x02; Byte.x03; Byte.x04; Byte.x05; Byte.x06; Byte.x07;
     Byte.x08; Byte.x09; Byte.x0a]
    (mk_dtype 4 false) true int64.

(** An action on a masked view that keeps the sentinel, the writeable flag
    and the length of the index, and leaves masked every position that was
    masked. *)
Definition keeps_masked {A} (m : action IndexedMaskedArray.t A) : Prop :=
  forall self,
    IndexedMaskedArray._maskedwhen (snd (m self)) = IndexedMaskedArray._maskedwhen self /\
    IndexedMaskedArray._writeable (snd (m self)) = IndexedMaskedArray._writeable self /\
    length (IndexedMaskedArray._index (snd (m self))) =
      length (IndexedMaskedArray._index self) /\
    forall p,
      IndexedMaskedArray._index self !! p = Some (IndexedMaskedArray._maskedwhen self) ->
      IndexedMaskedArray._index (snd (m self)) !! p =
        Some (IndexedMaskedArray._maskedwhen self).

(** A run of assignments to a masked view, failed ones included (what an
    assignment stored before it raised stays stored). *)
Definition masked_writes (ws : list (pykey * operand)) (self : IndexedMaskedArray.t)
    : IndexedMaskedArray.t :=
  foldl (fun s w => snd (IndexedMaskedArray.__setitem__ (fst w) (snd w) s)) self ws.

(** An action on a masked view that leaves the index array as it was. *)
Definition keeps_index {A} (m : action IndexedMaskedArray.t A) : Prop :=
  forall self, IndexedMaskedArray._index (snd (m self)) = IndexedMaskedArray._index self.

(** The content, the slot of that content and the element type that
    position [p] of a union over numeric contents addresses. *)
Definition union_slot (self : UnionArray.t) (p : nat) : option (nat * nat * dtype) :=
  tg ← UnionArray._tags self !! p;
  i ← UnionArray._index self !! p;
  k ← norm_index (length (UnionArray._contents self)) tg;
  c ← UnionArray._contents self !! k;
  match c with
  | Plain a => sl ← norm_index (length (nd_data a)) i; Some (k, sl, nd_dtype a)
  | Columns _ => None
  end.

(** Contents that differ from [cs0] at most in the elements of its numeric
    arrays. *)
Definition same_layout (cs0 cs : list content) : Prop :=
  length cs = length cs0 /\
  forall k dt data,
    cs0 !! k = Some (Plain (mk_ndarray dt data)) ->
    exists data', cs !! k = Some (Plain (mk_ndarray dt data')) /\ length data' = length data.

(** Slot [sl] of the numeric content [k] holds [v], cast to the element
    type. *)
Definition holds_at (cs : list content) (k sl : nat) (v : Z) : Prop :=
  exists dt data, cs !! k = Some (Plain (mk_ndarray dt data)) /\ data !! sl = Some (wrap dt v).


(** Scalar writes to a ByteIndexedArray, one position after the other. *)
Fixpoint byte_writes (pvs : list (nat * Z)) : action ByteIndexedArray.t unit :=
  match pvs with
  | [] => act_ret tt
  | pv :: rest =>
      let! _ := ByteIndexedArray.__setitem__ (KSel (SInt (Z.of_nat (fst pv))))
                  (RScalar (snd pv)) in
      byte_writes rest
  end.


(** Reads of single positions of a VirtualObjectArray, one after the
    other, collected in a list. *)
Fixpoint object_reads {B : Type} (ps : list nat)
    : action (VirtualObjectArray.t B) (list B) :=
  match ps with
  | [] => act_ret []
  | p :: ps' =>
      let! r := VirtualObjectArray.__getitem__ (KSel (SInt (Z.of_nat p))) in
      match r with
      | VirtualObjectArray.Object b =>
          let! bs := object_reads ps' in
          act_ret (b :: bs)
      | VirtualObjectArray.Objects _ => act_raise TypeError
      end
  end.


(** Entry [j] of a selection of a union goes to slot [sl] of the numeric
    content [k], of element type [dt]: [inverse] gives the place of the
    entry's tag among the distinct tags [uniques], [idx] its index
    entry. *)
Definition routed (cs0 : list content) (uniques : list Z) (inverse : list nat)
    (idx : list Z) (j k sl : nat) (dt : dtype) : Prop :=
  exists i x tag data,
    inverse !! j = Some i /\ idx !! j = Some x /\ uniques !! i = Some tag /\
    norm_index (length cs0) tag = Some k /\
    cs0 !! k = Some (Plain (mk_ndarray dt data)) /\
    norm_index (length data) x = Some sl.


(** The sentinel lies between two entries of the index.  The index array
    has a fixed-width integer element type, which the record does not
    carry; an integer between two of its elements is one that type holds,
    so storing the sentinel in the index stores it as it is (a sentinel
    out of the type's range would be refused or wrapped by the store). *)
Definition sentinel_fits (self : IndexedMaskedArray.t) : Prop :=
  exists lo hi,
    lo ∈ IndexedMaskedArray._index self /\ hi ∈ IndexedMaskedArray._index self /\
    lo <= IndexedMaskedArray._maskedwhen self <= hi.


(** * Properties *)

(** ** numpy indexing *)

#[local] Arguments np_getitem : simpl never.
#[local] Arguments np_setitem : simpl never.
#[local] Arguments content_take : simpl never.
#[local] Arguments content_put : simpl never.
#[local] Arguments norm_index : simpl never.
#[local] Arguments broadcast : simpl never.

Lemma norm_index_nat (n p : nat) :
  (p < n)%nat -> norm_index n (Z.of_nat p) = Some p.
Proof.
  intros Hp. unfold norm_index.
  destruct (0 <=? Z.of_nat p) eqn:H0; [|lia].
  destruct (Z.of_nat p <? Z.of_nat n) eqn:H1; [|lia].
  simpl. by rewrite Nat2Z.id.
Qed.

Lemma norm_index_lt (n : nat) (i : Z) (k : nat) :
  norm_index n i = Some k -> (k < n)%nat.
Proof.
  unfold norm_index.
  destruct ((0 <=? i) && (i <? Z.of_nat n)) eqn:H0.
  - intros [= <-]. lia.
  - destruct ((- Z.of_nat n <=? i) && (i <? 0)) eqn:H1; [|done].
    intros [= <-]. lia.
Qed.

Lemma np_getitem_norm {A} (a : list A) (i : Z) (k : nat) (x : A) :
  norm_index (length a) i = Some k -> a !! k = Some x ->
  np_getitem a (SInt i) = Ok (One x).
Proof.
  intros Hi Hk. unfold np_getitem, resolve, gather.
  rewrite Hi. simpl. by rewrite Hk.
Qed.

Lemma np_getitem_nat {A} (a : list A) (p : nat) (x : A) :
  a !! p = Some x -> np_getitem a (SInt (Z.of_nat p)) = Ok (One x).
Proof.
  intros Hp. apply np_getitem_norm with p; [|done].
  apply norm_index_nat. by eapply lookup_lt_Some.
Qed.

Lemma np_setitem_norm {A} (a : list A) (i : Z) (k : nat) (v : A) :
  norm_index (length a) i = Some k ->
  np_setitem a (SInt i) (RScalar v) = Ok (<[k := v]> a).
Proof.
  intros Hi. unfold np_setitem, resolve. by rewrite Hi.
Qed.

Lemma content_take_plain_one (dt : dtype) (data : list Z) (i : Z) (k : nat) (x : Z) :
  norm_index (length data) i = Some k -> data !! k = Some x ->
  content_take (Plain (mk_ndarray dt data)) (One i) = Ok (VScalar x).
Proof.
  intros Hk Hx. unfold content_take, ndarray_take, np_take. simpl.
  by rewrite (np_getitem_norm _ _ _ _ Hk Hx).
Qed.

Lemma content_put_plain_one (dt : dtype) (data : list Z) (i : Z) (k : nat) (v : Z) :
  norm_index (length data) i = Some k ->
  content_put (Plain (mk_ndarray dt data)) (One i) (RScalar v) =
    Ok (Plain (mk_ndarray dt (<[k := wrap dt v]> data))).
Proof.
  intros Hk. unfold content_put, ndarray_put, np_put. simpl.
  by rewrite (np_setitem_norm _ _ _ _ Hk).
Qed.

(** ** IndexedArray *)

(** The read of a position, as the content read it comes down to. *)
Lemma IndexedArray_getitem_int (self : IndexedArray.t) (p : nat) (i : Z) :
  IndexedArray._index self !! p = Some i ->
  IndexedArray.__getitem__ self (KSel (SInt (Z.of_nat p))) =
    (v ← content_take (IndexedArray._content self) (One i);
     Ok (IndexedArray.Value v)).
Proof.
  intros Hp. unfold IndexedArray.__getitem__, np_index.
  by rewrite (np_getitem_nat _ _ _ Hp).
Qed.

Lemma IndexedArray_getitem_plain (self : IndexedArray.t) (p : nat) (i : Z)
    (dt : dtype) (data : list Z) (k : nat) (x : Z) :
  IndexedArray._index self !! p = Some i ->
  IndexedArray._content self = Plain (mk_ndarray dt data) ->
  norm_index (length data) i = Some k -> data !! k = Some x ->
  IndexedArray.__getitem__ self (KSel (SInt (Z.of_nat p))) =
    Ok (IndexedArray.Value (VScalar x)).
Proof.
  intros Hp Hc Hk Hx.
  rewrite (IndexedArray_getitem_int _ _ _ Hp), Hc.
  by rewrite (content_take_plain_one _ _ _ _ _ Hk Hx).
Qed.

(** C5: reading position [p] of an IndexedArray returns [Content[Index[p]]]:
    whatever indexing the content by the [p]-th index entry yields, a
    scalar [x] when that entry addresses the slot holding [x]; and for
    Index=[2,0,1], Content=[10,20,30] the three reads are 30, 10, 20. *)
Theorem C5_indexed_read :
  (forall (self : IndexedArray.t) (p : nat) (i : Z),
     IndexedArray._index self !! p = Some i ->
     IndexedArray.__getitem__ self (KSel (SInt (Z.of_nat p))) =
       (v ← content_take (IndexedArray._content self) (One i);
        Ok (IndexedArray.Value v)) /\
     (forall dt data k x,
        IndexedArray._content self = Plain (mk_ndarray dt data) ->
        norm_index (length data) i = Some k -> data !! k = Some x ->
        IndexedArray.__getitem__ self (KSel (SInt (Z.of_nat p))) =
          Ok (IndexedArray.Value (VScalar x)))) /\
  IndexedArray.__getitem__ ex_indexed (KSel (SInt 0)) = Ok (IndexedArray.Value (VScalar 30)) /\
  IndexedArray.__getitem__ ex_indexed (KSel (SInt 1)) = Ok (IndexedArray.Value (VScalar 10)) /\
  IndexedArray.__getitem__ ex_indexed (KSel (SInt 2)) = Ok (IndexedArray.Value (VScalar 20)).
Proof.
  split; [|by vm_compute].
  intros self p i Hp. split; [by apply IndexedArray_getitem_int|].
  intros dt data k x Hc Hk Hx. by eapply IndexedArray_getitem_plain.
Qed.

Lemma C5_indexed_read_witness :
  IndexedArray.__getitem__ ex_indexed (KSel (SInt (Z.of_nat 1))) =
    Ok (IndexedArray.Value (VScalar 10)).
Proof.
  exact (proj2 (proj1 C5_indexed_read ex_indexed 1%nat 0 eq_refl)
               (mk_dtype 8 true) [10; 20; 30] 0%nat 10 eq_refl eq_refl eq_refl).
Defined.

(** C9: on a writeable IndexedArray over a numeric content, writing a
    scalar the content's element type can represent to an in-range position
    succeeds, and reading that position afterwards returns the scalar. *)
Theorem C9_indexed_write_read (self : IndexedArray.t) (dt : dtype) (data : list Z)
    (p : nat) (i : Z) (k : nat) (v : Z) :
  IndexedArray._writeable self = true ->
  IndexedArray._content self = Plain (mk_ndarray dt data) ->
  IndexedArray._index self !! p = Some i ->
  norm_index (length data) i = Some k ->
  representable dt v ->
  exists self',
    IndexedArray.__setitem__ (KSel (SInt (Z.of_nat p))) (RScalar v) self = (Ok tt, self') /\
    IndexedArray.__getitem__ self' (KSel (SInt (Z.of_nat p))) =
      Ok (IndexedArray.Value (VScalar v)).
Proof.
  intros Hw Hc Hp Hk Hv.
  pose proof (norm_index_lt _ _ _ Hk) as Hlt.
  eexists. split.
  - unfold IndexedArray.__setitem__, IndexedArray.assign, np_index.
    rewrite Hw, (np_getitem_nat _ _ _ Hp), Hc. simpl.
    rewrite (content_put_plain_one _ _ _ _ _ Hk). reflexivity.
  - eapply (IndexedArray_getitem_plain _ p i); simpl; [done|reflexivity| |].
    + by rewrite length_insert.
    + rewrite Hv. by apply list_lookup_insert_eq.
Qed.

Lemma C9_indexed_write_read_witness :
  exists self',
    IndexedArray.__setitem__ (KSel (SInt (Z.of_nat 0))) (RScalar (-7)) ex_indexed =
      (Ok tt, self') /\
    IndexedArray.__getitem__ self' (KSel (SInt (Z.of_nat 0))) =
      Ok (IndexedArray.Value (VScalar (-7))).
Proof.
  apply (C9_indexed_write_read ex_indexed (mk_dtype 8 true) [10; 20; 30] 0%nat 2 2%nat (-7));
    reflexivity.
Defined.

(** ** IndexedMaskedArray: reads *)

Lemma IndexedMaskedArray_getitem_int (self : IndexedMaskedArray.t) (p : nat) (i : Z) :
  IndexedMaskedArray._index self !! p = Some i ->
  IndexedMaskedArray.__getitem__ self (KSel (SInt (Z.of_nat p))) =
    if decide (i = IndexedMaskedArray._maskedwhen self) then Ok IndexedMaskedArray.Masked
    else v ← content_take (IndexedMaskedArray._content self) (One i);
         Ok (IndexedMaskedArray.Value v).
Proof.
  intros Hp. unfold IndexedMaskedArray.__getitem__. simpl.
  rewrite (np_getitem_nat _ _ _ Hp). simpl.
  by destruct (decide (i = IndexedMaskedArray._maskedwhen self)).
Qed.

(** C7: reading an in-range position [p] of an IndexedMaskedArray returns
    the missing value exactly when [Index[p]] equals [maskedwhen], and
    [Content[Index[p]]] otherwise; for maskedwhen=-1, Index=[-1,3],
    Content=[1,2,3,4] the first read is missing and the second is 4. *)
Theorem C7_masked_read :
  (forall (self : IndexedMaskedArray.t) (p : nat) (i : Z),
     IndexedMaskedArray._index self !! p = Some i ->
     (IndexedMaskedArray.__getitem__ self (KSel (SInt (Z.of_nat p))) = Ok IndexedMaskedArray.Masked
        <-> i = IndexedMaskedArray._maskedwhen self) /\
     (i <> IndexedMaskedArray._maskedwhen self ->
        IndexedMaskedArray.__getitem__ self (KSel (SInt (Z.of_nat p))) =
          (v ← content_take (IndexedMaskedArray._content self) (One i);
           Ok (IndexedMaskedArray.Value v)))) /\
  IndexedMaskedArray.__getitem__ ex_masked (KSel (SInt 0)) = Ok IndexedMaskedArray.Masked /\
  IndexedMaskedArray.__getitem__ ex_masked (KSel (SInt 1)) =
    Ok (IndexedMaskedArray.Value (VScalar 4)).
Proof.
  split; [|by vm_compute].
  intros self p i Hp. rewrite (IndexedMaskedArray_getitem_int _ _ _ Hp).
  destruct (decide (i = IndexedMaskedArray._maskedwhen self)) as [Heq|Hne].
  - split; [done|]. intros Hne. by destruct Hne.
  - split; [|done]. split; [|done].
    destruct (content_take _ _); simpl; discriminate.
Qed.

Lemma C7_masked_read_witness :
  (IndexedMaskedArray.__getitem__ ex_masked (KSel (SInt (Z.of_nat 0))) =
     Ok IndexedMaskedArray.Masked
     <-> -1 = IndexedMaskedArray._maskedwhen ex_masked) /\
  IndexedMaskedArray.__getitem__ ex_masked (KSel (SInt (Z.of_nat 1))) =
    Ok (IndexedMaskedArray.Value (VScalar 4)).
Proof.
  split.
  - exact (proj1 (proj1 C7_masked_read ex_masked 0%nat (-1) eq_refl)).
  - apply (proj2 (proj1 C7_masked_read ex_masked 1%nat 3 eq_refl)). discriminate.
Defined.

(** ** UnionArray *)

Lemma elem_of_insert_unique (z x : Z) (l : list Z) :
  z ∈ insert_unique x l <-> z = x \/ z ∈ l.
Proof.
  induction l as [|y l IH]; simpl.
  - rewrite list_elem_of_singleton, elem_of_nil. tauto.
  - destruct (x <? y) eqn:Hlt; [by rewrite elem_of_cons|].
    destruct (x =? y) eqn:Heq.
    + apply Z.eqb_eq in Heq. subst. rewrite elem_of_cons. tauto.
    + rewrite !elem_of_cons, IH. tauto.
Qed.

Lemma elem_of_np_unique (z : Z) (l : list Z) : z ∈ np_unique l <-> z ∈ l.
Proof.
  induction l as [|x l IH]; simpl; [done|].
  rewrite elem_of_insert_unique, IH, elem_of_cons. tauto.
Qed.

(** One distinct value [v] and nothing else. *)
Lemma np_unique_single (l : list Z) (v : Z) :
  l <> [] -> (forall x, x ∈ l -> x = v) -> np_unique l = [v].
Proof.
  induction l as [|x l IH]; [done|]. intros _ Hall. simpl.
  assert (x = v) as -> by (apply Hall; apply elem_of_cons; by left).
  destruct l as [|y l]; [done|].
  rewrite IH; [|done|intros z Hz; apply Hall; apply elem_of_cons; by right].
  simpl. by rewrite Z.ltb_irrefl, Z.eqb_refl.
Qed.

Lemma np_unique_single_inv (l : list Z) (v : Z) :
  np_unique l = [v] -> l <> [] /\ forall x, x ∈ l -> x = v.
Proof.
  intros Hu. split.
  - intros ->. discriminate.
  - intros x Hx. apply elem_of_np_unique in Hx. rewrite Hu in Hx.
    by apply list_elem_of_singleton in Hx.
Qed.

Lemma traverse_length {A B} (f : A -> result B) (l : list A) (ys : list B) :
  traverse f l = Ok ys -> length ys = length l.
Proof.
  revert ys. induction l as [|x l IH]; simpl; intros ys.
  - by intros [= <-].
  - destruct (f x); simpl; [|done].
    destruct (traverse f l); simpl; [|done].
    intros [= <-]. simpl. f_equal. by apply IH.
Qed.

Lemma np_getitem_many_inv {A} (a : list A) (s : selector) (xs : list A) :
  np_getitem a s = Ok (Many xs) ->
  exists ps, resolve (length a) s = Ok ps /\ gather a ps = Ok xs.
Proof.
  unfold np_getitem. destruct (resolve (length a) s) as [ps|]; simpl; [|done].
  destruct (gather a ps) as [ys|] eqn:Hg; simpl; [|done].
  intros Hm. exists ps. split; [done|].
  destruct s; try (by injection Hm as ->).
  by destruct ys.
Qed.

(** Two arrays of one length indexed alike yield arrays of one length. *)
Lemma np_getitem_many_length {A B} (a : list A) (b : list B) (s : selector)
    (xs : list A) (ys : list B) :
  length a = length b ->
  np_getitem a s = Ok (Many xs) -> np_getitem b s = Ok (Many ys) ->
  length xs = length ys.
Proof.
  intros Hlen Ha Hb.
  destruct (np_getitem_many_inv _ _ _ Ha) as (ps & Hps & Hg).
  destruct (np_getitem_many_inv _ _ _ Hb) as (qs & Hqs & Hg').
  rewrite Hlen, Hqs in Hps. injection Hps as ->.
  apply traverse_length in Hg, Hg'. congruence.
Qed.

Lemma UnionArray_getitem_checked (self : UnionArray.t) (head : selector)
    (tags index : picked Z) :
  shape (UnionArray._tags self) = shape (UnionArray._index self) ->
  np_getitem (UnionArray._tags self) head = Ok tags ->
  np_getitem (UnionArray._index self) head = Ok index ->
  UnionArray.picked_shape tags = UnionArray.picked_shape index ->
  UnionArray.__getitem__ self (KSel head) =
    match np_unique (UnionArray.picked_list tags) with
    | [u] =>
        '(_, c) ← UnionArray.content_at self u;
        v ← content_take c index;
        Ok (UnionArray.Value v)
    | _ =>
        Ok (UnionArray.View
              (UnionArray.mk (UnionArray.picked_list tags) (UnionArray.picked_list index)
                 (UnionArray._contents self) (UnionArray._writeable self)))
    end.
Proof.
  intros Hsh Ht Hi Hps. unfold UnionArray.__getitem__.
  rewrite (bool_decide_eq_true_2 _ Hsh). simpl. rewrite Ht. simpl. rewrite Hi. simpl.
  rewrite (bool_decide_eq_true_2 _ Hps). simpl.
  destruct (np_unique (UnionArray.picked_list tags)) as [|u [|u' us]]; try done.
Qed.

(** C6: with matching tag and index shapes, reading position [p] of a
    UnionArray returns [Contents[Tag[p]][Index[p]]]; a multi-position
    selection slices tags and index together and returns
    [Contents[v][index_slice]] when the sliced tags hold exactly one
    distinct value [v], a new UnionArray over the sliced tags and index and
    the full contents otherwise; for Tag=[0,1,0], Index=[0,0,1],
    Contents=([5,6],[7]) the three reads are 5, 7, 6. *)
Theorem C6_union_read :
  (forall (self : UnionArray.t) (p : nat) (tg i : Z),
     shape (UnionArray._tags self) = shape (UnionArray._index self) ->
     UnionArray._tags self !! p = Some tg ->
     UnionArray._index self !! p = Some i ->
     UnionArray.__getitem__ self (KSel (SInt (Z.of_nat p))) =
       ('(_, c) ← UnionArray.content_at self tg;
        v ← content_take c (One i);
        Ok (UnionArray.Value v))) /\
  (forall (self : UnionArray.t) (head : selector) (ts ix : list Z),
     shape (UnionArray._tags self) = shape (UnionArray._index self) ->
     np_getitem (UnionArray._tags self) head = Ok (Many ts) ->
     np_getitem (UnionArray._index self) head = Ok (Many ix) ->
     (forall v, ts <> [] -> (forall x, x ∈ ts -> x = v) ->
        UnionArray.__getitem__ self (KSel head) =
          ('(_, c) ← UnionArray.content_at self v;
           r ← content_take c (Many ix);
           Ok (UnionArray.Value r))) /\
     ((forall v, ~ (ts <> [] /\ forall x, x ∈ ts -> x = v)) ->
        UnionArray.__getitem__ self (KSel head) =
          Ok (UnionArray.View
                (UnionArray.mk ts ix (UnionArray._contents self)
                   (UnionArray._writeable self))))) /\
  UnionArray.__getitem__ ex_union (KSel (SInt 0)) = Ok (UnionArray.Value (VScalar 5)) /\
  UnionArray.__getitem__ ex_union (KSel (SInt 1)) = Ok (UnionArray.Value (VScalar 7)) /\
  UnionArray.__getitem__ ex_union (KSel (SInt 2)) = Ok (UnionArray.Value (VScalar 6)).
Proof.
  split; [|split; [|by vm_compute]].
  - intros self p tg i Hsh Ht Hi.
    by rewrite (UnionArray_getitem_checked self _ (One tg) (One i) Hsh
                  (np_getitem_nat _ _ _ Ht) (np_getitem_nat _ _ _ Hi) eq_refl).
  - intros self head ts ix Hsh Ht Hi.
    assert (UnionArray.picked_shape (Many ts) = UnionArray.picked_shape (Many ix)) as Hps.
    { simpl. unfold shape. f_equal.
      eapply np_getitem_many_length; [|exact Ht|exact Hi].
      unfold shape in Hsh. congruence. }
    rewrite (UnionArray_getitem_checked self _ _ _ Hsh Ht Hi Hps). simpl.
    split.
    + intros v Hne Hall. by rewrite (np_unique_single _ _ Hne Hall).
    + intros Hnot.
      destruct (np_unique ts) as [|u [|u' us]] eqn:Hu; try done.
      destruct (Hnot u). by apply np_unique_single_inv.
Qed.

Lemma C6_union_read_witness :
  UnionArray.__getitem__ ex_union (KSel (SInt (Z.of_nat 2))) = Ok (UnionArray.Value (VScalar 6)) /\
  UnionArray.__getitem__ ex_union (KSel (SSlice None None (Some 2))) =
    Ok (UnionArray.Value (VArray (Plain (mk_ndarray (mk_dtype 8 true) [5; 6])))) /\
  UnionArray.__getitem__ ex_union (KSel (SSlice None (Some 2) None)) =
    Ok (UnionArray.View (UnionArray.mk [0; 1] [0; 0] (UnionArray._contents ex_union) true)).
Proof.
  split; [|split].
  - exact (proj1 C6_union_read ex_union 2%nat 0 1 eq_refl eq_refl eq_refl).
  - refine (proj1 (proj1 (proj2 C6_union_read) ex_union (SSlice None None (Some 2))
                     [0; 0] [0; 1] eq_refl eq_refl eq_refl) 0 _ _).
    + discriminate.
    + intros x Hx. apply elem_of_cons in Hx as [->|Hx]; [reflexivity|].
      apply elem_of_cons in Hx as [->|Hx]; [reflexivity|].
      by apply elem_of_nil in Hx.
  - refine (proj2 (proj1 (proj2 C6_union_read) ex_union (SSlice None (Some 2) None)
                     [0; 1] [0; 0] eq_refl eq_refl eq_refl) _).
    intros v [_ Hall].
    pose proof (Hall 0 ltac:(apply elem_of_cons; by left)) as H0.
    pose proof (Hall 1 ltac:(apply elem_of_cons; right; apply elem_of_cons; by left)) as H1.
    rewrite <- H0 in H1. discriminate.
Defined.

(** C4, as stated, fails: with tags of shape (2,) and index of shape (3,),
    a write to a read-only view raises the read-only error, and a read by
    column name raises a NameError; neither reports the shape mismatch. *)
Lemma C4_counterexample :
  shape (UnionArray._tags (ex_union_mismatch false)) <>
    shape (UnionArray._index (ex_union_mismatch false)) /\
  UnionArray.__setitem__ (KSel (SInt 0)) (PScalar 9) (ex_union_mismatch false) =
    (Err (ValueError "assignment destination is read-only"), ex_union_mismatch false) /\
  UnionArray.__getitem__ (ex_union_mismatch true) (KStr "x") = Err (NameError "writeable").
Proof. by vm_compute. Qed.

(** C4, amended: when tags and index differ in shape, every positional
    read raises the error reporting the two shapes, and so does every
    positional write to a writeable view; a positional write to a
    read-only view raises the read-only error first; the view, its tags
    and index included, is left as it was. *)
Theorem C4_union_shape_mismatch (self : UnionArray.t) (where_ : pykey) :
  shape (UnionArray._tags self) <> shape (UnionArray._index self) ->
  (forall name, where_ <> KStr name) ->
  UnionArray.__getitem__ self where_ =
    Err (ShapeMismatch (shape (UnionArray._tags self)) (shape (UnionArray._index self))) /\
  forall what,
    UnionArray.__setitem__ where_ what self =
      (Err (if UnionArray._writeable self
            then ShapeMismatch (shape (UnionArray._tags self)) (shape (UnionArray._index self))
            else read_only),
       self).
Proof.
  intros Hsh Hpos. split.
  - unfold UnionArray.__getitem__.
    destruct where_ as [name| |]; [by destruct (Hpos name)| |];
      by rewrite (bool_decide_eq_false_2 _ Hsh).
  - intros what. unfold UnionArray.__setitem__.
    destruct where_ as [name| |]; [by destruct (Hpos name)| |];
      unfold act_bind, act_get, act_raise;
      destruct (UnionArray._writeable self); simpl; try done;
      by rewrite (bool_decide_eq_false_2 _ Hsh).
Qed.

Lemma C4_union_shape_mismatch_witness :
  UnionArray.__getitem__ (ex_union_mismatch true) (KSel (SInt 0)) =
    Err (ShapeMismatch [2%nat] [3%nat]) /\
  forall what,
    UnionArray.__setitem__ (KSel (SInt 0)) what (ex_union_mismatch true) =
      (Err (ShapeMismatch [2%nat] [3%nat]), ex_union_mismatch true).
Proof.
  apply (C4_union_shape_mismatch (ex_union_mismatch true) (KSel (SInt 0))).
  - discriminate.
  - discriminate.
Defined.

(** C10, as stated, fails: on a UnionArray whose contents are plain numeric
    arrays a read by column name raises the IndexError of the column
    lookup, which is evaluated before the unbound name, and an IndexError
    is no NameError. *)
Lemma C10_counterexample :
  UnionArray.__getitem__ ex_union (KStr "x") = Err IndexError /\
  UnionArray.__setitem__ (KStr "x") (PScalar 9) ex_union = (Err IndexError, ex_union) /\
  is_NameError IndexError = false.
Proof. by vm_compute. Qed.

(** C10, amended: access by column name never succeeds and changes
    nothing.  On a UnionArray, reading and writing raise the same
    exception: the NameError for [writeable] when every content array
    yields the named column, and otherwise the exception of the first
    column lookup that fails.  On an IndexedMaskedArray, writing raises the
    UnboundLocalError (a NameError) for [head], whatever the writeable
    flag and the columns. *)
Theorem C10_column_access_raises :
  (forall (self : UnionArray.t) (name : string) (what : plain_operand),
     exists e,
       UnionArray.__getitem__ self (KStr name) = Err e /\
       UnionArray.__setitem__ (KStr name) what self = (Err e, self) /\
       (is_Ok (UnionArray.project self name) = true -> e = NameError "writeable") /\
       (forall e', UnionArray.project self name = Err e' -> e = e')) /\
  (forall (self : IndexedMaskedArray.t) (name : string) (what : operand),
     IndexedMaskedArray.__setitem__ (KStr name) what self =
       (Err (UnboundLocalError "head"), self)) /\
  is_NameError (NameError "writeable") = true /\
  is_NameError (UnboundLocalError "head") = true.
Proof.
  split; [|by split].
  intros self name what.
  unfold UnionArray.__getitem__, UnionArray.__setitem__, act_bind, act_get, act_lift, act_raise.
  destruct (UnionArray.project self name) as [cs|e0]; simpl.
  - exists (NameError "writeable"). by repeat split.
  - exists e0. repeat split; [done|]. by intros e' [= ->].
Qed.

Lemma C10_column_access_raises_witness :
  UnionArray.__getitem__ (ex_union_mismatch true) (KStr "x") = Err (NameError "writeable") /\
  UnionArray.__setitem__ (KStr "x") (PScalar 9) (ex_union_mismatch true) =
    (Err (NameError "writeable"), ex_union_mismatch true).
Proof.
  destruct (proj1 C10_column_access_raises (ex_union_mismatch true) "x"%string (PScalar 9))
    as (e & Hget & Hset & Hname & _).
  rewrite <- (Hname eq_refl). by split.
Defined.

(** ** VirtualArray *)

Section VirtualArrayFacts.
Context {C : Type} `{Cache C}.
Implicit Types self : VirtualArray.t C.

(** [materialize] calls the generator once, whatever comes of it. *)
Lemma materialize_calls self :
  VirtualArray.calls (snd (VirtualArray.materialize self)) = S (VirtualArray.calls self).
Proof.
  unfold VirtualArray.materialize, VirtualArray.generate, act_bind, act_get, act_lift,
    act_put, act_ret, VirtualArray.on_cache.
  destruct (VirtualArray._generator self (VirtualArray.calls self)) as [a|e]; simpl; [|done].
  destruct (VirtualArray.validate _ a); simpl; [|done].
  destruct (VirtualArray._cache self) as [c|]; simpl; [|done].
  by destruct (cache_setitem _ a c) as [[] c'].
Qed.

(** What [materialize] returns when the generator's output passes the
    checks and the cache, if any, accepts the array. *)
Lemma materialize_ok self (a : anyarray) :
  VirtualArray._generator self (VirtualArray.calls self) = Ok a ->
  VirtualArray.validate self a = Ok tt ->
  match VirtualArray._cache self with
  | None =>
      VirtualArray.materialize self =
        (Ok a, VirtualArray.set_array (VirtualArray.Held a)
                 (VirtualArray.set_calls (S (VirtualArray.calls self)) self))
  | Some c =>
      forall c', cache_setitem (VirtualArray.key_of self) a c = (Ok tt, c') ->
      VirtualArray.materialize self =
        (Ok a, VirtualArray.set_cache (Some c')
                 (VirtualArray.set_array (VirtualArray.HeldKey (VirtualArray.key_of self))
                    (VirtualArray.set_calls (S (VirtualArray.calls self)) self)))
  end.
Proof.
  intros Hg Hv.
  unfold VirtualArray.materialize, VirtualArray.generate, act_bind, act_get, act_lift,
    act_put, act_ret, VirtualArray.on_cache.
  rewrite Hg. simpl.
  assert (VirtualArray.validate (VirtualArray.set_calls (S (VirtualArray.calls self)) self) a
          = Ok tt) as -> by exact Hv.
  simpl. destruct (VirtualArray._cache self) as [c|]; [|done].
  intros c' Hset. unfold VirtualArray.key_of in *. simpl. by rewrite Hset.
Qed.

(** C3: when a VirtualArray attached to a cache holds a key and the lookup
    of that key raises, whatever the exception, [array] goes on exactly as
    [materialize] does from the state the lookup left: the generator is
    called once more, the exception of the lookup is dropped, and the
    array is returned whenever the generator's output passes the checks
    and the cache takes it. *)
Theorem C3_lookup_failure_rematerializes self (c c' : C) (k : key) (e : exn) :
  VirtualArray._cache self = Some c ->
  VirtualArray._array self = VirtualArray.HeldKey k ->
  cache_getitem k c = (Err e, c') ->
  VirtualArray.array self =
    VirtualArray.materialize (VirtualArray.set_cache (Some c') self) /\
  VirtualArray.calls (snd (VirtualArray.array self)) = S (VirtualArray.calls self) /\
  forall (a : anyarray) (c'' : C),
    VirtualArray._generator self (VirtualArray.calls self) = Ok a ->
    VirtualArray.validate self a = Ok tt ->
    cache_setitem (VirtualArray.key_of self) a c' = (Ok tt, c'') ->
    fst (VirtualArray.array self) = Ok a.
Proof.
  intros Hc Hk Hget.
  assert (VirtualArray.array self =
          VirtualArray.materialize (VirtualArray.set_cache (Some c') self)) as Heq.
  { unfold VirtualArray.array, act_bind, act_get. simpl. rewrite Hk, Hc.
    unfold VirtualArray.on_cache. by rewrite Hget. }
  split; [done|]. rewrite Heq. split; [by rewrite materialize_calls|].
  intros a c'' Hg Hv Hset.
  pose proof (materialize_ok (VirtualArray.set_cache (Some c') self) a Hg Hv) as Hm.
  simpl in Hm. by rewrite (Hm c'' Hset).
Qed.

End VirtualArrayFacts.

Lemma C3_lookup_failure_rematerializes_witness :
  VirtualArray.array ex_evicted =
    VirtualArray.materialize (VirtualArray.set_cache (Some ∅) ex_evicted) /\
  VirtualArray.calls (snd (VirtualArray.array ex_evicted)) = 2%nat /\
  fst (VirtualArray.array ex_evicted) = Ok (ex_array 1).
Proof.
  assert (cache_getitem (PersistentKey "col") (∅ : gmap key anyarray) = (Err KeyError, ∅))
    as Hmiss by reflexivity.
  destruct (C3_lookup_failure_rematerializes ex_evicted ∅ ∅ (PersistentKey "col") KeyError
              eq_refl eq_refl Hmiss) as (Heq & Hcalls & Hret).
  split; [exact Heq|]. split; [exact Hcalls|].
  apply (Hret (ex_array 1) (<[PersistentKey "col" := ex_array 1]> ∅)); reflexivity.
Defined.

(** A read while the held array, or the cache entry under the held key, is
    there returns it and changes nothing: the generator is not called. *)
Lemma array_present (s : VirtualArray.t (gmap key anyarray)) (a : anyarray) :
  (VirtualArray._cache s = None /\ VirtualArray._array s = VirtualArray.Held a) \/
  (exists c k, VirtualArray._cache s = Some c /\
               VirtualArray._array s = VirtualArray.HeldKey k /\ c !! k = Some a) ->
  VirtualArray.array s = (Ok a, s).
Proof.
  destruct s as [g n c pk arr dt sh i]. simpl.
  intros [[-> ->]|(c0 & k & -> & -> & Hk)]; [done|].
  unfold VirtualArray.array, act_bind, act_get, VirtualArray.on_cache. simpl.
  by rewrite Hk.
Qed.

(** A read of a view that holds nothing materializes. *)
Lemma array_nothing (s : VirtualArray.t (gmap key anyarray)) :
  VirtualArray._array s = VirtualArray.Nothing ->
  VirtualArray.array s = VirtualArray.materialize s.
Proof.
  intros Hn. unfold VirtualArray.array, act_bind, act_get. simpl. by rewrite Hn.
Qed.

(** A read of a view whose key is gone from the cache materializes. *)
Lemma array_evicted (s : VirtualArray.t (gmap key anyarray)) (c : gmap key anyarray)
    (k : key) :
  VirtualArray._cache s = Some c ->
  VirtualArray._array s = VirtualArray.HeldKey k ->
  c !! k = None ->
  VirtualArray.array s = VirtualArray.materialize s.
Proof.
  destruct s as [g n c0 pk arr dt sh i]. simpl. intros -> -> Hk.
  unfold VirtualArray.array, act_bind, act_get, VirtualArray.on_cache. simpl.
  by rewrite Hk.
Qed.

(** C8: a VirtualArray that holds nothing and whose generator's output
    passes the checks calls the generator exactly once on the first access
    of [array] and is materialized afterwards; further accesses, while the
    held array or the cache entry is there, return the same array and call
    nothing; once the cache entry is gone from the attached cache, the next
    access calls the generator exactly once more and further accesses again
    call nothing.  In any state, an access while the held array or the
    cache entry under the held key is there returns it and leaves the
    state, the count of generator calls included, as it was. *)
Theorem C8_generator_calls :
  (forall (self : VirtualArray.t (gmap key anyarray)) (a0 : anyarray),
     VirtualArray._array self = VirtualArray.Nothing ->
     VirtualArray._generator self (VirtualArray.calls self) = Ok a0 ->
     VirtualArray.validate self a0 = Ok tt ->
     exists s1,
       VirtualArray.array self = (Ok a0, s1) /\
       VirtualArray.calls s1 = S (VirtualArray.calls self) /\
       VirtualArray.ismaterialized s1 = Ok true /\
       VirtualArray._array s1 <> VirtualArray.Nothing /\
       VirtualArray.array s1 = (Ok a0, s1) /\
       forall (c1 c2 : gmap key anyarray) (a1 : anyarray),
         VirtualArray._cache s1 = Some c1 ->
         c2 !! VirtualArray.key_of self = None ->
         VirtualArray._generator self (S (VirtualArray.calls self)) = Ok a1 ->
         VirtualArray.validate self a1 = Ok tt ->
         exists s2,
           VirtualArray.array (VirtualArray.set_cache (Some c2) s1) = (Ok a1, s2) /\
           VirtualArray.calls s2 = S (S (VirtualArray.calls self)) /\
           VirtualArray.array s2 = (Ok a1, s2)) /\
  (forall (s : VirtualArray.t (gmap key anyarray)) (a : anyarray),
     (VirtualArray._cache s = None /\ VirtualArray._array s = VirtualArray.Held a) \/
     (exists c k, VirtualArray._cache s = Some c /\
                  VirtualArray._array s = VirtualArray.HeldKey k /\ c !! k = Some a) ->
     VirtualArray.array s = (Ok a, s)).
Proof.
  split; [|exact array_present].
  intros self a0 Hnone Hg Hv. rewrite (array_nothing _ Hnone).
  pose proof (materialize_ok self a0 Hg Hv) as Hm.
  destruct (VirtualArray._cache self) as [c|] eqn:Hc.
  - specialize (Hm _ eq_refl). eexists. split; [exact Hm|]. simpl.
    split; [done|]. split.
    { unfold VirtualArray.ismaterialized. simpl. f_equal.
      apply bool_decide_eq_true_2. rewrite lookup_insert_eq. by eexists. }
    split; [done|]. split.
    { apply array_present. right. eexists _, _. split; [done|]. split; [done|].
      by rewrite lookup_insert_eq. }
    intros c1 c2 a1 _ Hgone Hg1 Hv1.
    erewrite array_evicted; [|done|done|exact Hgone].
    pose proof (materialize_ok
                  (VirtualArray.set_cache (Some c2)
                     (VirtualArray.set_cache (Some (<[VirtualArray.key_of self := a0]> c))
                        (VirtualArray.set_array
                           (VirtualArray.HeldKey (VirtualArray.key_of self))
                           (VirtualArray.set_calls (S (VirtualArray.calls self)) self))))
                  a1 Hg1 Hv1 _ eq_refl) as Hm2.
    eexists. split; [exact Hm2|]. split; [done|].
    apply array_present. right. eexists _, _. split; [done|]. split; [done|].
    by rewrite lookup_insert_eq.
  - eexists. split; [exact Hm|]. simpl.
    split; [done|]. split; [by unfold VirtualArray.ismaterialized; simpl; rewrite Hc|].
    split; [done|]. split.
    { apply array_present. by left. }
    intros c1 c2 a1 Hc1. simpl in Hc1. congruence.
Qed.

Lemma C8_generator_calls_witness :
  exists s1,
    VirtualArray.array (ex_lazy (Some ∅)) = (Ok (ex_array 0), s1) /\
    VirtualArray.calls s1 = 1%nat /\
    VirtualArray.array s1 = (Ok (ex_array 0), s1) /\
    exists s2,
      VirtualArray.array (VirtualArray.set_cache (Some ∅) s1) = (Ok (ex_array 1), s2) /\
      VirtualArray.calls s2 = 2%nat.
Proof.
  destruct (proj1 C8_generator_calls (ex_lazy (Some ∅)) (ex_array 0) eq_refl eq_refl eq_refl)
    as (s1 & Hfirst & Hcalls & _ & _ & Hagain & Hevict).
  exists s1. split; [exact Hfirst|]. split; [exact Hcalls|]. split; [exact Hagain|].
  assert (VirtualArray._cache s1 = Some (<[TransientKey 42 := ex_array 0]> ∅)) as Hc1.
  { assert (s1 = snd (VirtualArray.array (ex_lazy (Some ∅)))) as -> by (by rewrite Hfirst).
    reflexivity. }
  assert ((∅ : gmap key anyarray) !! VirtualArray.key_of (ex_lazy (Some ∅)) = None)
    as Hgone by reflexivity.
  destruct (Hevict _ ∅ (ex_array 1) Hc1 Hgone eq_refl eq_refl) as (s2 & Hread & Hcalls2 & _).
  exists s2. by split.
Defined.

(** ** IndexedMaskedArray: the markerless write *)

Lemma gather_mask {A} (pre xs : list A) (mask : list bool) :
  length mask = length xs ->
  gather (pre ++ xs)
         (map fst (filter (fun p => snd p = true) (zip (seq (length pre) (length xs)) mask))) =
    Ok (map fst (filter (fun p => snd p = true) (zip xs mask))).
Proof.
  revert pre mask. induction xs as [|x xs IH]; intros pre [|b mask] Hlen; try done.
  simpl in Hlen. injection Hlen as Hlen. simpl.
  assert (gather (pre ++ x :: xs)
            (map fst (filter (fun p => snd p = true)
                        (zip (seq (S (length pre)) (length xs)) mask))) =
          Ok (map fst (filter (fun p => snd p = true) (zip xs mask)))) as Hrest.
  { specialize (IH (pre ++ [x]) mask Hlen).
    rewrite <- app_assoc, length_app in IH. simpl in IH.
    by rewrite Nat.add_1_r in IH. }
  destruct b.
  - rewrite !filter_cons_True by done. simpl. unfold gather in *. simpl.
    rewrite lookup_app_r by lia. rewrite Nat.sub_diag. simpl.
    by rewrite Hrest.
  - rewrite !filter_cons_False by (simpl; congruence). exact Hrest.
Qed.

(** Indexing by a boolean array keeps the entries whose bit is set; a mask
    of another length is refused. *)
Lemma select_filter {A} (xs : list A) (mask : list bool) :
  length mask = length xs ->
  select xs mask = Ok (map fst (filter (fun p => snd p = true) (zip xs mask))).
Proof.
  intros Hlen. unfold select, np_getitem, resolve.
  rewrite decide_True by done. simpl.
  pose proof (gather_mask [] xs mask Hlen) as Hg. simpl in Hg. by rewrite Hg.
Qed.

Lemma select_mismatch {A} (xs : list A) (mask : list bool) :
  length mask <> length xs -> select xs mask = Err IndexError.
Proof.
  intros Hlen. unfold select, np_getitem, resolve. by rewrite decide_False.
Qed.

Lemma select_unmasked (M : Z) (ix : list Z) :
  select ix (map (fun i => negb (bool_decide (i = M))) ix) = Ok (unmasked M ix).
Proof.
  rewrite select_filter by by rewrite length_map. f_equal. unfold unmasked.
  induction ix as [|i ix IH]; [done|]. simpl.
  destruct (decide (i = M)) as [->|Hne].
  - rewrite bool_decide_eq_true_2 by done. simpl.
    rewrite filter_cons_False by (simpl; congruence).
    rewrite filter_cons_False by (intros Hc; by apply Hc). exact IH.
  - rewrite bool_decide_eq_false_2 by done. simpl.
    rewrite !filter_cons_True by done. simpl. by rewrite IH.
Qed.

Lemma select_unmasked_values (M : Z) (ix xs : list Z) :
  length xs = length ix ->
  select xs (map (fun i => negb (bool_decide (i = M))) ix) = Ok (unmasked_values M ix xs).
Proof.
  intros Hlen. rewrite select_filter by by rewrite length_map. f_equal.
  unfold unmasked_values.
  revert xs Hlen. induction ix as [|i ix IH]; intros [|x xs] Hlen; try done.
  simpl in Hlen. injection Hlen as Hlen. simpl.
  destruct (decide (i = M)) as [->|Hne].
  - rewrite bool_decide_eq_true_2 by done. simpl.
    rewrite filter_cons_False by (simpl; congruence).
    rewrite filter_cons_False by (simpl; intros Hc; by apply Hc). by apply IH.
  - rewrite bool_decide_eq_false_2 by done. simpl.
    rewrite !filter_cons_True by done. simpl. by rewrite IH.
Qed.

Lemma unmasked_all_masked (M : Z) (ix xs : list Z) :
  Forall (fun i => i = M) ix -> unmasked M ix = [] /\ unmasked_values M ix xs = [].
Proof.
  unfold unmasked, unmasked_values. intros Hall. split.
  - induction Hall as [|i ix -> _ IH]; [done|].
    by rewrite filter_cons_False by (intros Hc; by apply Hc).
  - revert xs. induction Hall as [|i ix -> _ IH]; intros [|x xs]; try done.
    simpl. by rewrite filter_cons_False by (simpl; intros Hc; by apply Hc).
Qed.

(** A writeable view takes a plain array of a length other than one to the
    last markerless branch. *)
Lemma IndexedMaskedArray_setitem_array (self : IndexedMaskedArray.t) (where_ : pykey)
    (head : selector) (tail : list selector) (xs : list Z) :
  IndexedMaskedArray._writeable self = true ->
  length xs <> 1%nat ->
  head_tail where_ = Ok (head, tail) ->
  IndexedMaskedArray.__setitem__ where_ (OArray xs) self =
    IndexedMaskedArray.store_unmasked head tail xs self.
Proof.
  intros Hw Hlen Hht. unfold IndexedMaskedArray.__setitem__.
  destruct where_ as [name|s|[|s t]]; try done;
    injection Hht as <- <-;
    unfold act_bind at 1; unfold act_get at 1; rewrite Hw; simpl;
    unfold act_bind at 1; unfold act_lift at 1; simpl;
    (rewrite decide_False; [done|congruence]).
Qed.

(** With the selection [ix = self._index[head]] an array, the branch comes
    down to one store through the unmasked entries, or to the IndexError of
    a right-hand side of another length. *)
Lemma store_unmasked_many (self : IndexedMaskedArray.t) (head : selector)
    (tail : list selector) (ix xs : list Z) :
  np_getitem (IndexedMaskedArray._index self) head = Ok (Many ix) ->
  IndexedMaskedArray.store_unmasked head tail xs self =
    if decide (length xs = length ix)
    then IndexedMaskedArray.store
           (Many (unmasked (IndexedMaskedArray._maskedwhen self) ix)) tail
           (RArray (unmasked_values (IndexedMaskedArray._maskedwhen self) ix xs)) self
    else (Err IndexError, self).
Proof.
  intros Hix. unfold IndexedMaskedArray.store_unmasked, act_bind, act_get, act_lift.
  rewrite Hix. simpl.
  destruct (decide (length xs = length ix)) as [Hlen|Hlen].
  - by rewrite (select_unmasked_values _ _ _ Hlen), select_unmasked.
  - rewrite select_mismatch; [done|]. by rewrite length_map.
Qed.

Lemma scatter_lookup_other {A} (a : list A) (ps : list nat) (vs : list A) (k : nat) :
  k ∉ ps -> scatter a ps vs !! k = a !! k.
Proof.
  unfold scatter. revert a vs.
  induction ps as [|p ps IH]; intros a vs Hk; [done|].
  destruct vs as [|v vs]; [done|]. simpl.
  apply not_elem_of_cons in Hk as [Hne Hk].
  rewrite IH by done. by apply list_lookup_insert_ne.
Qed.

Lemma traverse_elem {A B} (f : A -> result B) (l : list A) (ys : list B) (y : B) :
  traverse f l = Ok ys -> y ∈ ys -> exists x, x ∈ l /\ f x = Ok y.
Proof.
  revert ys. induction l as [|x l IH]; simpl; intros ys.
  - intros [= <-] Hy. by apply elem_of_nil in Hy.
  - destruct (f x) as [y0|] eqn:Hfx; simpl; [|done].
    destruct (traverse f l) as [ys0|]; simpl; [|done].
    intros [= <-] Hy. apply elem_of_cons in Hy as [->|Hy].
    + exists x. split; [by left|done].
    + destruct (IH ys0 eq_refl Hy) as (x' & Hx' & Hfx').
      exists x'. split; [by right|done].
Qed.

(** A store into a plain array through an integer array leaves every slot
    that none of the integers addresses as it was. *)
Lemma content_put_plain_frame (dt : dtype) (data : list Z) (idx vs : list Z)
    (c' : content) (k : nat) :
  content_put (Plain (mk_ndarray dt data)) (Many idx) (RArray vs) = Ok c' ->
  (forall i, i ∈ idx -> norm_index (length data) i <> Some k) ->
  exists data', c' = Plain (mk_ndarray dt data') /\ data' !! k = data !! k.
Proof.
  unfold content_put, ndarray_put, np_put, np_setitem, resolve. simpl.
  destruct (traverse _ idx) as [ps|] eqn:Hps; simpl; [|done].
  destruct (broadcast (length ps) (RArray (map (wrap dt) vs))) as [ws|]; simpl; [|done].
  intros [= <-] Hfree. eexists. split; [done|].
  apply scatter_lookup_other. intros Hk.
  destruct (traverse_elem _ _ _ _ Hps Hk) as (i & Hi & Hnorm).
  apply (Hfree i Hi). by destruct (norm_index (length data) i); simplify_eq/=.
Qed.

Lemma content_put_nothing (c : content) :
  content_put c (Many []) (RArray []) = Ok c.
Proof.
  destruct c as [[dt data]|cols]; [done|].
  unfold content_put.
  assert (traverse (fun nc : string * ndarray =>
                      a' ← ndarray_put nc.2 (Many []) (RArray []); Ok (nc.1, a')) cols
          = Ok cols) as ->; [|done].
  induction cols as [|[n [dt data]] cols IH]; [done|].
  cbn [traverse]. rewrite IH. reflexivity.
Qed.

Lemma elem_of_unmasked (M i : Z) (ix : list Z) :
  i ∈ unmasked M ix <-> i ∈ ix /\ i <> M.
Proof. unfold unmasked. rewrite list_elem_of_filter. tauto. Qed.

(** C2, as stated, fails: a plain array of length one is unwrapped and
    stored through every selected index entry, masked or not.  Position 0
    is masked ([Index[0] = maskedwhen = -1]) and is the only position
    selected, yet the write stores 9 into the last content slot. *)
Lemma C2_counterexample :
  IndexedMaskedArray._index ex_masked !! 0%nat =
    Some (IndexedMaskedArray._maskedwhen ex_masked) /\
  np_getitem (IndexedMaskedArray._index ex_masked) (SSlice None (Some 1) None) =
    Ok (Many [-1]) /\
  IndexedMaskedArray.__setitem__ (KSel (SSlice None (Some 1) None)) (OArray [9]) ex_masked =
    (Ok tt,
     IndexedMaskedArray.mk [-1; 3] (Plain (mk_ndarray (mk_dtype 8 true) [1; 2; 3; 9])) (-1) true).
Proof. by vm_compute. Qed.

(** C2, amended: on a writeable IndexedMaskedArray, writing a plain array
    whose length is not one to a selection of several positions is one
    store into the content, through the selected index entries other than
    [maskedwhen] and with the values standing at those places (a
    right-hand side of another length than the selection raises and
    stores nothing).  The index is not touched; a content slot that no
    selected unmasked entry addresses keeps its value; when every selected
    position is masked the view is left as it was; and every position
    whose index entry is [maskedwhen] still reads as missing. *)
Theorem C2_markerless_write_skips_masked (self : IndexedMaskedArray.t) (where_ : pykey)
    (head : selector) (tail : list selector) (ix xs : list Z) :
  IndexedMaskedArray._writeable self = true ->
  length xs <> 1%nat ->
  head_tail where_ = Ok (head, tail) ->
  np_getitem (IndexedMaskedArray._index self) head = Ok (Many ix) ->
  let M := IndexedMaskedArray._maskedwhen self in
  let r := IndexedMaskedArray.__setitem__ where_ (OArray xs) self in
  r = (if decide (length xs = length ix)
       then IndexedMaskedArray.store (Many (unmasked M ix)) tail
              (RArray (unmasked_values M ix xs)) self
       else (Err IndexError, self)) /\
  IndexedMaskedArray._index (snd r) = IndexedMaskedArray._index self /\
  (forall dt data data' k,
     IndexedMaskedArray._content self = Plain (mk_ndarray dt data) ->
     IndexedMaskedArray._content (snd r) = Plain (mk_ndarray dt data') ->
     (forall i, i ∈ ix -> i <> M -> norm_index (length data) i <> Some k) ->
     data' !! k = data !! k) /\
  (Forall (fun i => i = M) ix -> snd r = self) /\
  (forall p, IndexedMaskedArray._index self !! p = Some M ->
     IndexedMaskedArray.__getitem__ (snd r) (KSel (SInt (Z.of_nat p))) =
       Ok IndexedMaskedArray.Masked).
Proof.
  intros Hw Hlen Hht Hix M r.
  assert (r = (if decide (length xs = length ix)
               then IndexedMaskedArray.store (Many (unmasked M ix)) tail
                      (RArray (unmasked_values M ix xs)) self
               else (Err IndexError, self))) as Hr.
  { subst r. rewrite (IndexedMaskedArray_setitem_array _ _ _ _ _ Hw Hlen Hht).
    by apply store_unmasked_many. }
  split; [exact Hr|]. clearbody r. subst r.
  assert (IndexedMaskedArray._index
            (snd (if decide (length xs = length ix)
                  then IndexedMaskedArray.store (Many (unmasked M ix)) tail
                         (RArray (unmasked_values M ix xs)) self
                  else (Err IndexError, self))) = IndexedMaskedArray._index self /\
          IndexedMaskedArray._maskedwhen
            (snd (if decide (length xs = length ix)
                  then IndexedMaskedArray.store (Many (unmasked M ix)) tail
                         (RArray (unmasked_values M ix xs)) self
                  else (Err IndexError, self))) = M) as [Hindex HM].
  { destruct (decide (length xs = length ix)); [|done].
    unfold IndexedMaskedArray.store. by destruct (content_put_tail _ _ _ _). }
  split; [exact Hindex|]. split; [|split].
  - intros dt data data' k Hc Hc' Hfree.
    destruct (decide (length xs = length ix)); [|simpl in Hc'; congruence].
    unfold IndexedMaskedArray.store in Hc'. rewrite Hc in Hc'.
    destruct tail; [|simpl in Hc'; congruence]. simpl in Hc'.
    destruct (content_put _ _ _) as [c'|] eqn:Hput; [|simpl in Hc'; congruence].
    simpl in Hc'. subst c'.
    destruct (content_put_plain_frame _ _ _ _ _ k Hput) as (d & Hd & Hk).
    { intros i Hi. apply elem_of_unmasked in Hi as [Hi Hne]. by apply Hfree. }
    by injection Hd as <-.
  - intros Hall. destruct (unmasked_all_masked M ix xs Hall) as [-> ->].
    destruct (decide (length xs = length ix)); [|done].
    unfold IndexedMaskedArray.store. destruct tail; simpl; [|done].
    rewrite content_put_nothing. by destruct self.
  - intros p Hp. rewrite <- Hindex in Hp.
    rewrite (IndexedMaskedArray_getitem_int _ _ _ Hp), HM.
    by rewrite decide_True.
Qed.

Lemma C2_markerless_write_skips_masked_witness :
  IndexedMaskedArray.__setitem__ (KSel (SSlice None None None)) (OArray [8; 9]) ex_masked =
    IndexedMaskedArray.store (Many [3]) [] (RArray [9]) ex_masked /\
  IndexedMaskedArray.__getitem__
    (snd (IndexedMaskedArray.__setitem__ (KSel (SSlice None None None)) (OArray [8; 9]) ex_masked))
    (KSel (SInt (Z.of_nat 0))) = Ok IndexedMaskedArray.Masked.
Proof.
  assert (length [8; 9] <> 1%nat) as Hlen by (simpl; lia).
  destruct (C2_markerless_write_skips_masked ex_masked (KSel (SSlice None None None))
              (SSlice None None None) [] [-1; 3] [8; 9] eq_refl Hlen eq_refl eq_refl)
    as (Hr & _ & _ & _ & Hread).
  split; [exact Hr|]. exact (Hread 0%nat eq_refl).
Defined.

(** ** ByteIndexedArray: the batched read against the scalar read *)

Lemma INDEXTYPE_wrap_id (v : Z) :
  0 <= v < 2 ^ (INDEXTYPE_bits - 1) -> INDEXTYPE_wrap v = v.
Proof.
  unfold INDEXTYPE_wrap, wrap_bits, INDEXTYPE_bits. intros Hv.
  change (2 ^ (64 - 1)) with 9223372036854775808 in Hv.
  change (2 ^ 64) with 18446744073709551616.
  rewrite Z.mod_small by lia.
  change (18446744073709551616 / 2) with 9223372036854775808.
  simpl. destruct (9223372036854775808 <=? v) eqn:Hle; [lia|done].
Qed.

Lemma stride_count (K itemsz off : nat) :
  (off < itemsz)%nat -> (0 < K)%nat ->
  (Z.of_nat (K * itemsz) - Z.of_nat off - 1) / Z.of_nat itemsz + 1 = Z.of_nat K.
Proof.
  intros Hoff HK.
  assert ((Z.of_nat (K * itemsz) - Z.of_nat off - 1) / Z.of_nat itemsz = Z.of_nat K - 1)
    as ->; [|lia].
  symmetry. apply (Z.div_unique _ _ _ (Z.of_nat itemsz - Z.of_nat off - 1)).
  - left. lia.
  - rewrite Nat2Z.inj_mul. ring.
Qed.

Lemma resolve_stride (K itemsz off : nat) (start : option Z) :
  (off < itemsz)%nat -> (0 < K)%nat ->
  start = Some (Z.of_nat off) \/ (start = None /\ off = 0%nat) ->
  resolve (K * itemsz) (SSlice start None (Some (Z.of_nat itemsz))) =
    Ok (stride_slots K itemsz off).
Proof.
  intros Hoff HK Hstart.
  assert (itemsz <= K * itemsz)%nat as HKS by (destruct K; simpl; lia).
  unfold resolve, slice_indices. simpl.
  destruct (Z.of_nat itemsz =? 0) eqn:HS0; [lia|].
  destruct (Z.of_nat itemsz <? 0) eqn:HSneg; [lia|].
  assert (match start with
          | Some v => if v <? 0 then Z.max (v + Z.of_nat (K * itemsz)) 0
                      else Z.min v (Z.of_nat (K * itemsz))
          | None => 0
          end = Z.of_nat off) as ->.
  { destruct Hstart as [->|[-> ->]]; [|done].
    destruct (Z.of_nat off <? 0) eqn:Hneg; [lia|]. lia. }
  simpl. unfold py_range.
  destruct (0 <? Z.of_nat itemsz) eqn:HSpos; [|lia].
  destruct (Z.ltb_spec (Z.of_nat off) (Z.of_nat (K * itemsz))) as [Hlt|Hge]; [|lia].
  rewrite stride_count by done. rewrite Nat2Z.id.
  unfold stride_slots. rewrite map_map. f_equal.
  apply map_ext. intros j. lia.
Qed.

Lemma broadcast_exact {A} (n : nat) (vs : list A) :
  length vs = n -> broadcast n (RArray vs) = Ok vs.
Proof.
  intros Hlen. unfold broadcast.
  destruct vs as [|x [|y vs]]; simpl in *; subst; try done;
    by rewrite decide_True.
Qed.

Lemma scatter_length {A} (a : list A) (ps : list nat) (vs : list A) :
  length (scatter a ps vs) = length a.
Proof.
  unfold scatter. revert a vs.
  induction ps as [|p ps IH]; intros a vs; [done|].
  destruct vs as [|v vs]; [done|]. simpl.
  by rewrite IH, length_insert.
Qed.

(** With no slot addressed twice, each addressed slot holds its value. *)
Lemma scatter_lookup {A} (a : list A) (ps : list nat) (vs : list A)
    (j p : nat) (v : A) :
  NoDup ps -> ps !! j = Some p -> vs !! j = Some v -> (p < length a)%nat ->
  scatter a ps vs !! p = Some v.
Proof.
  revert a vs j. induction ps as [|p0 ps IH]; intros a vs j Hnd Hp Hv Hlt; [done|].
  destruct vs as [|v0 vs]; [done|].
  apply NoDup_cons in Hnd as [Hnotin Hnd].
  change (scatter a (p0 :: ps) (v0 :: vs)) with (scatter (<[p0 := v0]> a) ps vs).
  destruct j as [|j]; simpl in Hp, Hv.
  - injection Hp as ->. injection Hv as ->.
    rewrite scatter_lookup_other by done. by apply list_lookup_insert_eq.
  - apply (IH _ _ j); [done..|]. by rewrite length_insert.
Qed.

Lemma stride_slots_NoDup (K itemsz off : nat) :
  (0 < itemsz)%nat -> NoDup (stride_slots K itemsz off).
Proof.
  intros HS. unfold stride_slots. apply NoDup_fmap_2; [|apply NoDup_seq].
  intros j j' Heq. nia.
Qed.

Lemma elem_of_stride_slots (K itemsz off j k : nat) :
  (off < itemsz)%nat -> (k < itemsz)%nat ->
  (j * itemsz + k)%nat ∈ stride_slots K itemsz off -> k = off.
Proof.
  intros Hoff Hk Hin. unfold stride_slots in Hin.
  apply list_elem_of_fmap in Hin as (j' & Heq & _).
  assert (j = j') by nia. subst. lia.
Qed.

(** What a strided store leaves in the array: column [off] holds the stored
    values, the other columns are as they were. *)
Lemma scatter_stride_lookup {A} (a : list A) (K itemsz off : nat) (vs : list A)
    (j k : nat) :
  length a = (K * itemsz)%nat -> length vs = K ->
  (off < itemsz)%nat -> (j < K)%nat -> (k < itemsz)%nat ->
  scatter a (stride_slots K itemsz off) vs !! (j * itemsz + k)%nat =
    if decide (k = off) then vs !! j else a !! (j * itemsz + k)%nat.
Proof.
  intros Hla Hlv Hoff Hj Hk.
  destruct (decide (k = off)) as [->|Hne].
  - destruct (lookup_lt_is_Some_2 vs j ltac:(lia)) as [v Hv]. rewrite Hv.
    apply (scatter_lookup _ _ _ j); [apply stride_slots_NoDup; lia| |done|nia].
    unfold stride_slots. rewrite list_lookup_fmap, lookup_seq_lt by done.
    simpl. f_equal. lia.
  - apply scatter_lookup_other. intros Hin. apply Hne.
    by eapply elem_of_stride_slots.
Qed.

Lemma gather_map {A B} (a : list A) (g : B -> nat) (f : B -> A) (l : list B) :
  (forall x, x ∈ l -> a !! g x = Some (f x)) ->
  gather a (map g l) = Ok (map f l).
Proof.
  unfold gather. induction l as [|x l IH]; intros Hall; [done|].
  simpl. rewrite (Hall x) by (by left). simpl.
  rewrite IH; [done|]. intros y Hy. apply Hall. by right.
Qed.

Lemma traverse_map {A B X} (f : A -> result B) (g : X -> A) (h : X -> B) (l : list X) :
  (forall x, x ∈ l -> f (g x) = Ok (h x)) ->
  traverse f (map g l) = Ok (map h l).
Proof.
  induction l as [|x l IH]; intros Hall; [done|].
  simpl. rewrite (Hall x) by (by left). simpl.
  rewrite IH; [done|]. intros y Hy. apply Hall. by right.
Qed.

(** An array of [K * itemsz] slots known slot by slot, read as [K] rows of
    [itemsz]. *)
Lemma grid_eq {A} (cur : list A) (K itemsz : nat) (f : nat -> nat -> A) :
  (0 < itemsz)%nat -> length cur = (K * itemsz)%nat ->
  (forall j k, (j < K)%nat -> (k < itemsz)%nat -> cur !! (j * itemsz + k)%nat = Some (f j k)) ->
  cur = map (fun i => f (i / itemsz)%nat (i mod itemsz)%nat) (seq 0 (K * itemsz)).
Proof.
  intros HS Hlen Hgrid. apply list_eq. intros i.
  rewrite list_lookup_fmap.
  destruct (decide (i < K * itemsz)%nat) as [Hi|Hi].
  - rewrite lookup_seq_lt by done. simpl.
    rewrite <- (Hgrid (i / itemsz)%nat (i mod itemsz)%nat).
    + f_equal. pose proof (Nat.div_mod_eq i itemsz). lia.
    + apply Nat.Div0.div_lt_upper_bound. lia.
    + apply Nat.mod_upper_bound. lia.
  - rewrite lookup_seq_ge by lia. simpl. apply lookup_ge_None. lia.
Qed.

Lemma spread_loop (itemsz K : nat) (heads idx0 : list Z) (m : nat) :
  (0 < K)%nat -> (m < itemsz)%nat ->
  length idx0 = (K * itemsz)%nat ->
  (forall j, (j < K)%nat -> idx0 !! (j * itemsz + 0)%nat = Some (spread_entry heads j 0)) ->
  exists cur,
    foldl (fun acc offset => cur ← acc; spread_column itemsz cur offset) (Ok idx0) (seq 1 m)
      = Ok cur /\
    length cur = (K * itemsz)%nat /\
    forall j k, (j < K)%nat -> (k <= m)%nat ->
      cur !! (j * itemsz + k)%nat = Some (spread_entry heads j k).
Proof.
  intros HK Hm Hlen H0. induction m as [|m IH].
  - exists idx0. split; [done|]. split; [done|].
    intros j k Hj Hk. assert (k = 0%nat) as -> by lia. by apply H0.
  - destruct IH as (cur & Hfold & Hlcur & Hcur); [lia|].
    rewrite seq_S, foldl_app, Hfold. simpl.
    unfold spread_column, np_getitem.
    rewrite Hlcur, (resolve_stride K itemsz 0 None) by (try lia; by right).
    simpl. unfold stride_slots at 1.
    rewrite (gather_map cur (fun j => (0 + j * itemsz)%nat) (fun j => spread_entry heads j 0)).
    2:{ intros j Hj. apply elem_of_seq in Hj. simpl. rewrite <- (Nat.add_0_r (j * itemsz)).
        apply Hcur; lia. }
    simpl. unfold np_setitem.
    rewrite Hlcur, (resolve_stride K itemsz (S m) (Some (Z.of_nat (S m))))
      by (try lia; by left).
    simpl. rewrite broadcast_exact.
    2:{ unfold stride_slots. by rewrite !length_map. }
    simpl. eexists. split; [done|]. split; [by rewrite scatter_length|].
    intros j k Hj Hk.
    rewrite scatter_stride_lookup; [|done|by rewrite !length_map, length_seq|lia..].
    destruct (decide (k = S m)) as [->|Hne].
    + rewrite !list_lookup_fmap, lookup_seq_lt by done. simpl.
      unfold spread_entry. simpl. done.
    + apply Hcur; lia.
Qed.

(** The index construction, slot by slot. *)
Lemma spread_spec (idx heads : list Z) (itemsz : nat) :
  (0 < itemsz)%nat -> (0 < length heads)%nat ->
  length idx = (length heads * itemsz)%nat ->
  spread idx itemsz heads =
    Ok (map (fun i => spread_entry heads (i / itemsz)%nat (i mod itemsz)%nat)
            (seq 0 (length heads * itemsz))).
Proof.
  intros HS HK Hlen. unfold spread, np_setitem.
  rewrite Hlen, (resolve_stride (length heads) itemsz 0 None) by (try lia; by right).
  simpl. rewrite broadcast_exact.
  2:{ unfold stride_slots. by rewrite !length_map, length_seq. }
  simpl.
  destruct (spread_loop itemsz (length heads) heads
              (scatter idx (stride_slots (length heads) itemsz 0) (map INDEXTYPE_wrap heads))
              (itemsz - 1)) as (cur & -> & Hlcur & Hcur); [lia|lia| | |].
  - by rewrite scatter_length.
  - intros j Hj.
    rewrite scatter_stride_lookup; [|done|by rewrite length_map|lia..].
    rewrite decide_True by done. rewrite list_lookup_fmap.
    unfold spread_entry. rewrite decide_True by done.
    destruct (lookup_lt_is_Some_2 heads j Hj) as [h Hh]. rewrite Hh. simpl.
    do 2 f_equal. symmetry. apply nth_lookup_Some with (d := 0) in Hh. exact Hh.
  - f_equal. apply grid_eq; [done|done|].
    intros j k Hj Hk. apply Hcur; lia.
Qed.

Lemma grid_div_mod (itemsz j k : nat) :
  (k < itemsz)%nat ->
  ((j * itemsz + k) / itemsz = j /\ (j * itemsz + k) mod itemsz = k)%nat.
Proof.
  intros Hk. split.
  - rewrite Nat.div_add_l by lia. rewrite Nat.div_small by done. lia.
  - rewrite Nat.add_comm, Nat.Div0.mod_add. by apply Nat.mod_small.
Qed.

Lemma seq_grid_bounds (K itemsz i : nat) :
  (0 < itemsz)%nat -> i ∈ seq 0 (K * itemsz) ->
  (i / itemsz < K /\ i mod itemsz < itemsz)%nat.
Proof.
  intros Hsz Hi. apply elem_of_seq in Hi. split.
  - apply Nat.Div0.div_lt_upper_bound. lia.
  - apply Nat.mod_upper_bound. lia.
Qed.

(** The source byte positions: [itemsz] consecutive ones from each offset. *)
Lemma contidx_spec (starts : list Z) (itemsz n : nat) :
  (0 < itemsz)%nat -> (0 < length starts)%nat -> fits_INDEXTYPE n ->
  Forall (fun o => 0 <= o /\ o + Z.of_nat itemsz <= Z.of_nat n) starts ->
  spread (np_empty 0 (length starts * itemsz)) itemsz starts =
    Ok (map (fun i => nth (i / itemsz) starts 0 + Z.of_nat (i mod itemsz))
            (seq 0 (length starts * itemsz))).
Proof.
  intros Hsz HK Hfits Hvalid.
  rewrite spread_spec; [|done|done|by unfold np_empty; rewrite length_replicate].
  f_equal. apply map_ext_in. intros i Hi. apply list_elem_of_In in Hi.
  destruct (seq_grid_bounds _ _ _ Hsz Hi) as [Hj Hk].
  destruct (lookup_lt_is_Some_2 starts (i / itemsz) Hj) as [o Ho].
  rewrite (nth_lookup_Some _ _ 0 _ Ho).
  pose proof (Forall_lookup_1 _ _ _ _ Hvalid Ho) as [Ho0 Hon]. simpl in Ho0, Hon.
  unfold fits_INDEXTYPE in Hfits.
  unfold spread_entry. rewrite (nth_lookup_Some _ _ 0 _ Ho).
  rewrite (INDEXTYPE_wrap_id o) by lia.
  destruct (decide (i mod itemsz = 0)%nat) as [->|Hne]; [simpl; lia|].
  apply INDEXTYPE_wrap_id. lia.
Qed.

Lemma py_range_stride (K itemsz : nat) :
  (0 < itemsz)%nat -> (0 < K)%nat ->
  py_range 0 (Z.of_nat (K * itemsz)) (Z.of_nat itemsz) =
    map (fun j => Z.of_nat (j * itemsz)) (seq 0 K).
Proof.
  intros Hsz HK. unfold py_range.
  assert (itemsz <= K * itemsz)%nat as HKS by (destruct K; simpl; lia).
  destruct (Z.ltb_spec 0 (Z.of_nat itemsz)) as [_|Hc]; [|lia].
  destruct (Z.ltb_spec 0 (Z.of_nat (K * itemsz))) as [_|Hc]; [|lia].
  pose proof (stride_count K itemsz 0 Hsz HK) as Hcount.
  change (Z.of_nat 0) with 0 in Hcount.
  rewrite Hcount, Nat2Z.id. apply map_ext. intros j. lia.
Qed.

(** The destination byte positions: every slot of the scratch buffer, in
    order. *)
Lemma holdidx_spec (K itemsz : nat) :
  (0 < itemsz)%nat -> (0 < K)%nat -> fits_INDEXTYPE (K * itemsz) ->
  spread (np_empty 0 (K * itemsz)) itemsz
         (py_range 0 (Z.of_nat (K * itemsz)) (Z.of_nat itemsz)) =
    Ok (map Z.of_nat (seq 0 (K * itemsz))).
Proof.
  intros Hsz HK Hfits. rewrite py_range_stride by done.
  assert (length (map (fun j => Z.of_nat (j * itemsz)) (seq 0 K)) = K) as Hlen
    by (by rewrite length_map, length_seq).
  rewrite spread_spec; rewrite ?Hlen;
    [|done|done|by unfold np_empty; rewrite length_replicate].
  f_equal. apply map_ext_in. intros i Hi. apply list_elem_of_In in Hi.
  destruct (seq_grid_bounds _ _ _ Hsz Hi) as [Hj Hk]. apply elem_of_seq in Hi.
  unfold fits_INDEXTYPE in Hfits.
  assert ((i / itemsz) * itemsz + i mod itemsz = i)%nat as Hi'
    by (pose proof (Nat.div_mod_eq i itemsz); lia).
  unfold spread_entry.
  rewrite (nth_lookup_Some _ _ 0 (Z.of_nat (i / itemsz * itemsz))).
  2:{ by rewrite list_lookup_fmap, lookup_seq_lt. }
  rewrite (INDEXTYPE_wrap_id (Z.of_nat (i / itemsz * itemsz))) by lia.
  destruct (decide (i mod itemsz = 0)%nat) as [H0|Hne]; [lia|].
  rewrite INDEXTYPE_wrap_id by lia. lia.
Qed.

(** A store to every slot in order replaces the whole array. *)
Lemma scatter_seq_all {A} (pre a vs : list A) :
  length a = length vs ->
  scatter (pre ++ a) (seq (length pre) (length a)) vs = pre ++ vs.
Proof.
  revert pre vs. induction a as [|x a IH]; intros pre [|v vs] Hlen; try done.
  simpl in Hlen. injection Hlen as Hlen.
  change (scatter (pre ++ x :: a) (seq (length pre) (length (x :: a))) (v :: vs))
    with (scatter (<[length pre := v]> (pre ++ x :: a)) (seq (S (length pre)) (length a)) vs).
  rewrite insert_app_r_alt by done. rewrite Nat.sub_diag. simpl.
  specialize (IH (pre ++ [v]) vs Hlen).
  rewrite length_app, Nat.add_1_r, <- !app_assoc in IH. exact IH.
Qed.

Lemma map_nth_seq {A B} (F : A -> B) (l : list A) (d : A) :
  map (fun j => F (nth j l d)) (seq 0 (length l)) = map F l.
Proof.
  apply list_eq. intros j. rewrite !list_lookup_fmap.
  destruct (l !! j) as [x|] eqn:Hj.
  - rewrite lookup_seq_lt by (by eapply lookup_lt_Some). simpl.
    by rewrite (nth_lookup_Some _ _ d _ Hj).
  - rewrite lookup_seq_ge; [done|]. by apply lookup_ge_None.
Qed.

#[local] Arguments frombuffer : simpl never.
#[local] Arguments spread : simpl never.

(** The scalar path decodes the element that starts at the offset. *)
Lemma getitem_scalar_spec (self : ByteIndexedArray.t) (o : Z) :
  ByteIndexedArray._indextype self <> uint64 ->
  (0 < itemsize (ByteIndexedArray._dtype self))%nat ->
  valid_offset self o ->
  ByteIndexedArray.getitem_scalar self o = Ok (ByteIndexedArray.Scalar (read_at self o)).
Proof.
  intros Hix Hsz [Ho Hon]. unfold ByteIndexedArray.getitem_scalar, ByteIndexedArray.float_divmod.
  rewrite bool_decide_eq_false_2 by done.
  set (sz := Z.of_nat (itemsize (ByteIndexedArray._dtype self))) in *.
  assert (0 < sz) as Hszpos by lia.
  destruct (Z.eqb_spec sz 0) as [|_]; [lia|].
  pose proof (Z.mod_pos_bound o sz Hszpos) as Hmod.
  pose proof (Z.div_pos o sz Ho Hszpos) as Hdiv.
  pose proof (Z.div_mod o sz ltac:(lia)) as Hdm.
  unfold frombuffer. fold sz.
  destruct (Z.ltb_spec (o mod sz) 0) as [|_]; [lia|].
  destruct (Z.ltb_spec (Z.of_nat (length (ByteIndexedArray._content self))) (o mod sz))
    as [|_]; [lia|].
  simpl.
  destruct (Z.ltb_spec (o / sz + 1) 0) as [|_]; [lia|].
  destruct (Z.ltb_spec (Z.of_nat (length (ByteIndexedArray._content self)) - o mod sz)
              ((o / sz + 1) * sz)) as [|_]; [lia|].
  simpl.
  rewrite (np_getitem_norm _ (o / sz) (Z.to_nat (o / sz))
             (element_at (ByteIndexedArray._dtype self) (ByteIndexedArray._content self)
                (o mod sz) (Z.to_nat (o / sz)))).
  - simpl. unfold read_at, element_at. do 5 f_equal.
    apply Nat2Z.inj. rewrite Nat2Z.inj_add, Nat2Z.inj_mul, !Z2Nat.id by lia.
    fold sz. rewrite (Z.mul_comm (o / sz) sz). lia.
  - rewrite length_map, length_seq. unfold norm_index.
    destruct (Z.leb_spec 0 (o / sz)) as [_|]; [|lia].
    destruct (Z.ltb_spec (o / sz) (Z.of_nat (Z.to_nat (o / sz + 1)))) as [_|]; [|lia].
    done.
  - rewrite list_lookup_fmap, lookup_seq_lt by lia. done.
Qed.

(** The batched path decodes, for each offset in turn, the element that
    starts there. *)
Lemma getitem_batch_spec (self : ByteIndexedArray.t) (starts : list Z) :
  (0 < itemsize (ByteIndexedArray._dtype self))%nat ->
  fits_INDEXTYPE (length (ByteIndexedArray._content self)) ->
  fits_INDEXTYPE (length starts * itemsize (ByteIndexedArray._dtype self)) ->
  Forall (valid_offset self) starts ->
  ByteIndexedArray.getitem_batch self starts =
    Ok (ByteIndexedArray.Array
          (mk_ndarray (ByteIndexedArray._dtype self) (map (read_at self) starts))).
Proof.
  intros Hsz Hfn Hfk Hvalid. unfold ByteIndexedArray.getitem_batch.
  destruct (decide (length starts = 0%nat)) as [Hnil|Hne].
  { by destruct starts. }
  set (dt := ByteIndexedArray._dtype self) in *.
  set (buf := ByteIndexedArray._content self) in *.
  set (sz := itemsize dt) in *.
  rewrite (contidx_spec starts sz (length buf)); [|done|lia|done|exact Hvalid].
  rewrite holdidx_spec; [|done|lia|done].
  simpl.
  (* the gather from the buffer *)
  set (src := fun i : nat => (Z.to_nat (nth (i / sz) starts 0%Z) + i mod sz)%nat).
  set (byte_at := fun p : nat => default Byte.x00 (buf !! p)).
  assert (forall i, i ∈ seq 0 (length starts * sz) ->
            (src i < length buf)%nat /\
            nth (i / sz) starts 0 + Z.of_nat (i mod sz) = Z.of_nat (src i)) as Hsrc.
  { intros i Hi. destruct (seq_grid_bounds _ _ _ Hsz Hi) as [Hj Hk].
    destruct (lookup_lt_is_Some_2 starts (i / sz) Hj) as [o Ho].
    pose proof (Forall_lookup_1 _ _ _ _ Hvalid Ho) as [Ho0 Hon].
    subst src. simpl. rewrite (nth_lookup_Some _ _ 0 _ Ho). fold buf dt sz in Hon. lia. }
  assert (np_getitem buf
            (SFancy (map (fun i => nth (i / sz) starts 0 + Z.of_nat (i mod sz))
                         (seq 0 (length starts * sz)))) =
          Ok (Many (map (fun i => byte_at (src i)) (seq 0 (length starts * sz))))) as ->.
  { unfold np_getitem, resolve.
    rewrite (traverse_map _ _ src).
    2:{ intros i Hi. destruct (Hsrc i Hi) as [Hlt ->]. by rewrite norm_index_nat. }
    simpl. rewrite (gather_map buf src (fun i => byte_at (src i))); [done|].
    intros i Hi. destruct (Hsrc i Hi) as [Hlt _].
    destruct (lookup_lt_is_Some_2 buf (src i) Hlt) as [b Hb].
    subst byte_at. simpl. by rewrite Hb. }
  simpl.
  (* the scatter into the scratch buffer *)
  unfold np_setitem, resolve, np_empty. rewrite length_replicate.
  rewrite (traverse_map _ _ (fun i : nat => i)).
  2:{ intros i Hi. apply elem_of_seq in Hi. by rewrite norm_index_nat by lia. }
  rewrite map_id. simpl. rewrite broadcast_exact by (by rewrite length_map, !length_seq).
  simpl.
  pose proof (scatter_seq_all [] (replicate (length starts * sz) Byte.x00)
                (map (fun i => byte_at (src i)) (seq 0 (length starts * sz)))) as Hall.
  rewrite length_replicate in Hall. simpl in Hall.
  rewrite Hall by (by rewrite length_map, length_seq).
  (* the scratch buffer read as elements *)
  do 3 f_equal. unfold reinterpret. fold sz.
  rewrite length_map, length_seq, Nat.div_mul by lia.
  rewrite <- (map_nth_seq (read_at self) starts 0).
  apply map_ext_in. intros j Hj. apply list_elem_of_In, elem_of_seq in Hj.
  unfold element_at, read_at. fold dt buf sz. f_equal.
  destruct (lookup_lt_is_Some_2 starts j ltac:(lia)) as [o Ho].
  rewrite (nth_lookup_Some _ _ 0 _ Ho).
  pose proof (Forall_lookup_1 _ _ _ _ Hvalid Ho) as [Ho0 Hon]. fold buf dt sz in Hon.
  apply list_eq. intros k.
  destruct (decide (k < sz)%nat) as [Hk|Hk].
  - rewrite !lookup_take_lt, !lookup_drop by done.
    rewrite list_lookup_fmap, lookup_seq_lt by (simpl; nia). simpl.
    destruct (grid_div_mod sz j k Hk) as [Hd Hm].
    subst src byte_at. simpl. rewrite Hd, Hm, (nth_lookup_Some _ _ 0 _ Ho).
    destruct (lookup_lt_is_Some_2 buf (Z.to_nat o + k)%nat ltac:(lia)) as [b Hb].
    by rewrite Hb.
  - rewrite !lookup_take_ge by lia. done.
Qed.

Lemma gather_Forall2 {A} (a : list A) (ps : list nat) (xs : list A) :
  gather a ps = Ok xs -> Forall2 (fun p x => a !! p = Some x) ps xs.
Proof.
  unfold gather. revert xs. induction ps as [|p ps IH]; simpl; intros xs.
  - intros [= <-]. constructor.
  - destruct (a !! p) as [x|] eqn:Hp; simpl; [|done].
    destruct (traverse _ ps) as [ys|]; simpl; [|done].
    intros [= <-]. constructor; [done|]. by apply IH.
Qed.

Lemma ByteIndexedArray_getitem_int (self : ByteIndexedArray.t) (p : nat) (o : Z) :
  ByteIndexedArray._index self !! p = Some o ->
  ByteIndexedArray.__getitem__ self (KSel (SInt (Z.of_nat p))) =
    ByteIndexedArray.getitem_scalar self o.
Proof.
  intros Hp. unfold ByteIndexedArray.__getitem__, np_index.
  by rewrite (np_getitem_nat _ _ _ Hp).
Qed.

(** C1, amended: on a ByteIndexedArray whose index array is of an integer
    type other than uint64 and whose element type has a positive itemsize
    [S] (1, 2, 4, 8 among them), the batched read of any number of
    positions (none, one, five, ...; unaligned, overlapping or repeated
    offsets alike) whose selected byte offsets [o] all satisfy [0 <= o] and
    [o + S <= len(buffer)] returns an array of the declared element type
    whose values are, one for one, what the scalar path returns for each
    selected position; with no position selected the array is empty.
    Nothing is asked of the index entries that are not selected.  The
    buffer and the scratch buffer are of sizes the index type can hold. *)
Theorem C1_batch_read_agrees_with_scalar (self : ByteIndexedArray.t) (head : selector)
    (starts : list Z) :
  ByteIndexedArray._indextype self <> uint64 ->
  (0 < itemsize (ByteIndexedArray._dtype self))%nat ->
  fits_INDEXTYPE (length (ByteIndexedArray._content self)) ->
  fits_INDEXTYPE (length starts * itemsize (ByteIndexedArray._dtype self)) ->
  np_getitem (ByteIndexedArray._index self) head = Ok (Many starts) ->
  Forall (valid_offset self) starts ->
  exists (ps : list nat) (vals : list Z),
    resolve (length (ByteIndexedArray._index self)) head = Ok ps /\
    ByteIndexedArray.__getitem__ self (KSel head) =
      Ok (ByteIndexedArray.Array (mk_ndarray (ByteIndexedArray._dtype self) vals)) /\
    Forall2 (fun p v =>
               ByteIndexedArray.__getitem__ self (KSel (SInt (Z.of_nat p))) =
                 Ok (ByteIndexedArray.Scalar v)) ps vals /\
    length vals = length starts /\
    (starts = [] -> vals = []).
Proof.
  intros Hix Hsz Hfn Hfk Hstarts Hvs.
  destruct (np_getitem_many_inv _ _ _ Hstarts) as (ps & Hps & Hg).
  pose proof (gather_Forall2 _ _ _ Hg) as Hpos.
  exists ps, (map (read_at self) starts).
  split; [exact Hps|]. split; [|split; [|split]].
  - unfold ByteIndexedArray.__getitem__, np_index. rewrite Hstarts. simpl.
    by apply getitem_batch_spec.
  - apply Forall2_fmap_r. apply Forall2_same_length_lookup.
    split; [by apply Forall2_length in Hpos|].
    intros j p o Hj Ho.
    destruct (Forall2_lookup_l _ _ _ _ _ Hpos Hj) as (o' & Ho' & Hp).
    assert (o' = o) as -> by congruence.
    rewrite (ByteIndexedArray_getitem_int _ _ _ Hp).
    apply getitem_scalar_spec; [done|done|]. exact (Forall_lookup_1 _ _ _ _ Hvs Ho).
  - by rewrite length_map.
  - by intros ->.
Qed.

(** C1, as stated, fails: a negative index entry meets the one condition
    [o + S <= len(buffer)]; the batched read takes it as numpy does a
    negative index and decodes the bytes counted from the end, the scalar
    read splits it by [divmod] into a negative element position and a
    byte offset.  For the entry -1 of a two-byte buffer of uint8 the
    batched read returns the last byte while the scalar read asks
    [frombuffer] for no element at all and raises; for the entry -5 of an
    eleven-byte buffer of uint32 the batched read decodes bytes 6 to 9 and
    the scalar read bytes 3 to 6. *)
Lemma C1_counterexample :
  (Forall (fun o => o + Z.of_nat (itemsize (ByteIndexedArray._dtype ex_negative)) <=
                      Z.of_nat (length (ByteIndexedArray._content ex_negative)))
          (ByteIndexedArray._index ex_negative) /\
   ByteIndexedArray.__getitem__ ex_negative (KSel (SSlice None None None)) =
     Ok (ByteIndexedArray.Array (mk_ndarray (mk_dtype 1 false) [7])) /\
   ByteIndexedArray.__getitem__ ex_negative (KSel (SInt 0)) = Err IndexError) /\
  (Forall (fun o => o + Z.of_nat (itemsize (ByteIndexedArray._dtype ex_negative4)) <=
                      Z.of_nat (length (ByteIndexedArray._content ex_negative4)))
          (ByteIndexedArray._index ex_negative4) /\
   ByteIndexedArray.__getitem__ ex_negative4 (KSel (SSlice None None None)) =
     Ok (ByteIndexedArray.Array (mk_ndarray (mk_dtype 4 false) [151521030])) /\
   ByteIndexedArray.__getitem__ ex_negative4 (KSel (SInt 0)) =
     Ok (ByteIndexedArray.Scalar 100992003)).
Proof.
  split; (split; [|by vm_compute]); repeat constructor; simpl; lia.
Qed.

Lemma C1_batch_read_agrees_with_scalar_witness :
  exists (ps : list nat) (vals : list Z),
    resolve (length (ByteIndexedArray._index ex_bytes)) (SSlice None None None) = Ok ps /\
    ByteIndexedArray.__getitem__ ex_bytes (KSel (SSlice None None None)) =
      Ok (ByteIndexedArray.Array (mk_ndarray (ByteIndexedArray._dtype ex_bytes) vals)) /\
    Forall2 (fun p v =>
               ByteIndexedArray.__getitem__ ex_bytes (KSel (SInt (Z.of_nat p))) =
                 Ok (ByteIndexedArray.Scalar v)) ps vals /\
    length vals = length [0; 1; 3; 1; 4] /\
    ([0; 1; 3; 1; 4] = [] -> vals = []).
Proof.
  apply (C1_batch_read_agrees_with_scalar ex_bytes (SSlice None None None) [0; 1; 3; 1; 4]).
  - discriminate.
  - simpl. lia.
  - vm_compute. reflexivity.
  - vm_compute. reflexivity.
  - reflexivity.
  - repeat constructor; simpl; lia.
Defined.

(** * Further properties *)

#[local] Arguments resolve : simpl never.
#[local] Arguments gather : simpl never.
#[local] Arguments IndexedArray.__getitem__ : simpl never.
#[local] Arguments IndexedMaskedArray.__getitem__ : simpl never.
#[local] Arguments UnionArray.__getitem__ : simpl never.
#[local] Arguments ByteIndexedArray.__getitem__ : simpl never.

(** ** IndexedMaskedArray: what the writes do to the index *)

Lemma scatter_replicate_lookup {A} (a : list A) (ps : list nat) (n : nat) (x : A) (p : nat) :
  scatter a ps (replicate n x) !! p = a !! p \/
  (p ∈ ps /\ scatter a ps (replicate n x) !! p = Some x).
Proof.
  revert a n. induction ps as [|q ps IH]; intros a n; [by left|].
  destruct n as [|n]; [by left|].
  change (scatter a (q :: ps) (replicate (S n) x))
    with (scatter (<[q := x]> a) ps (replicate n x)).
  destruct (IH (<[q := x]> a) n) as [Heq|[Hin Heq]].
  - rewrite Heq. destruct (decide (q = p)) as [->|Hne].
    + destruct (decide (p < length a)%nat) as [Hlt|Hge].
      * right. split; [by left|]. by apply list_lookup_insert_eq.
      * left. rewrite list_insert_ge by lia. done.
    + left. by apply list_lookup_insert_ne.
  - right. split; [by right|done].
Qed.

Lemma scatter_replicate_in {A} (a : list A) (ps : list nat) (x : A) (p : nat) :
  p ∈ ps -> (p < length a)%nat ->
  scatter a ps (replicate (length ps) x) !! p = Some x.
Proof.
  revert a. induction ps as [|q ps IH]; intros a Hin Hlt.
  - by apply elem_of_nil in Hin.
  - change (scatter a (q :: ps) (replicate (length (q :: ps)) x))
      with (scatter (<[q := x]> a) ps (replicate (length ps) x)).
    destruct (decide (p ∈ ps)) as [Hps|Hps].
    + apply IH; [done|]. by rewrite length_insert.
    + apply elem_of_cons in Hin as [->|Hin]; [|done].
      rewrite scatter_lookup_other by done. by apply list_lookup_insert_eq.
Qed.

Lemma np_setitem_scalar {A} (a : list A) (s : selector) (x : A) (ix : list A) :
  np_setitem a s (RScalar x) = Ok ix ->
  exists ps, resolve (length a) s = Ok ps /\ ix = scatter a ps (replicate (length ps) x).
Proof.
  unfold np_setitem. destruct (resolve (length a) s) as [ps|]; simpl; [|done].
  intros [= <-]. by exists ps.
Qed.

Lemma keeps_masked_ret {A} (a : A) : keeps_masked (act_ret a).
Proof. by intros self. Qed.

Lemma keeps_masked_raise {A} (e : exn) : keeps_masked (@act_raise _ A e).
Proof. by intros self. Qed.

Lemma keeps_masked_lift {A} (r : result A) : keeps_masked (act_lift r).
Proof. by intros self. Qed.

Lemma keeps_masked_get : keeps_masked act_get.
Proof. by intros self. Qed.

Lemma keeps_masked_bind {A B} (m : action IndexedMaskedArray.t A)
    (k : A -> action IndexedMaskedArray.t B) :
  keeps_masked m -> (forall a, keeps_masked (k a)) -> keeps_masked (act_bind m k).
Proof.
  intros Hm Hk self. unfold act_bind.
  destruct (Hm self) as (HM & HW & HL & HP).
  destruct (m self) as [[a|e] s1]; simpl in *; [|done].
  destruct (Hk a s1) as (HM' & HW' & HL' & HP').
  split; [congruence|]. split; [congruence|]. split; [congruence|].
  intros p Hp. rewrite <- HM. apply HP'. rewrite HM. by apply HP.
Qed.

Lemma keeps_masked_set_index (ix : list Z) (self : IndexedMaskedArray.t) (ps : list nat)
    (n : nat) :
  ix = scatter (IndexedMaskedArray._index self) ps
         (replicate n (IndexedMaskedArray._maskedwhen self)) ->
  length ix = length (IndexedMaskedArray._index self) /\
  forall p,
    IndexedMaskedArray._index self !! p = Some (IndexedMaskedArray._maskedwhen self) ->
    ix !! p = Some (IndexedMaskedArray._maskedwhen self).
Proof.
  intros ->. split; [apply scatter_length|].
  intros p Hp.
  destruct (scatter_replicate_lookup (IndexedMaskedArray._index self) ps n
              (IndexedMaskedArray._maskedwhen self) p) as [->|[_ ->]]; done.
Qed.

Lemma keeps_masked_mask_at (head : selector) :
  keeps_masked (IndexedMaskedArray.mask_at head).
Proof.
  intros self. unfold IndexedMaskedArray.mask_at.
  destruct (np_setitem _ head _) as [ix|] eqn:Hset; simpl; [|done].
  destruct (np_setitem_scalar _ _ _ _ Hset) as (ps & _ & Hix).
  destruct (keeps_masked_set_index ix self ps _ Hix) as [HL HP]. done.
Qed.

Lemma keeps_masked_store (ix : picked Z) (tail : list selector) (v : rhs Z) :
  keeps_masked (IndexedMaskedArray.store ix tail v).
Proof.
  intros self. unfold IndexedMaskedArray.store.
  by destruct (content_put_tail _ ix tail v).
Qed.

Lemma keeps_masked_mask_where (head : selector) (mask : option (list bool)) :
  keeps_masked (IndexedMaskedArray.mask_where head mask).
Proof.
  intros self. unfold IndexedMaskedArray.mask_where.
  destruct (np_getitem _ head) as [[x|sub]|]; simpl; try done.
  destruct mask as [m|]; simpl; [|done].
  destruct (resolve (length sub) (SMask m)) as [qs|]; simpl; [|done].
  destruct (resolve _ head) as [ps|]; simpl; [|done].
  destruct (is_view head); simpl; [|done].
  destruct (gather ps qs) as [slots|]; simpl; [|done].
  destruct (keeps_masked_set_index _ self slots (length slots) eq_refl) as [HL HP]. done.
Qed.

Lemma keeps_masked_setitem (where_ : pykey) (what : operand) :
  keeps_masked (IndexedMaskedArray.__setitem__ where_ what).
Proof.
  assert (forall head tail v, keeps_masked (IndexedMaskedArray.store_at head tail v)) as Hat.
  { intros head tail v. apply keeps_masked_bind; [apply keeps_masked_get|]. intros s.
    apply keeps_masked_bind; [apply keeps_masked_lift|]. intros ix.
    apply keeps_masked_store. }
  assert (forall head mask tail vals,
            keeps_masked (IndexedMaskedArray.store_where head mask tail vals)) as Hwhere.
  { intros head mask tail vals.
    apply keeps_masked_bind; [apply keeps_masked_lift|]. intros vs.
    apply keeps_masked_bind; [apply keeps_masked_get|]. intros s.
    apply keeps_masked_bind; [apply keeps_masked_lift|]. intros sub.
    apply keeps_masked_bind; [apply keeps_masked_lift|]. intros ix.
    apply keeps_masked_store. }
  assert (forall mask notmask head tail vals,
            keeps_masked (IndexedMaskedArray.split_by mask notmask head tail vals)) as Hsplit.
  { intros mask notmask head tail vals.
    apply keeps_masked_bind; [apply keeps_masked_mask_where|]. intros _. apply Hwhere. }
  assert (forall head tail xs,
            keeps_masked (IndexedMaskedArray.store_unmasked head tail xs)) as Hun.
  { intros head tail xs.
    apply keeps_masked_bind; [apply keeps_masked_get|]. intros s.
    apply keeps_masked_bind; [apply keeps_masked_lift|]. intros [i|ix].
    - apply keeps_masked_raise.
    - apply keeps_masked_bind; [apply keeps_masked_lift|]. intros vs.
      apply keeps_masked_bind; [apply keeps_masked_lift|]. intros kept.
      apply keeps_masked_store. }
  assert (forall head tail,
            keeps_masked
              (act_bind (act_lift (operand_first what))
                 (fun x => match x with
                           | None => IndexedMaskedArray.mask_at head
                           | Some v => IndexedMaskedArray.store_at head tail (RScalar v)
                           end))) as Hfirst.
  { intros head tail. apply keeps_masked_bind; [apply keeps_masked_lift|].
    intros [v|]; [apply Hat|apply keeps_masked_mask_at]. }
  unfold IndexedMaskedArray.__setitem__.
  destruct where_ as [name|s|t]; [apply keeps_masked_raise| |];
    (apply keeps_masked_bind; [apply keeps_masked_get|]; intros self;
     destruct (negb (IndexedMaskedArray._writeable self)); [apply keeps_masked_raise|];
     apply keeps_masked_bind; [apply keeps_masked_lift|]; intros [head tail]; simpl;
     destruct what as [|v|xs|xs|a|wi wm wc];
     repeat match goal with
            | |- keeps_masked (if ?c then _ else _) => destruct c
            | |- keeps_masked (match ?x with _ => _ end) => destruct x
            end;
     auto using keeps_masked_mask_at).
Qed.

Lemma masked_writes_keep (ws : list (pykey * operand)) (self : IndexedMaskedArray.t) :
  IndexedMaskedArray._maskedwhen (masked_writes ws self) =
    IndexedMaskedArray._maskedwhen self /\
  length (IndexedMaskedArray._index (masked_writes ws self)) =
    length (IndexedMaskedArray._index self) /\
  forall p,
    IndexedMaskedArray._index self !! p = Some (IndexedMaskedArray._maskedwhen self) ->
    IndexedMaskedArray._index (masked_writes ws self) !! p =
      Some (IndexedMaskedArray._maskedwhen self).
Proof.
  unfold masked_writes. revert self. induction ws as [|[w x] ws IH]; intros self; [done|].
  simpl. destruct (keeps_masked_setitem w x self) as (HM & _ & HL & HP).
  destruct (IH (snd (IndexedMaskedArray.__setitem__ w x self))) as (HM' & HL' & HP').
  split; [congruence|]. split; [congruence|].
  intros p Hp. rewrite <- HM. apply HP'. rewrite HM. by apply HP.
Qed.

(** X1: no assignment to an IndexedMaskedArray ever unmasks a position: the
    only stores into the index write [maskedwhen].  After any run of
    assignments, whatever their keys and operands and whether they raise,
    the sentinel and the length of the index are those of the start and a
    position that was masked at the start still reads as missing. *)
Theorem X1_masked_position_stays_masked (ws : list (pykey * operand))
    (self : IndexedMaskedArray.t) (p : nat) :
  IndexedMaskedArray._index self !! p = Some (IndexedMaskedArray._maskedwhen self) ->
  IndexedMaskedArray._maskedwhen (masked_writes ws self) =
    IndexedMaskedArray._maskedwhen self /\
  length (IndexedMaskedArray._index (masked_writes ws self)) =
    length (IndexedMaskedArray._index self) /\
  IndexedMaskedArray.__getitem__ (masked_writes ws self) (KSel (SInt (Z.of_nat p))) =
    Ok IndexedMaskedArray.Masked.
Proof.
  intros Hp. destruct (masked_writes_keep ws self) as (HM & HL & HP).
  split; [done|]. split; [done|].
  rewrite (IndexedMaskedArray_getitem_int _ _ _ (HP p Hp)), HM.
  by rewrite decide_True.
Qed.

Lemma X1_masked_position_stays_masked_witness :
  IndexedMaskedArray.__getitem__
    (masked_writes [(KSel (SInt 0), OScalar 9);
                    (KSel (SSlice None None None), OSeq [Some 5; Some 6]);
                    (KSel (SFancy [0; 1]), OArray [7; 8])] ex_masked)
    (KSel (SInt (Z.of_nat 0))) = Ok IndexedMaskedArray.Masked.
Proof.
  apply (X1_masked_position_stays_masked _ ex_masked 0%nat). reflexivity.
Defined.

(** ** numpy indexing: the slots a selector addresses *)

Lemma py_range_bounds (b e st z : Z) :
  st <> 0 -> z ∈ py_range b e st ->
  (0 < st -> b <= z < e) /\ (st < 0 -> e < z <= b).
Proof.
  intros Hst Hz. unfold py_range in Hz.
  apply list_elem_of_fmap in Hz as (k & -> & Hk). apply elem_of_seq in Hk.
  destruct (Z.ltb_spec 0 st) as [Hpos|Hneg].
  - split; [intros _|lia].
    destruct (Z.ltb_spec b e) as [Hlt|Hge]; [|simpl in Hk; lia].
    assert (Z.of_nat k <= (e - b - 1) / st) as Hle by lia.
    pose proof (Z.mul_div_le (e - b - 1) st Hpos).
    assert (st * Z.of_nat k <= st * ((e - b - 1) / st)) by nia.
    nia.
  - split; [lia|intros _].
    destruct (Z.ltb_spec e b) as [Hlt|Hge]; [|simpl in Hk; lia].
    assert (Z.of_nat k <= (b - e - 1) / (- st)) as Hle by lia.
    pose proof (Z.mul_div_le (b - e - 1) (- st) ltac:(lia)).
    assert ((- st) * Z.of_nat k <= (- st) * ((b - e - 1) / (- st))) by nia.
    nia.
Qed.

(** Whatever the selector, only slots of the axis are addressed. *)
Lemma resolve_lt (n : nat) (s : selector) (ps : list nat) (p : nat) :
  resolve n s = Ok ps -> p ∈ ps -> (p < n)%nat.
Proof.
  destruct s as [i|start stop step|idx|m]; unfold resolve.
  - destruct (norm_index n i) as [k|] eqn:Hk; simpl; [|done].
    intros [= <-] Hp. apply list_elem_of_singleton in Hp as ->.
    by eapply norm_index_lt.
  - unfold slice_indices.
    destruct (Z.eqb_spec (default 1 step) 0) as [|Hst]; [done|].
    simpl. intros [= <-] Hp.
    apply list_elem_of_fmap in Hp as (z & -> & Hz).
    apply py_range_bounds in Hz as [Hpos Hneg]; [|done].
    destruct (Z.ltb_spec (default 1 step) 0) as [Hlt|Hge].
    + specialize (Hneg Hlt).
      destruct start as [v|], stop as [w|];
        repeat match goal with
               | H : context [if ?c <? 0 then _ else _] |- _ =>
                   destruct (Z.ltb_spec c 0)
               end; lia.
    + specialize (Hpos ltac:(lia)).
      destruct start as [v|], stop as [w|];
        repeat match goal with
               | H : context [if ?c <? 0 then _ else _] |- _ =>
                   destruct (Z.ltb_spec c 0)
               end; lia.
  - intros Htr Hp.
    destruct (traverse_elem _ _ _ _ Htr Hp) as (i & _ & Hi).
    destruct (norm_index n i) as [k|] eqn:Hk; simpl in Hi; [|done].
    injection Hi as ->. by eapply norm_index_lt.
  - destruct (decide (length m = n)); [|done]. intros [= <-] Hp.
    apply list_elem_of_fmap in Hp as ([q b] & -> & Hq).
    apply list_elem_of_filter in Hq as [_ Hq].
    apply elem_of_zip_l in Hq. apply elem_of_seq in Hq. simpl. lia.
Qed.

Lemma resolve_all (n : nat) : resolve n (SSlice None None None) = Ok (seq 0 n).
Proof.
  unfold resolve, slice_indices. simpl. unfold py_range. simpl.
  destruct (Z.ltb_spec 0 (Z.of_nat n)) as [Hpos|Hzero].
  - rewrite Z.div_1_r. replace (Z.to_nat (Z.of_nat n - 0 - 1 + 1)) with n by lia.
    f_equal. rewrite map_map. rewrite <- (map_id (seq 0 n)) at 2.
    apply map_ext. intros k. lia.
  - assert (n = 0%nat) as -> by lia. done.
Qed.

(** ** IndexedMaskedArray: single assignments *)

Lemma IndexedMaskedArray_setitem_positional (self : IndexedMaskedArray.t) (head : selector)
    (what : operand) :
  IndexedMaskedArray._writeable self = true ->
  IndexedMaskedArray.__setitem__ (KSel head) what self =
    match what with
    | OMasked | OSeq [None] => IndexedMaskedArray.mask_at head self
    | _ =>
        if decide (operand_len what = Some 1%nat) then
          act_bind (act_lift (operand_first what))
            (fun x => match x with
                      | None => IndexedMaskedArray.mask_at head
                      | Some v => IndexedMaskedArray.store_at head [] (RScalar v)
                      end) self
        else
          match what with
          | OMaskedArray a =>
              let boolmask := map fst (ma_items a) in
              let notboolmask := map negb boolmask in
              let content := map snd (ma_items a) in
              if ma_maskedwhen a
              then IndexedMaskedArray.split_by (Some boolmask) notboolmask head []
                     (select content notboolmask) self
              else IndexedMaskedArray.split_by (Some notboolmask) boolmask head []
                     (select content boolmask) self
          | OIndexedMasked windex wmw wcontent =>
              let boolmask := map (fun i => bool_decide (i = wmw)) windex in
              let notboolmask := map negb boolmask in
              IndexedMaskedArray.split_by (Some boolmask) notboolmask head []
                (select wcontent notboolmask) self
          | OSeq xs =>
              let boolmask := map (fun x => negb (is_some x)) xs in
              let notboolmask := map negb boolmask in
              IndexedMaskedArray.split_by (match xs with [] => None | _ => Some boolmask end)
                notboolmask head [] (Ok (omap id xs)) self
          | OArray xs => IndexedMaskedArray.store_unmasked head [] xs self
          | OMasked => IndexedMaskedArray.mask_at head self
          | OScalar v => IndexedMaskedArray.store_at head [] (RScalar v) self
          end
    end.
Proof.
  intros Hw. unfold IndexedMaskedArray.__setitem__.
  unfold act_bind at 1. unfold act_get at 1. rewrite Hw. simpl.
  unfold act_bind at 1. unfold act_lift at 1. simpl.
  destruct what as [|v|xs|xs|a|wi wm wc]; try done.
  - destruct xs as [|[x|] [|y xs]]; try done.
  - by destruct (decide _).
  - destruct (decide _); [done|]. by destruct (ma_maskedwhen a).
  - by destruct (decide _).
Qed.

(** X2: on a writeable IndexedMaskedArray whose sentinel lies between two
    entries of its index (so that the index array, whatever its integer
    type, holds the sentinel), assigning the missing marker (bare, or as
    the one element of a list) to any selection succeeds, leaves the
    content as it was, makes every selected position read as missing and
    leaves the reads of all other positions as they were. *)
Theorem X2_mask_then_read (self : IndexedMaskedArray.t) (head : selector) (ps : list nat) :
  IndexedMaskedArray._writeable self = true ->
  sentinel_fits self ->
  resolve (length (IndexedMaskedArray._index self)) head = Ok ps ->
  exists self',
    IndexedMaskedArray.__setitem__ (KSel head) OMasked self = (Ok tt, self') /\
    IndexedMaskedArray.__setitem__ (KSel head) (OSeq [None]) self = (Ok tt, self') /\
    IndexedMaskedArray._content self' = IndexedMaskedArray._content self /\
    (forall p, p ∈ ps ->
       IndexedMaskedArray.__getitem__ self' (KSel (SInt (Z.of_nat p))) =
         Ok IndexedMaskedArray.Masked) /\
    (forall q, q ∉ ps ->
       IndexedMaskedArray.__getitem__ self' (KSel (SInt (Z.of_nat q))) =
         IndexedMaskedArray.__getitem__ self (KSel (SInt (Z.of_nat q)))).
Proof.
  intros Hw _ Hps.
  rewrite !IndexedMaskedArray_setitem_positional by done. simpl.
  unfold IndexedMaskedArray.mask_at, np_setitem. rewrite Hps. simpl.
  eexists. split; [done|]. split; [done|]. split; [done|]. split.
  - intros p Hp. pose proof (resolve_lt _ _ _ _ Hps Hp) as Hlt.
    rewrite (IndexedMaskedArray_getitem_int _ p (IndexedMaskedArray._maskedwhen self)).
    + simpl. by rewrite decide_True.
    + simpl. by apply scatter_replicate_in.
  - intros q Hq. unfold IndexedMaskedArray.__getitem__. simpl.
    unfold IndexedMaskedArray.set_index. simpl.
    assert (forall (A : Type) (a b : list A) (i : Z),
              length a = length b ->
              a !! Z.to_nat i = b !! Z.to_nat i ->
              (forall k, norm_index (length a) i = Some k -> a !! k = b !! k) ->
              np_getitem a (SInt i) = np_getitem b (SInt i)) as Hsame.
    { intros A a b i Hlen _ Hk. unfold np_getitem, resolve, gather. rewrite <- Hlen.
      destruct (norm_index (length a) i) as [k|] eqn:Hn; [|done]. simpl.
      by rewrite (Hk k eq_refl). }
    rewrite (Hsame _ _ (IndexedMaskedArray._index self) (Z.of_nat q)); [done| | |].
    + apply scatter_length.
    + rewrite Nat2Z.id. by apply scatter_lookup_other.
    + intros k Hk. rewrite scatter_length in Hk.
      destruct (decide (q < length (IndexedMaskedArray._index self))%nat) as [Hlt|Hge].
      * rewrite norm_index_nat in Hk by done. injection Hk as <-.
        by apply scatter_lookup_other.
      * unfold norm_index in Hk.
        destruct (Z.leb_spec 0 (Z.of_nat q)); [|lia].
        destruct (Z.ltb_spec (Z.of_nat q) (Z.of_nat (length (IndexedMaskedArray._index self))));
          [lia|]. simpl in Hk.
        destruct (Z.leb_spec (- Z.of_nat (length (IndexedMaskedArray._index self)))
                    (Z.of_nat q)); simpl in Hk; [|done].
        destruct (Z.ltb_spec (Z.of_nat q) 0); [lia|done].
Qed.

Lemma X2_mask_then_read_witness :
  exists self',
    IndexedMaskedArray.__setitem__ (KSel (SInt 1)) OMasked ex_masked = (Ok tt, self') /\
    IndexedMaskedArray.__getitem__ self' (KSel (SInt (Z.of_nat 1))) =
      Ok IndexedMaskedArray.Masked.
Proof.
  assert (sentinel_fits ex_masked) as Hfits.
  { exists (-1), 3. split; [by left|]. split; [right; by left|]. simpl. lia. }
  destruct (X2_mask_then_read ex_masked (SInt 1) [1%nat] eq_refl Hfits eq_refl)
    as (self' & Hset & _ & _ & Hin & _).
  exists self'. split; [exact Hset|]. apply Hin. by left.
Defined.

Lemma gather_total {A} (a : list A) (ps : list nat) :
  (forall p, p ∈ ps -> (p < length a)%nat) -> exists xs, gather a ps = Ok xs.
Proof.
  unfold gather. induction ps as [|p ps IH]; intros Hlt; [by exists []|].
  destruct (lookup_lt_is_Some_2 a p) as [x Hx]; [apply Hlt; by left|].
  destruct IH as [xs Hxs]; [intros q Hq; apply Hlt; by right|].
  exists (x :: xs). cbn [traverse]. rewrite Hx. simpl. by rewrite Hxs.
Qed.

(** Indexing by anything but an integer yields the array of the addressed
    slots. *)
Lemma np_getitem_many {A} (a : list A) (s : selector) (ps : list nat) :
  is_integer s = false -> resolve (length a) s = Ok ps ->
  exists xs, np_getitem a s = Ok (Many xs) /\ gather a ps = Ok xs.
Proof.
  intros Hs Hps.
  destruct (gather_total a ps) as [xs Hxs]; [intros p Hp; by eapply resolve_lt|].
  exists xs. split; [|done]. unfold np_getitem. rewrite Hps. simpl. rewrite Hxs. simpl.
  by destruct s.
Qed.

(** X3: a read of an IndexedMaskedArray by anything but an integer returns
    a view over the selected index entries and the same content, with the
    same sentinel and flag; nothing is resolved at that point, and reading
    position [j] of the view is reading, in the original, the [j]-th
    selected position. *)
Theorem X3_selection_is_a_view (self : IndexedMaskedArray.t) (head : selector)
    (ps : list nat) :
  is_integer head = false ->
  resolve (length (IndexedMaskedArray._index self)) head = Ok ps ->
  exists ix,
    IndexedMaskedArray.__getitem__ self (KSel head) =
      Ok (IndexedMaskedArray.View
            (IndexedMaskedArray.mk ix (IndexedMaskedArray._content self)
               (IndexedMaskedArray._maskedwhen self) (IndexedMaskedArray._writeable self))) /\
    length ix = length ps /\
    forall j p, ps !! j = Some p ->
      IndexedMaskedArray.__getitem__
        (IndexedMaskedArray.mk ix (IndexedMaskedArray._content self)
           (IndexedMaskedArray._maskedwhen self) (IndexedMaskedArray._writeable self))
        (KSel (SInt (Z.of_nat j))) =
      IndexedMaskedArray.__getitem__ self (KSel (SInt (Z.of_nat p))).
Proof.
  intros Hint Hps.
  destruct (np_getitem_many _ _ _ Hint Hps) as (ix & Hix & Hg).
  exists ix. split; [|split].
  - unfold IndexedMaskedArray.__getitem__. simpl. rewrite Hint, Hix. done.
  - by apply traverse_length in Hg.
  - intros j p Hj.
    destruct (Forall2_lookup_l _ _ _ _ _ (gather_Forall2 _ _ _ Hg) Hj) as (i & Hi & Hp).
    rewrite (IndexedMaskedArray_getitem_int
               (IndexedMaskedArray.mk ix (IndexedMaskedArray._content self)
                  (IndexedMaskedArray._maskedwhen self) (IndexedMaskedArray._writeable self))
               j i Hi).
    by rewrite (IndexedMaskedArray_getitem_int _ _ _ Hp).
Qed.

Lemma X3_selection_is_a_view_witness :
  exists ix,
    IndexedMaskedArray.__getitem__ ex_masked (KSel (SSlice None None (Some (-1)))) =
      Ok (IndexedMaskedArray.View
            (IndexedMaskedArray.mk ix (IndexedMaskedArray._content ex_masked) (-1) true)) /\
    IndexedMaskedArray.__getitem__
      (IndexedMaskedArray.mk ix (IndexedMaskedArray._content ex_masked) (-1) true)
      (KSel (SInt (Z.of_nat 0))) =
    IndexedMaskedArray.__getitem__ ex_masked (KSel (SInt (Z.of_nat 1))).
Proof.
  destruct (X3_selection_is_a_view ex_masked (SSlice None None (Some (-1))) [1%nat; 0%nat]
              eq_refl eq_refl) as (ix & Hview & _ & Hread).
  exists ix. split; [exact Hview|]. exact (Hread 0%nat 1%nat eq_refl).
Defined.



(** ** IndexedMaskedArray: nullable operands *)

Lemma elem_of_mask_slots (n : nat) (m : list bool) (p : nat) :
  length m = n ->
  p ∈ map fst (filter (fun q => snd q = true) (zip (seq 0 n) m)) <-> m !! p = Some true.
Proof.
  intros Hlen. rewrite list_elem_of_fmap. split.
  - intros ([q b] & -> & Hq). apply list_elem_of_filter in Hq as [Hb Hq].
    simpl in Hb. subst b. apply list_elem_of_lookup in Hq as [i Hi].
    apply lookup_zip_with_Some in Hi as (x & y & [= <- <-] & Hx & Hy).
    apply lookup_seq in Hx as [-> _]. done.
  - intros Hp. exists (p, true). split; [done|].
    apply list_elem_of_filter. split; [done|].
    apply list_elem_of_lookup. exists p.
    apply lookup_zip_with_Some. exists p, true. split; [done|]. split; [|done].
    apply lookup_seq_lt. apply lookup_lt_Some in Hp. lia.
Qed.

Lemma gather_seq (n : nat) (qs : list nat) :
  (forall q, q ∈ qs -> (q < n)%nat) -> gather (seq 0 n) qs = Ok qs.
Proof.
  intros Hlt. rewrite <- (map_id qs) at 1. rewrite <- (map_id qs) at 2.
  apply gather_map. intros q Hq. by apply lookup_seq_lt, Hlt.
Qed.

(** [self._index[:][mask] = self._maskedwhen] reaches the index array. *)
Lemma mask_where_all (self : IndexedMaskedArray.t) (mask : list bool) :
  length mask = length (IndexedMaskedArray._index self) ->
  exists qs,
    (forall p, p ∈ qs <-> mask !! p = Some true) /\
    IndexedMaskedArray.mask_where (SSlice None None None) (Some mask) self =
      (Ok tt,
       IndexedMaskedArray.set_index
         (scatter (IndexedMaskedArray._index self) qs
            (replicate (length qs) (IndexedMaskedArray._maskedwhen self))) self).
Proof.
  intros Hlen.
  destruct (np_getitem_many (IndexedMaskedArray._index self) (SSlice None None None) _
              eq_refl (resolve_all _)) as (sub & Hsub & Hg).
  assert (length sub = length (IndexedMaskedArray._index self)) as Hlsub.
  { apply traverse_length in Hg. by rewrite Hg, length_seq. }
  exists (map fst (filter (fun q => snd q = true)
                     (zip (seq 0 (length (IndexedMaskedArray._index self))) mask))).
  split; [intros p; by apply elem_of_mask_slots|].
  unfold IndexedMaskedArray.mask_where. rewrite Hsub, resolve_all, Hlsub.
  unfold resolve at 1. rewrite decide_True by done. simpl.
  rewrite gather_seq; [done|].
  intros q Hq. apply elem_of_mask_slots in Hq; [|done].
  apply lookup_lt_Some in Hq. lia.
Qed.

Lemma IndexedMaskedArray_setitem_markers (self : IndexedMaskedArray.t) (head : selector)
    (xs : list (option Z)) :
  IndexedMaskedArray._writeable self = true ->
  length xs <> 1%nat -> xs <> [] ->
  IndexedMaskedArray.__setitem__ (KSel head) (OSeq xs) self =
    IndexedMaskedArray.split_by (Some (map (fun x => negb (is_some x)) xs))
      (map negb (map (fun x => negb (is_some x)) xs)) head [] (Ok (omap id xs)) self.
Proof.
  intros Hw Hne Hnil. rewrite IndexedMaskedArray_setitem_positional by done.
  destruct xs as [|[x|] [|y xs]]; try done;
    (destruct (decide _) as [Heq|_]; [simpl in Heq; congruence|reflexivity]).
Qed.

Lemma store_where_keeps (head : selector) (mask : list bool) (tail : list selector)
    (vals : result (list Z)) (s : IndexedMaskedArray.t) :
  IndexedMaskedArray._index (snd (IndexedMaskedArray.store_where head mask tail vals s)) =
    IndexedMaskedArray._index s /\
  IndexedMaskedArray._maskedwhen (snd (IndexedMaskedArray.store_where head mask tail vals s)) =
    IndexedMaskedArray._maskedwhen s.
Proof.
  unfold IndexedMaskedArray.store_where, act_bind, act_get, act_lift. simpl.
  destruct vals as [vs|]; simpl; [|done].
  destruct (np_getitem _ _) as [[i|sub]|]; simpl; try done.
  destruct (select sub _); simpl; [|done].
  unfold IndexedMaskedArray.store. by destruct (content_put_tail _ _ _ _).
Qed.

(** X5: on a writeable IndexedMaskedArray whose sentinel lies between two
    entries of its index (so that the index array, whatever its integer
    type, holds the sentinel), assigning through the full slice a list as
    long as the view (and not of length one) that mixes values and missing
    markers masks every position that holds a marker, so that it reads as
    missing afterwards, even when the store of the values into the content
    then raises; the index entries of the positions that hold a value are
    left as they were. *)
Theorem X5_marker_list_through_slice (self : IndexedMaskedArray.t) (xs : list (option Z)) :
  IndexedMaskedArray._writeable self = true ->
  sentinel_fits self ->
  length xs = length (IndexedMaskedArray._index self) ->
  length xs <> 1%nat ->
  let self' :=
    snd (IndexedMaskedArray.__setitem__ (KSel (SSlice None None None)) (OSeq xs) self) in
  (forall p, xs !! p = Some None ->
     IndexedMaskedArray.__getitem__ self' (KSel (SInt (Z.of_nat p))) =
       Ok IndexedMaskedArray.Masked) /\
  (forall p v, xs !! p = Some (Some v) ->
     IndexedMaskedArray._index self' !! p = IndexedMaskedArray._index self !! p).
Proof.
  intros Hw _ Hlen Hne self'. subst self'.
  destruct (decide (xs = [])) as [->|Hnil].
  { split; intros p; by rewrite lookup_nil. }
  rewrite IndexedMaskedArray_setitem_markers by done.
  assert (length (map (fun x : option Z => negb (is_some x)) xs) =
          length (IndexedMaskedArray._index self)) as Hlm by (by rewrite length_map).
  destruct (mask_where_all self _ Hlm) as (qs & Hqs & Hmask).
  unfold IndexedMaskedArray.split_by, act_bind. rewrite Hmask.
  split.
  - intros p Hp.
    assert (p ∈ qs) as Hin by (apply Hqs; by rewrite list_lookup_fmap, Hp).
    rewrite (IndexedMaskedArray_getitem_int _ p (IndexedMaskedArray._maskedwhen self)).
    + rewrite (proj2 (store_where_keeps _ _ _ _ _)). simpl. by rewrite decide_True.
    + rewrite (proj1 (store_where_keeps _ _ _ _ _)). simpl.
      apply scatter_replicate_in; [done|].
      apply lookup_lt_Some in Hp. lia.
  - intros p v Hp. rewrite (proj1 (store_where_keeps _ _ _ _ _)). simpl.
    apply scatter_lookup_other. intros Hin. apply Hqs in Hin.
    by rewrite list_lookup_fmap, Hp in Hin.
Qed.

Lemma X5_marker_list_through_slice_witness :
  IndexedMaskedArray.__getitem__
    (snd (IndexedMaskedArray.__setitem__ (KSel (SSlice None None None))
            (OSeq [Some 7; None]) ex_masked))
    (KSel (SInt (Z.of_nat 1))) = Ok IndexedMaskedArray.Masked.
Proof.
  assert (length [Some 7; None] <> 1%nat) as Hne by (simpl; lia).
  assert (sentinel_fits ex_masked) as Hfits.
  { exists (-1), 3. split; [by left|]. split; [right; by left|]. simpl. lia. }
  exact (proj1 (X5_marker_list_through_slice ex_masked [Some 7; None] eq_refl Hfits eq_refl
                  Hne)
           1%nat eq_refl).
Defined.

Lemma mask_where_copy (head : selector) (mask : option (list bool))
    (self : IndexedMaskedArray.t) :
  is_view head = false -> snd (IndexedMaskedArray.mask_where head mask self) = self.
Proof.
  intros Hv. unfold IndexedMaskedArray.mask_where.
  destruct (np_getitem _ _) as [[i|sub]|]; [done| |done].
  destruct mask as [m|]; [|done].
  destruct (resolve (length sub) _); [|done].
  destruct (resolve (length _) head); [|done].
  by rewrite Hv.
Qed.

Lemma store_keeps_index (ix : picked Z) (tail : list selector) (v : rhs Z) :
  keeps_index (IndexedMaskedArray.store ix tail v).
Proof.
  intros self. unfold IndexedMaskedArray.store. by destruct (content_put_tail _ _ _ _).
Qed.

Lemma store_at_keeps_index (head : selector) (tail : list selector) (v : rhs Z) :
  keeps_index (IndexedMaskedArray.store_at head tail v).
Proof.
  intros self. unfold IndexedMaskedArray.store_at, act_bind, act_get, act_lift. simpl.
  destruct (np_getitem _ _); simpl; [apply store_keeps_index|done].
Qed.

Lemma store_unmasked_keeps_index (head : selector) (tail : list selector) (what : list Z) :
  keeps_index (IndexedMaskedArray.store_unmasked head tail what).
Proof.
  intros self. unfold IndexedMaskedArray.store_unmasked, act_bind, act_get, act_lift. simpl.
  destruct (np_getitem _ _) as [[i|ix]|]; simpl; [done| |done].
  destruct (select what _); simpl; [|done].
  destruct (select ix _); simpl; [apply store_keeps_index|done].
Qed.

Lemma split_by_copy_keeps_index (mask : option (list bool)) (notmask : list bool)
    (head : selector) (tail : list selector) (vals : result (list Z)) :
  is_view head = false ->
  keeps_index (IndexedMaskedArray.split_by mask notmask head tail vals).
Proof.
  intros Hv self. unfold IndexedMaskedArray.split_by, act_bind.
  pose proof (mask_where_copy head mask self Hv) as Hcopy.
  destruct (IndexedMaskedArray.mask_where head mask self) as [[[]|e] s]; simpl in *; subst s.
  - apply store_where_keeps.
  - done.
Qed.

(** X6: an assignment whose selector is an integer or an array of integers
    or of booleans (anything but a slice) and whose right-hand side is
    neither the missing marker itself nor of length one never changes the
    index of an IndexedMaskedArray, whatever the outcome: the missing
    markers of a nullable right-hand side are written to a copy of the
    selected index entries and are lost, so no position becomes masked. *)
Theorem X6_markers_lost_through_array_selector (self : IndexedMaskedArray.t)
    (head : selector) (what : operand) :
  is_view head = false ->
  what <> OMasked ->
  operand_len what <> Some 1%nat ->
  IndexedMaskedArray._index
    (snd (IndexedMaskedArray.__setitem__ (KSel head) what self)) =
    IndexedMaskedArray._index self.
Proof.
  intros Hv Hmasked Hlen.
  destruct (IndexedMaskedArray._writeable self) eqn:Hw.
  2:{ unfold IndexedMaskedArray.__setitem__, act_bind, act_get. simpl. by rewrite Hw. }
  rewrite IndexedMaskedArray_setitem_positional by done.
  assert (match what with
          | OMasked | OSeq [None] => False
          | _ => True
          end) as Hshape.
  { destruct what as [|v|[|[x|] [|y xs]]|xs|a|ix mw c]; try done. }
  destruct what as [|v|xs|xs|a|ix mw c]; try done.
  - rewrite decide_False by done. apply store_at_keeps_index.
  - destruct xs as [|[x|] [|y xs]]; try done; rewrite decide_False by done;
      by apply split_by_copy_keeps_index.
  - rewrite decide_False by done. apply store_unmasked_keeps_index.
  - rewrite decide_False by done. cbv zeta.
    destruct (ma_maskedwhen a); by apply split_by_copy_keeps_index.
  - rewrite decide_False by done. by apply split_by_copy_keeps_index.
Qed.

Lemma X6_markers_lost_through_array_selector_witness :
  IndexedMaskedArray._index
    (snd (IndexedMaskedArray.__setitem__ (KSel (SFancy [1; 0])) (OSeq [None; Some 7])
            ex_masked)) =
    IndexedMaskedArray._index ex_masked.
Proof.
  assert (OSeq [None; Some 7] <> OMasked) as Hm by discriminate.
  assert (operand_len (OSeq [None; Some 7]) <> Some 1%nat) as Hl by discriminate.
  exact (X6_markers_lost_through_array_selector ex_masked (SFancy [1; 0])
           (OSeq [None; Some 7]) eq_refl Hm Hl).
Defined.

(** ** IndexedArray: selections, aliasing, read-only views and columns *)

#[local] Arguments IndexedArray.__setitem__ : simpl never.
#[local] Arguments IndexedMaskedArray.__setitem__ : simpl never.
#[local] Arguments UnionArray.__setitem__ : simpl never.

Lemma np_getitem_int_inv {A} (a : list A) (i : Z) (x : A) :
  np_getitem a (SInt i) = Ok (One x) <->
  exists k, norm_index (length a) i = Some k /\ a !! k = Some x.
Proof.
  split.
  - unfold np_getitem, resolve, gather.
    destruct (norm_index (length a) i) as [k|]; simpl; [|done].
    destruct (a !! k) as [y|] eqn:Hk; simpl; [|done].
    intros [= <-]. by exists k.
  - intros (k & Hk & Hx). by apply np_getitem_norm with k.
Qed.

(** Indexing by an array of integers is indexing by each of them. *)
Lemma np_getitem_fancy {A} (a : list A) (idx : list Z) (xs : list A) :
  np_getitem a (SFancy idx) = Ok (Many xs) <->
  Forall2 (fun i x => np_getitem a (SInt i) = Ok (One x)) idx xs.
Proof.
  assert (forall ks ys,
            traverse (fun i => or_raise IndexError (norm_index (length a) i)) idx = Ok ks ->
            gather a ks = Ok ys ->
            Forall2 (fun i x => np_getitem a (SInt i) = Ok (One x)) idx ys) as Hfwd.
  { induction idx as [|i idx IH]; intros ks ys; cbn [traverse].
    - intros [= <-] [= <-]. constructor.
    - destruct (norm_index (length a) i) as [k|] eqn:Hk; simpl; [|done].
      destruct (traverse _ idx) as [ks'|]; simpl; [|done].
      intros [= <-]. unfold gather. cbn [traverse].
      destruct (a !! k) as [x|] eqn:Hx; simpl; [|done].
      destruct (traverse _ ks') as [ys'|] eqn:Hys; simpl; [|done].
      intros [= <-]. constructor; [by apply np_getitem_norm with k|].
      by apply (IH ks'). }
  assert (forall ys,
            Forall2 (fun i x => np_getitem a (SInt i) = Ok (One x)) idx ys ->
            exists ks,
              traverse (fun i => or_raise IndexError (norm_index (length a) i)) idx = Ok ks /\
              gather a ks = Ok ys) as Hbwd.
  { clear Hfwd. intros ys Hall. induction Hall as [|i x idx ys Hi _ IH].
    - by exists [].
    - apply np_getitem_int_inv in Hi as (k & Hk & Hx).
      destruct IH as (ks & Hks & Hg). exists (k :: ks).
      cbn [traverse]. rewrite Hk. simpl. rewrite Hks. simpl. split; [done|].
      unfold gather in *. cbn [traverse]. rewrite Hx. simpl. by rewrite Hg. }
  split.
  - intros Hm. destruct (np_getitem_many_inv _ _ _ Hm) as (ks & Hks & Hg).
    by apply (Hfwd ks).
  - intros Hall. destruct (Hbwd xs Hall) as (ks & Hks & Hg).
    unfold np_getitem, resolve. rewrite Hks. simpl. by rewrite Hg.
Qed.

(** A position of a view over a numeric content reads a scalar exactly
    when its index entry addresses a slot. *)
Lemma IndexedArray_getitem_scalar (self : IndexedArray.t) (dt : dtype) (data : list Z)
    (p : nat) (i x : Z) :
  IndexedArray._content self = Plain (mk_ndarray dt data) ->
  IndexedArray._index self !! p = Some i ->
  IndexedArray.__getitem__ self (KSel (SInt (Z.of_nat p))) =
    Ok (IndexedArray.Value (VScalar x)) <->
  np_getitem data (SInt i) = Ok (One x).
Proof.
  intros Hc Hp. rewrite (IndexedArray_getitem_int _ _ _ Hp), Hc.
  unfold content_take, ndarray_take, np_take. simpl.
  destruct (np_getitem data (SInt i)) as [[y|ys]|] eqn:Hr; simpl.
  - split; intros [= ->]; done.
  - split; [done|]. intros [=].
  - split; done.
Qed.

(** X7: reading a selection of several positions (a slice, an integer
    array, a boolean array) of an IndexedArray over a numeric content
    yields an array of the content's element type whose elements are, one
    for one, what reading each selected position yields; the read of the
    selection succeeds exactly when the read of every selected position
    does. *)
Theorem X7_selection_read_is_positionwise (self : IndexedArray.t) (dt : dtype)
    (data : list Z) (head : selector) (ps : list nat) (xs : list Z) :
  IndexedArray._content self = Plain (mk_ndarray dt data) ->
  is_integer head = false ->
  resolve (length (IndexedArray._index self)) head = Ok ps ->
  IndexedArray.__getitem__ self (KSel head) =
    Ok (IndexedArray.Value (VArray (Plain (mk_ndarray dt xs)))) <->
  Forall2 (fun p x =>
             IndexedArray.__getitem__ self (KSel (SInt (Z.of_nat p))) =
               Ok (IndexedArray.Value (VScalar x))) ps xs.
Proof.
  intros Hc Hint Hps.
  destruct (np_getitem_many _ _ _ Hint Hps) as (idx & Hidx & Hg).
  pose proof (gather_Forall2 _ _ _ Hg) as Hpos.
  assert (IndexedArray.__getitem__ self (KSel head) =
            Ok (IndexedArray.Value (VArray (Plain (mk_ndarray dt xs)))) <->
          np_getitem data (SFancy idx) = Ok (Many xs)) as ->.
  { unfold IndexedArray.__getitem__, np_index. rewrite Hidx, Hc.
    unfold content_take, ndarray_take, np_take. simpl.
    destruct (np_getitem data (SFancy idx)) as [[y|ys]|] eqn:Hr; simpl.
    - split; intros [=].
    - split; intros [= ->]; done.
    - split; done. }
  rewrite np_getitem_fancy. split.
  - intros Hall. apply Forall2_same_length_lookup. split.
    + rewrite (Forall2_length _ _ _ Hpos). by apply Forall2_length in Hall.
    + intros j p x Hj Hx.
      destruct (Forall2_lookup_l _ _ _ _ _ Hpos Hj) as (i & Hi & Hp).
      apply (IndexedArray_getitem_scalar self dt data p i x Hc Hp).
      destruct (Forall2_lookup_l _ _ _ _ _ Hall Hi) as (x' & Hx' & Hread).
      congruence.
  - intros Hall. apply Forall2_same_length_lookup. split.
    + rewrite <- (Forall2_length _ _ _ Hpos). by apply Forall2_length in Hall.
    + intros j i x Hi Hx.
      destruct (Forall2_lookup_r _ _ _ _ _ Hpos Hi) as (p & Hj & Hp).
      apply (IndexedArray_getitem_scalar self dt data p i x Hc Hp).
      destruct (Forall2_lookup_l _ _ _ _ _ Hall Hj) as (x' & Hx' & Hread).
      congruence.
Qed.

Lemma X7_selection_read_is_positionwise_witness :
  IndexedArray.__getitem__ ex_indexed (KSel (SSlice (Some 1) None None)) =
    Ok (IndexedArray.Value (VArray (Plain (mk_ndarray (mk_dtype 8 true) [10; 20])))).
Proof.
  apply (X7_selection_read_is_positionwise ex_indexed (mk_dtype 8 true) [10; 20; 30]
           (SSlice (Some 1) None None) [1%nat; 2%nat] [10; 20] eq_refl eq_refl eq_refl).
  repeat constructor.
Defined.

(** X8: on a writeable IndexedArray over a numeric content, assigning a
    scalar the content's element type can represent to an in-range
    position stores the scalar in the one content slot the position's
    index entry addresses, and leaves the index alone: afterwards every
    position whose index entry addresses that slot (through a negative
    entry as well) reads the scalar, and every other position reads what
    it read before. *)
Theorem X8_write_reaches_aliased_positions (self : IndexedArray.t) (dt : dtype)
    (data : list Z) (p : nat) (i : Z) (k : nat) (v : Z) :
  IndexedArray._writeable self = true ->
  IndexedArray._content self = Plain (mk_ndarray dt data) ->
  IndexedArray._index self !! p = Some i ->
  norm_index (length data) i = Some k ->
  representable dt v ->
  exists self',
    IndexedArray.__setitem__ (KSel (SInt (Z.of_nat p))) (RScalar v) self = (Ok tt, self') /\
    IndexedArray._index self' = IndexedArray._index self /\
    forall (q : nat) (i' : Z) (k' : nat),
      IndexedArray._index self !! q = Some i' ->
      norm_index (length data) i' = Some k' ->
      IndexedArray.__getitem__ self' (KSel (SInt (Z.of_nat q))) =
        if decide (k' = k) then Ok (IndexedArray.Value (VScalar v))
        else IndexedArray.__getitem__ self (KSel (SInt (Z.of_nat q))).
Proof.
  intros Hw Hc Hp Hk Hv.
  pose proof (norm_index_lt _ _ _ Hk) as Hlt.
  eexists. split; [|split].
  - unfold IndexedArray.__setitem__, IndexedArray.assign, np_index.
    rewrite Hw, (np_getitem_nat _ _ _ Hp), Hc. simpl.
    rewrite (content_put_plain_one _ _ _ _ _ Hk). reflexivity.
  - done.
  - intros q i' k' Hq Hk'. simpl.
    pose proof (norm_index_lt _ _ _ Hk') as Hlt'.
    destruct (lookup_lt_is_Some_2 data k' Hlt') as [x Hx].
    destruct (decide (k' = k)) as [->|Hne].
    + eapply (IndexedArray_getitem_plain _ q i'); simpl; [done|reflexivity| |].
      * by rewrite length_insert.
      * rewrite Hv. by apply list_lookup_insert_eq.
    + rewrite (IndexedArray_getitem_plain self q i' dt data k' x Hq Hc Hk' Hx).
      eapply (IndexedArray_getitem_plain _ q i'); simpl; [done|reflexivity| |].
      * by rewrite length_insert.
      * by rewrite list_lookup_insert_ne.
Qed.

Lemma X8_write_reaches_aliased_positions_witness :
  exists self',
    IndexedArray.__setitem__ (KSel (SInt (Z.of_nat 0))) (RScalar 7)
      (IndexedArray.mk [2; 0; -1] (Plain (mk_ndarray (mk_dtype 1 false) [10; 20; 30])) true) =
      (Ok tt, self') /\
    IndexedArray.__getitem__ self' (KSel (SInt (Z.of_nat 2))) =
      Ok (IndexedArray.Value (VScalar 7)).
Proof.
  destruct (X8_write_reaches_aliased_positions
              (IndexedArray.mk [2; 0; -1] (Plain (mk_ndarray (mk_dtype 1 false) [10; 20; 30]))
                 true)
              (mk_dtype 1 false) [10; 20; 30] 0%nat 2 2%nat 7 eq_refl eq_refl eq_refl eq_refl
              eq_refl)
    as (self' & Hset & _ & Hread).
  exists self'. split; [exact Hset|].
  exact (Hread 2%nat (-1) 2%nat eq_refl eq_refl).
Defined.

Lemma assoc_set_same {A} (name : string) (a : A) (cols : list (string * A)) :
  assoc name cols = Some a -> assoc_set name a cols = cols.
Proof.
  induction cols as [|[n b] cols IH]; simpl; [done|].
  destruct (decide (n = name)) as [->|Hne].
  - by intros [= ->].
  - intros Ha. by rewrite IH.
Qed.

Lemma assoc_set_lookup {A} (name : string) (a b : A) (cols : list (string * A)) :
  assoc name cols = Some b -> assoc name (assoc_set name a cols) = Some a.
Proof.
  induction cols as [|[n c] cols IH]; simpl; [done|].
  destruct (decide (n = name)) as [->|Hne]; simpl.
  - by rewrite decide_True.
  - rewrite decide_False by done. exact IH.
Qed.

Lemma assoc_set_other {A} (name name' : string) (a : A) (cols : list (string * A)) :
  name' <> name -> assoc name' (assoc_set name a cols) = assoc name' cols.
Proof.
  intros Hne. induction cols as [|[n c] cols IH]; simpl; [done|].
  destruct (decide (n = name)) as [->|Hn]; simpl.
  - by rewrite !decide_False by done.
  - destruct (decide (n = name')); [done|]. exact IH.
Qed.

(** X9: a view flagged read-only is never changed by an assignment,
    whatever the key and the right-hand side, and the assignment never
    succeeds: this holds for IndexedArray (an assignment by column name
    included, which goes through a read-only view of the column),
    IndexedMaskedArray and UnionArray; a positional assignment to a
    read-only IndexedArray or IndexedMaskedArray raises
    "assignment destination is read-only" before the key is looked at. *)
Theorem X9_read_only_views_never_change :
  (forall (self : IndexedArray.t) (where_ : pykey) (what : rhs Z),
     IndexedArray._writeable self = false ->
     snd (IndexedArray.__setitem__ where_ what self) = self /\
     is_Ok (fst (IndexedArray.__setitem__ where_ what self)) = false /\
     ((forall name, where_ <> KStr name) ->
      fst (IndexedArray.__setitem__ where_ what self) = Err read_only)) /\
  (forall (self : IndexedMaskedArray.t) (where_ : pykey) (what : operand),
     IndexedMaskedArray._writeable self = false ->
     snd (IndexedMaskedArray.__setitem__ where_ what self) = self /\
     is_Ok (fst (IndexedMaskedArray.__setitem__ where_ what self)) = false /\
     ((forall name, where_ <> KStr name) ->
      fst (IndexedMaskedArray.__setitem__ where_ what self) = Err read_only)) /\
  (forall (self : UnionArray.t) (where_ : pykey) (what : plain_operand),
     UnionArray._writeable self = false ->
     snd (UnionArray.__setitem__ where_ what self) = self /\
     is_Ok (fst (UnionArray.__setitem__ where_ what self)) = false /\
     ((forall name, where_ <> KStr name) ->
      fst (UnionArray.__setitem__ where_ what self) = Err read_only)).
Proof.
  split; [|split].
  - intros [ix c w] where_ what Hw. simpl in Hw. subst w.
    unfold IndexedArray.__setitem__, IndexedArray.assign.
    destruct where_ as [name|s|t]; simpl; try (split; [done|split; [done|done]]).
    destruct c as [a|cols]; simpl; [split; [done|split; [done|]]|].
    + intros Hname. by destruct (Hname name).
    + destruct (assoc name cols) as [a|] eqn:Ha; simpl.
      * rewrite (assoc_set_same _ _ _ Ha). split; [done|split; [done|]].
        intros Hname. by destruct (Hname name).
      * split; [done|split; [done|]]. intros Hname. by destruct (Hname name).
  - intros self where_ what Hw.
    unfold IndexedMaskedArray.__setitem__, act_bind, act_get, act_raise.
    destruct where_ as [name|s|t]; simpl; rewrite ?Hw; simpl;
      (split; [done|split; [done|]]); try done.
    intros Hname. by destruct (Hname name).
  - intros self where_ what Hw.
    unfold UnionArray.__setitem__, act_bind, act_get, act_raise, act_lift.
    destruct where_ as [name|s|t]; simpl; rewrite ?Hw; simpl;
      try (split; [done|split; [done|done]]).
    destruct (UnionArray.project self name); simpl; (split; [done|split; [done|]]);
      intros Hname; by destruct (Hname name).
Qed.

Lemma X9_read_only_views_never_change_witness :
  IndexedArray.__setitem__ (KStr "x") (RScalar 1)
    (IndexedArray.mk [0] (Columns [("x"%string, mk_ndarray (mk_dtype 8 true) [5])]) false) =
    (Err read_only,
     IndexedArray.mk [0] (Columns [("x"%string, mk_ndarray (mk_dtype 8 true) [5])]) false) /\
  fst (UnionArray.__setitem__ (KSel (SInt 0)) (PScalar 1) (ex_union_mismatch false)) =
    Err read_only.
Proof.
  split; [reflexivity|].
  apply (proj2 (proj2 X9_read_only_views_never_change) (ex_union_mismatch false)
           (KSel (SInt 0)) (PScalar 1) eq_refl).
  intros name. discriminate.
Defined.

Lemma traverse_assoc {A B} (f : A -> result B) (name : string) (cols : list (string * A))
    (a : A) (r : list (string * B)) :
  traverse (fun nc => y ← f (snd nc); Ok (fst nc, y)) cols = Ok r ->
  assoc name cols = Some a ->
  exists y, f a = Ok y /\ assoc name r = Some y.
Proof.
  revert r. induction cols as [|[n b] cols IH]; intros r; [done|].
  cbn [traverse]. simpl.
  destruct (f b) as [y|] eqn:Hy; simpl; [|done].
  destruct (traverse _ cols) as [r'|]; simpl; [|done].
  intros [= <-]. simpl.
  destruct (decide (n = name)) as [->|Hne].
  - intros [= ->]. by exists y.
  - by apply IH.
Qed.

(** X10: on an IndexedArray over a structured content, projecting a column
    commutes with reading a position: when [a[p]] is a row and [name] is
    one of the fields, [a[name]] is a view over that column with the same
    index and flag, and [a[name][p]] is the field [name] of the row
    [a[p]]. *)
Theorem X10_column_of_row (self : IndexedArray.t) (name : string) (p : Z)
    (r : list (string * Z)) (view : IndexedArray.t) :
  IndexedArray.__getitem__ self (KStr name) = Ok (IndexedArray.View view) ->
  IndexedArray.__getitem__ self (KSel (SInt p)) = Ok (IndexedArray.Value (VRow r)) ->
  IndexedArray._index view = IndexedArray._index self /\
  IndexedArray._writeable view = IndexedArray._writeable self /\
  exists x,
    assoc name r = Some x /\
    IndexedArray.__getitem__ view (KSel (SInt p)) = Ok (IndexedArray.Value (VScalar x)).
Proof.
  unfold IndexedArray.__getitem__ at 1 2. unfold np_index, content_field.
  destruct (IndexedArray._content self) as [a|cols] eqn:Hc; [done|].
  destruct (assoc name cols) as [a|] eqn:Ha; simpl; [|done].
  intros [= <-]. simpl. split; [done|split; [done|]].
  destruct (np_getitem (IndexedArray._index self) (SInt p)) as [[i|idx]|] eqn:Hi;
    simpl in *; try done.
  - unfold content_take in *.
    destruct (traverse _ cols) as [r'|] eqn:Hr; simpl in *; [|done].
    injection H as ->.
    destruct (traverse_assoc
                (fun c => x ← ndarray_take c (One i);
                          match x with
                          | One z => Ok z
                          | Many _ => Err IndexError
                          end) name cols a r) as (x & Hx & Hrx).
    { rewrite <- Hr. clear. induction cols as [|[n b] cols IH]; [done|].
      cbn [traverse]. rewrite IH. unfold ndarray_take, np_take. simpl.
      by destruct (np_getitem (nd_data b) (SInt i)) as [[z|zs]|]. }
    { done. }
    exists x. split; [done|].
    unfold IndexedArray.__getitem__, np_index. simpl. rewrite Hi. simpl.
    unfold content_take.
    destruct (ndarray_take a (One i)) as [[z|zs]|]; simpl in *; by simplify_eq.
  - unfold content_take in *. by destruct (traverse _ cols).
Qed.

Lemma X10_column_of_row_witness :
  exists x,
    assoc "y"%string [("x"%string, 6); ("y"%string, 8)] = Some x /\
    IndexedArray.__getitem__
      (IndexedArray.mk [1; 0] (Plain (mk_ndarray (mk_dtype 8 true) [7; 8])) true)
      (KSel (SInt (-2))) = Ok (IndexedArray.Value (VScalar x)).
Proof.
  exact (proj2 (proj2 (X10_column_of_row
           (IndexedArray.mk [1; 0]
              (Columns [("x"%string, mk_ndarray (mk_dtype 8 true) [5; 6]);
                        ("y"%string, mk_ndarray (mk_dtype 8 true) [7; 8])]) true)
           "y"%string (-2) [("x"%string, 6); ("y"%string, 8)]
           (IndexedArray.mk [1; 0] (Plain (mk_ndarray (mk_dtype 8 true) [7; 8])) true)
           eq_refl eq_refl))).
Defined.

Lemma gather_all {A} (pre a : list A) :
  gather (pre ++ a) (seq (length pre) (length a)) = Ok a.
Proof.
  unfold gather. revert pre. induction a as [|x a IH]; intros pre; [done|].
  cbn [length seq traverse].
  rewrite lookup_app_r, Nat.sub_diag by done. simpl.
  specialize (IH (pre ++ [x])).
  rewrite length_app, Nat.add_1_r, <- app_assoc in IH. simpl in IH.
  by rewrite IH.
Qed.

(** [a[:]] is the whole array. *)
Lemma np_getitem_all {A} (a : list A) : np_getitem a (SSlice None None None) = Ok (Many a).
Proof.
  unfold np_getitem. rewrite resolve_all. simpl.
  pose proof (gather_all [] a) as Hg. simpl in Hg. by rewrite Hg.
Qed.

Lemma traverse_norm_total (n : nat) (idx : list Z) :
  Forall (fun i => is_Some (norm_index n i)) idx ->
  exists ks,
    traverse (fun i => or_raise IndexError (norm_index n i)) idx = Ok ks /\
    Forall2 (fun i k => norm_index n i = Some k) idx ks.
Proof.
  induction 1 as [|i idx [k Hk] _ (ks & Hks & Hall)].
  - exists []. split; [done|constructor].
  - exists (k :: ks). cbn [traverse]. rewrite Hk. simpl. rewrite Hks. simpl.
    split; [done|]. by constructor.
Qed.

(** X11: on a writeable IndexedArray over a structured content, assigning
    by the name of a numeric column a scalar the column's element type can
    represent, every index entry being in the range of the column,
    succeeds; afterwards every position of the view over that column reads
    the scalar, and the views over the other columns are what they
    were. *)
Theorem X11_column_assignment (self : IndexedArray.t) (name : string)
    (cols : list (string * ndarray)) (dt : dtype) (data : list Z) (v : Z) :
  IndexedArray._writeable self = true ->
  IndexedArray._content self = Columns cols ->
  assoc name cols = Some (mk_ndarray dt data) ->
  Forall (fun i => is_Some (norm_index (length data) i)) (IndexedArray._index self) ->
  representable dt v ->
  let self' := snd (IndexedArray.__setitem__ (KStr name) (RScalar v) self) in
  fst (IndexedArray.__setitem__ (KStr name) (RScalar v) self) = Ok tt /\
  (exists view,
     IndexedArray.__getitem__ self' (KStr name) = Ok (IndexedArray.View view) /\
     forall p, (p < length (IndexedArray._index self))%nat ->
       IndexedArray.__getitem__ view (KSel (SInt (Z.of_nat p))) =
         Ok (IndexedArray.Value (VScalar v))) /\
  (forall name', name' <> name ->
     IndexedArray.__getitem__ self' (KStr name') =
       IndexedArray.__getitem__ self (KStr name')).
Proof.
  intros Hw Hc Ha Hrange Hv self'.
  destruct (traverse_norm_total _ _ Hrange) as (ks & Hks & Hall).
  assert (IndexedArray.__setitem__ (KStr name) (RScalar v) self =
          (Ok tt,
           IndexedArray.mk (IndexedArray._index self)
             (Columns (assoc_set name
                         (mk_ndarray dt (scatter data ks (replicate (length ks) (wrap dt v))))
                         cols))
             true)) as Hset.
  { unfold IndexedArray.__setitem__, IndexedArray.assign, np_index, content_field.
    rewrite Hc, Ha, Hw. simpl. rewrite np_getitem_all. simpl.
    unfold content_put, ndarray_put, np_put, np_setitem, resolve. simpl.
    rewrite Hks. simpl. unfold broadcast. simpl. done. }
  subst self'. rewrite Hset. simpl. split; [done|split].
  - eexists. split.
    + unfold IndexedArray.__getitem__, content_field.
      simpl. rewrite (assoc_set_lookup _ _ _ _ Ha). simpl. reflexivity.
    + intros p Hp.
      destruct (lookup_lt_is_Some_2 _ _ Hp) as [i Hi].
      destruct (Forall2_lookup_l _ _ _ _ _ Hall Hi) as (k & Hk & Hnorm).
      pose proof (norm_index_lt _ _ _ Hnorm) as Hlt.
      eapply (IndexedArray_getitem_plain _ p i); simpl; [done|reflexivity| |].
      * rewrite scatter_length. exact Hnorm.
      * rewrite <- Hv at 2. apply scatter_replicate_in; [|done].
        by eapply list_elem_of_lookup_2.
  - intros name' Hne. unfold IndexedArray.__getitem__, content_field.
    rewrite Hc. simpl. rewrite (assoc_set_other _ _ _ _ Hne). by rewrite Hw.
Qed.

Lemma X11_column_assignment_witness :
  exists view,
    IndexedArray.__getitem__
      (snd (IndexedArray.__setitem__ (KStr "y") (RScalar 9)
              (IndexedArray.mk [1; 0]
                 (Columns [("x"%string, mk_ndarray (mk_dtype 8 true) [5; 6; 4]);
                           ("y"%string, mk_ndarray (mk_dtype 8 true) [7; 8; 3])]) true)))
      (KStr "y") = Ok (IndexedArray.View view) /\
    IndexedArray.__getitem__ view (KSel (SInt (Z.of_nat 1))) =
      Ok (IndexedArray.Value (VScalar 9)).
Proof.
  assert (Forall (fun i => is_Some (norm_index (length [7; 8; 3]) i)) [1; 0]) as Hrange
    by (repeat constructor; by eexists).
  destruct (X11_column_assignment
              (IndexedArray.mk [1; 0]
                 (Columns [("x"%string, mk_ndarray (mk_dtype 8 true) [5; 6; 4]);
                           ("y"%string, mk_ndarray (mk_dtype 8 true) [7; 8; 3])]) true)
              "y"%string _ (mk_dtype 8 true) [7; 8; 3] 9 eq_refl eq_refl eq_refl Hrange
              eq_refl)
    as (_ & (view & Hview & Hread) & _).
  exists view. split; [exact Hview|]. apply Hread. simpl. lia.
Defined.

(** ** VirtualArray: checks, deletion and [ismaterialized] *)

Section VirtualArrayChecks.
Context {C : Type} `{Cache C}.
Implicit Types self : VirtualArray.t C.

Lemma validate_inv self (a : anyarray) :
  VirtualArray.validate self a = Ok tt ->
  (forall dt, VirtualArray._dtype self = Some dt -> any_dtype a = dt) /\
  (forall sh, VirtualArray._shape self = Some sh -> any_shape a = sh) /\
  any_shape a <> [].
Proof.
  unfold VirtualArray.validate.
  destruct (VirtualArray._dtype self) as [dt|]; simpl.
  - destruct (bool_decide (dt = any_dtype a)) eqn:Hdt; simpl; [|done].
    apply bool_decide_eq_true_1 in Hdt.
    destruct (VirtualArray._shape self) as [sh|]; simpl.
    + destruct (bool_decide (sh = any_shape a)) eqn:Hsh; simpl; [|done].
      apply bool_decide_eq_true_1 in Hsh.
      destruct (any_shape a); simpl; [done|]. intros _.
      split; [by intros ? [= <-]|]. split; [by intros ? [= <-]|done].
    + destruct (any_shape a); simpl; [done|]. intros _.
      split; [by intros ? [= <-]|]. split; done.
  - destruct (VirtualArray._shape self) as [sh|]; simpl.
    + destruct (bool_decide (sh = any_shape a)) eqn:Hsh; simpl; [|done].
      apply bool_decide_eq_true_1 in Hsh.
      destruct (any_shape a); simpl; [done|]. intros _.
      split; [done|]. split; [by intros ? [= <-]|done].
    + destruct (any_shape a); simpl; [done|]. intros _. done.
Qed.

Lemma materialize_inv self (a : anyarray) (s' : VirtualArray.t C) :
  VirtualArray.materialize self = (Ok a, s') ->
  VirtualArray._generator self (VirtualArray.calls self) = Ok a /\
  VirtualArray.validate self a = Ok tt.
Proof.
  unfold VirtualArray.materialize, VirtualArray.generate, act_bind, act_get, act_lift,
    act_put, act_ret, VirtualArray.on_cache.
  destruct (VirtualArray._generator self (VirtualArray.calls self)) as [a0|e]; simpl; [|done].
  change (VirtualArray.validate
            (VirtualArray.set_calls (S (VirtualArray.calls self)) self) a0)
    with (VirtualArray.validate self a0).
  destruct (VirtualArray.validate self a0) as [[]|] eqn:Hv; simpl; [|done].
  destruct (VirtualArray._cache self) as [c|]; simpl.
  - destruct (cache_setitem _ a0 c) as [[[]|] c']; simpl; [|done].
    intros [= <- _]. by split.
  - intros [= <- _]. by split.
Qed.

(** X12: whatever cache is attached, an array that [array] returns fresh
    from the generator (the count of generator calls has changed) came out
    of exactly one call, has the declared element type and the declared
    shape where one was declared, and has at least one axis; and when the
    generator's output fails one of these checks, [materialize] raises the
    error of the check and, the call apart, leaves the view as it was:
    nothing is held and nothing is put in the cache. *)
Theorem X12_declared_type_and_shape_are_enforced self :
  (forall (a : anyarray) (s' : VirtualArray.t C),
     VirtualArray.array self = (Ok a, s') ->
     VirtualArray.calls s' <> VirtualArray.calls self ->
     VirtualArray.calls s' = S (VirtualArray.calls self) /\
     VirtualArray._generator self (VirtualArray.calls self) = Ok a /\
     (forall dt, VirtualArray._dtype self = Some dt -> any_dtype a = dt) /\
     (forall sh, VirtualArray._shape self = Some sh -> any_shape a = sh) /\
     any_shape a <> []) /\
  (forall (a : anyarray) (e : exn),
     VirtualArray._generator self (VirtualArray.calls self) = Ok a ->
     VirtualArray.validate self a = Err e ->
     VirtualArray.materialize self =
       (Err e, VirtualArray.set_calls (S (VirtualArray.calls self)) self)).
Proof.
  split.
  - intros a s' Harr Hcalls.
    assert (exists s0, VirtualArray.materialize s0 = (Ok a, s') /\
                       VirtualArray.calls s0 = VirtualArray.calls self /\
                       VirtualArray._generator s0 = VirtualArray._generator self /\
                       VirtualArray._dtype s0 = VirtualArray._dtype self /\
                       VirtualArray._shape s0 = VirtualArray._shape self)
      as (s0 & Hm & Hc0 & Hg0 & Hd0 & Hs0).
    { revert Harr. unfold VirtualArray.array, act_bind, act_get, act_ret. simpl.
      destruct (VirtualArray._array self) as [|something|k].
      - intros Hm. by exists self.
      - destruct (VirtualArray._cache self) as [c|].
        + unfold VirtualArray.on_cache.
          destruct (cache_setitem _ something c) as [[[]|] c']; simpl; [|done].
          intros [= <- <-]. by destruct Hcalls.
        + intros [= <- <-]. by destruct Hcalls.
      - destruct (VirtualArray._cache self) as [c|].
        + unfold VirtualArray.on_cache.
          destruct (cache_getitem k c) as [[a0|e] c']; simpl.
          * intros [= <- <-]. by destruct Hcalls.
          * intros Hm. by eexists.
        + intros Hm. by exists self. }
    pose proof (materialize_calls s0) as Hn. rewrite Hm in Hn. simpl in Hn.
    destruct (materialize_inv _ _ _ Hm) as [Hgen Hval].
    destruct (validate_inv _ _ Hval) as (Hdt & Hsh & Hax).
    rewrite Hc0 in Hn. rewrite Hg0, Hc0 in Hgen. rewrite Hd0 in Hdt. rewrite Hs0 in Hsh.
    done.
  - intros a e Hg Hv.
    unfold VirtualArray.materialize, VirtualArray.generate, act_bind, act_get, act_lift.
    rewrite Hg. simpl.
    change (VirtualArray.validate
              (VirtualArray.set_calls (S (VirtualArray.calls self)) self) a)
      with (VirtualArray.validate self a).
    by rewrite Hv.
Qed.

End VirtualArrayChecks.

Lemma X12_declared_type_and_shape_are_enforced_witness :
  any_shape (ex_array 0) = [3%nat] /\
  VirtualArray.materialize
    (VirtualArray.mk (fun n => Ok (ex_array (Z.of_nat n))) 0 (Some (∅ : gmap key anyarray))
       None VirtualArray.Nothing None (Some [2%nat]) 42) =
    (Err (ValueError "materialized array has shape {0}, expected shape {1}"),
     VirtualArray.mk (fun n => Ok (ex_array (Z.of_nat n))) 1 (Some (∅ : gmap key anyarray))
       None VirtualArray.Nothing None (Some [2%nat]) 42).
Proof.
  split.
  - assert (VirtualArray.calls (snd (VirtualArray.array (ex_lazy (Some ∅)))) <>
            VirtualArray.calls (ex_lazy (Some ∅))) as Hcalls by (vm_compute; lia).
    exact (proj1 (proj2 (proj2 (proj2
             (proj1 (X12_declared_type_and_shape_are_enforced (ex_lazy (Some ∅)))
                (ex_array 0) _ eq_refl Hcalls)))) [3%nat] eq_refl).
  - exact (proj2 (X12_declared_type_and_shape_are_enforced
                    (VirtualArray.mk (fun n => Ok (ex_array (Z.of_nat n))) 0
                       (Some (∅ : gmap key anyarray)) None VirtualArray.Nothing None
                       (Some [2%nat]) 42))
             (ex_array 0) _ eq_refl eq_refl).
Defined.

(** X13: with a [dict] for cache, deleting a VirtualArray never raises and
    never calls the generator; it leaves the view and every entry of the
    cache under a persistent key as they were, and when the view holds a
    transient key the cache has no entry under that key afterwards.  So a
    view without a persistent key that was materialized into the cache
    takes its entry out again when it is deleted, and a view with a
    persistent key leaves its entry in. *)
Theorem X13_deletion_drops_transient_entries (self : VirtualArray.t (gmap key anyarray))
    (c : gmap key anyarray) :
  VirtualArray._cache self = Some c ->
  (exists c',
     VirtualArray.__del__ self = (Ok tt, VirtualArray.set_cache (Some c') self) /\
     (forall name, c' !! PersistentKey name = c !! PersistentKey name) /\
     (forall i, VirtualArray._array self = VirtualArray.HeldKey (TransientKey i) ->
        c' = delete (TransientKey i) c) /\
     ((forall i, VirtualArray._array self <> VirtualArray.HeldKey (TransientKey i)) ->
        c' = c)) /\
  (forall a : anyarray,
     VirtualArray._array self = VirtualArray.Nothing ->
     VirtualArray._generator self (VirtualArray.calls self) = Ok a ->
     VirtualArray.validate self a = Ok tt ->
     VirtualArray._cache (snd (VirtualArray.__del__ (snd (VirtualArray.array self)))) =
       Some (match VirtualArray._persistentkey self with
             | Some name => <[PersistentKey name := a]> c
             | None => delete (TransientKey (VirtualArray.id self)) c
             end)).
Proof.
  intros Hc. split.
  - unfold VirtualArray.__del__, VirtualArray.on_cache. rewrite Hc.
    destruct (VirtualArray._array self) as [|something|[name|i]] eqn:Harr;
      try (exists c; split; [by destruct self; simpl in *; subst|];
           split; [done|]; split; [intros i; done|done]).
    simpl. destruct (c !! TransientKey i) as [x|] eqn:Hi.
    + exists (delete (TransientKey i) c). split; [done|]. split; [|split].
      * intros name. by apply lookup_delete_ne.
      * by intros ? [= <-].
      * intros Hno. by destruct (Hno i).
    + exists c. split; [done|]. split; [done|]. split.
      * intros ? [= <-]. symmetry. by apply delete_id.
      * done.
  - intros a Hn Hg Hv. rewrite (array_nothing _ Hn).
    pose proof (materialize_ok self a Hg Hv) as Hm. rewrite Hc in Hm.
    rewrite (Hm _ eq_refl). simpl.
    unfold VirtualArray.__del__, VirtualArray.on_cache, VirtualArray.key_of. simpl.
    destruct (VirtualArray._persistentkey self) as [name|]; simpl; [done|].
    rewrite lookup_insert_eq. simpl. by rewrite delete_insert_eq.
Qed.

Lemma X13_deletion_drops_transient_entries_witness :
  VirtualArray._cache
    (snd (VirtualArray.__del__
            (snd (VirtualArray.array (ex_lazy (Some {[TransientKey 42 := ex_array 5]})))))) =
    Some (delete (TransientKey 42) {[TransientKey 42 := ex_array 5]}).
Proof.
  exact (proj2 (X13_deletion_drops_transient_entries
                  (ex_lazy (Some {[TransientKey 42 := ex_array 5]}))
                  {[TransientKey 42 := ex_array 5]} eq_refl)
           (ex_array 0) eq_refl eq_refl eq_refl).
Defined.

(** X14: with no cache or a [dict] for cache, [ismaterialized] tells
    whether the next access of [array] calls the generator: when it is
    true the access returns an array and leaves the view, the count of
    calls included, as it was; when it is false the access calls the
    generator exactly once. *)
Theorem X14_ismaterialized_predicts_generator_call
    (self : VirtualArray.t (gmap key anyarray)) (b : bool) :
  VirtualArray.ismaterialized self = Ok b ->
  if b then exists a, VirtualArray.array self = (Ok a, self)
  else VirtualArray.calls (snd (VirtualArray.array self)) = S (VirtualArray.calls self).
Proof.
  unfold VirtualArray.ismaterialized.
  destruct (VirtualArray._cache self) as [c|] eqn:Hc;
    destruct (VirtualArray._array self) as [|a|k] eqn:Harr; try done; intros [= <-].
  - rewrite (array_nothing _ Harr). apply materialize_calls.
  - simpl. destruct (c !! k) as [a|] eqn:Hk.
    + rewrite bool_decide_eq_true_2 by (by eexists).
      exists a. apply array_present. right. by exists c, k.
    + rewrite bool_decide_eq_false_2 by (by intros [? ?]).
      rewrite (array_evicted _ _ _ Hc Harr Hk). apply materialize_calls.
  - rewrite (array_nothing _ Harr). apply materialize_calls.
  - exists a. apply array_present. by left.
  - assert (VirtualArray.array self = VirtualArray.materialize self) as ->.
    { unfold VirtualArray.array, act_bind, act_get. simpl. by rewrite Harr, Hc. }
    apply materialize_calls.
Qed.

Lemma X14_ismaterialized_predicts_generator_call_witness :
  VirtualArray.calls (snd (VirtualArray.array ex_evicted)) = 2%nat.
Proof.
  exact (X14_ismaterialized_predicts_generator_call ex_evicted false eq_refl).
Defined.

(** ** UnionArray: sub-views and writes *)

Lemma UnionArray_getitem_int (self : UnionArray.t) (p : nat) (tg i : Z) :
  shape (UnionArray._tags self) = shape (UnionArray._index self) ->
  UnionArray._tags self !! p = Some tg ->
  UnionArray._index self !! p = Some i ->
  UnionArray.__getitem__ self (KSel (SInt (Z.of_nat p))) =
    ('(_, c) ← UnionArray.content_at self tg;
     v ← content_take c (One i);
     Ok (UnionArray.Value v)).
Proof.
  intros Hsh Ht Hi.
  by rewrite (UnionArray_getitem_checked self _ (One tg) (One i) Hsh
                (np_getitem_nat _ _ _ Ht) (np_getitem_nat _ _ _ Hi) eq_refl).
Qed.

(** Tags and index sliced alike. *)
Lemma UnionArray_sliced (self : UnionArray.t) (head : selector) (ps : list nat) :
  shape (UnionArray._tags self) = shape (UnionArray._index self) ->
  is_integer head = false ->
  resolve (length (UnionArray._tags self)) head = Ok ps ->
  exists ts ix,
    np_getitem (UnionArray._tags self) head = Ok (Many ts) /\
    np_getitem (UnionArray._index self) head = Ok (Many ix) /\
    length ts = length ps /\ length ix = length ps /\
    forall j p, ps !! j = Some p ->
      exists tg i, ts !! j = Some tg /\ ix !! j = Some i /\
                   UnionArray._tags self !! p = Some tg /\
                   UnionArray._index self !! p = Some i.
Proof.
  intros Hsh Hint Hps.
  assert (length (UnionArray._tags self) = length (UnionArray._index self)) as Hlen
    by (unfold shape in Hsh; congruence).
  destruct (np_getitem_many _ _ _ Hint Hps) as (ts & Hts & Hgt).
  rewrite Hlen in Hps.
  destruct (np_getitem_many _ _ _ Hint Hps) as (ix & Hix & Hgi).
  exists ts, ix. split; [done|]. split; [done|].
  split; [by apply traverse_length in Hgt|]. split; [by apply traverse_length in Hgi|].
  intros j p Hj.
  destruct (Forall2_lookup_l _ _ _ _ _ (gather_Forall2 _ _ _ Hgt) Hj) as (tg & Htg & Hp).
  destruct (Forall2_lookup_l _ _ _ _ _ (gather_Forall2 _ _ _ Hgi) Hj) as (i & Hi & Hp').
  by exists tg, i.
Qed.

(** X15: when a read of several positions of a UnionArray returns a
    UnionArray (the selected tags are not all the same), the result shares
    the contents, has one entry per selected position, and reading its
    position [j] yields what reading the [j]-th selected position of the
    original yields. *)
Theorem X15_union_subview_reads_through (self : UnionArray.t) (head : selector)
    (ps : list nat) (view : UnionArray.t) :
  shape (UnionArray._tags self) = shape (UnionArray._index self) ->
  is_integer head = false ->
  resolve (length (UnionArray._tags self)) head = Ok ps ->
  UnionArray.__getitem__ self (KSel head) = Ok (UnionArray.View view) ->
  UnionArray._contents view = UnionArray._contents self /\
  length (UnionArray._tags view) = length ps /\
  length (UnionArray._index view) = length ps /\
  forall j p, ps !! j = Some p ->
    UnionArray.__getitem__ view (KSel (SInt (Z.of_nat j))) =
      UnionArray.__getitem__ self (KSel (SInt (Z.of_nat p))).
Proof.
  intros Hsh Hint Hps Hview.
  destruct (UnionArray_sliced self head ps Hsh Hint Hps)
    as (ts & ix & Hts & Hix & Hlt & Hli & Hpos).
  assert (UnionArray.picked_shape (Many ts) = UnionArray.picked_shape (Many ix)) as Hsame
    by (simpl; unfold shape; congruence).
  rewrite (UnionArray_getitem_checked self _ _ _ Hsh Hts Hix Hsame) in Hview. simpl in Hview.
  assert (view = UnionArray.mk ts ix (UnionArray._contents self) (UnionArray._writeable self))
    as ->.
  { destruct (np_unique ts) as [|u [|u' us]]; try (by injection Hview as <-).
    destruct (UnionArray.content_at self u) as [[k c]|]; simpl in Hview; [|done].
    by destruct (content_take c (Many ix)). }
  simpl. split; [done|]. split; [done|]. split; [done|].
  intros j p Hj. destruct (Hpos j p Hj) as (tg & i & Htg & Hi & Hptg & Hpi).
  rewrite (UnionArray_getitem_int _ j tg i) by (simpl; unfold shape; congruence || done).
  by rewrite (UnionArray_getitem_int self p tg i Hsh Hptg Hpi).
Qed.

Lemma X15_union_subview_reads_through_witness :
  UnionArray.__getitem__
    (UnionArray.mk [1; 0] [0; 1] (UnionArray._contents ex_union) true)
    (KSel (SInt (Z.of_nat 1))) =
  UnionArray.__getitem__ ex_union (KSel (SInt (Z.of_nat 2))).
Proof.
  exact (proj2 (proj2 (proj2
           (X15_union_subview_reads_through ex_union (SSlice (Some 1) None None)
              [1%nat; 2%nat]
              (UnionArray.mk [1; 0] [0; 1] (UnionArray._contents ex_union) true)
              eq_refl eq_refl eq_refl eq_refl))) 1%nat 2%nat eq_refl).
Defined.

Lemma index_of_lookup (x : Z) (l : list Z) : x ∈ l -> l !! index_of x l = Some x.
Proof.
  induction l as [|y l IH]; intros Hin; [by apply elem_of_nil in Hin|].
  simpl. destruct (decide (x = y)) as [->|Hne]; [done|].
  apply elem_of_cons in Hin as [->|Hin]; [done|]. simpl. by apply IH.
Qed.

(** What a boolean array computed from [inverse] selects of [idx]. *)
Lemma elem_of_selected {A} (idx : list A) (inverse : list nat) (f : nat -> bool) (x : A) :
  length inverse = length idx ->
  x ∈ map fst (filter (fun p => snd p = true) (zip idx (map f inverse))) <->
  exists j i, idx !! j = Some x /\ inverse !! j = Some i /\ f i = true.
Proof.
  intros Hlen. rewrite list_elem_of_fmap. split.
  - intros ([y b] & -> & Hq). apply list_elem_of_filter in Hq as [Hb Hq].
    simpl in Hb. subst b. apply list_elem_of_lookup in Hq as [j Hj].
    apply lookup_zip_with_Some in Hj as (x' & b & [= <- Hb] & Hx & Hy).
    rewrite list_lookup_fmap in Hy.
    destruct (inverse !! j) as [i|] eqn:Hi; [|done]. simpl in Hy.
    exists j, i. split; [done|]. split; [done|]. congruence.
  - intros (j & i & Hx & Hi & Hf). exists (x, true). split; [done|].
    apply list_elem_of_filter. split; [done|].
    apply list_elem_of_lookup. exists j.
    apply lookup_zip_with_Some. exists x, true. split; [done|]. split; [done|].
    by rewrite list_lookup_fmap, Hi, <- Hf.
Qed.

(** One turn of the loop of [UnionArray.__setitem__] for a scalar: the
    scalar is stored in the slots of one content that the selected index
    entries address. *)
Lemma route_scalar_step (s : UnionArray.t) (inverse : list nat) (idx : list Z) (v : Z)
    (i : nat) (tag : Z) (k : nat) (dt : dtype) (data : list Z) :
  length inverse = length idx ->
  norm_index (length (UnionArray._contents s)) tag = Some k ->
  UnionArray._contents s !! k = Some (Plain (mk_ndarray dt data)) ->
  (forall j x, inverse !! j = Some i -> idx !! j = Some x ->
     is_Some (norm_index (length data) x)) ->
  exists ks,
    UnionArray.route inverse (Many idx) [] (fun _ => Ok (RScalar v)) i tag s =
      (Ok tt,
       UnionArray.set_contents
         (<[k := Plain (mk_ndarray dt (scatter data ks (replicate (length ks) (wrap dt v))))]>
            (UnionArray._contents s)) s) /\
    (forall j x sl, inverse !! j = Some i -> idx !! j = Some x ->
       norm_index (length data) x = Some sl -> sl ∈ ks) /\
    (forall sl, sl ∈ ks -> (sl < length data)%nat).
Proof.
  intros Hlen Hk Hc Hrange.
  set (sel := map fst (filter (fun p : Z * bool => snd p = true)
                         (zip idx (map (fun j => bool_decide (j = i)) inverse)))).
  assert (select idx (map (fun j => bool_decide (j = i)) inverse) = Ok sel) as Hsel
    by (apply select_filter; by rewrite length_map).
  assert (Forall (fun x => is_Some (norm_index (length data) x)) sel) as Hall.
  { apply Forall_forall. intros x Hx.
    apply (elem_of_selected idx inverse _ x Hlen) in Hx as (j & i' & Hj & Hi & Hb).
    apply bool_decide_eq_true_1 in Hb. subst i'. by apply (Hrange j). }
  destruct (traverse_norm_total _ _ Hall) as (ks & Hks & Hnorm).
  exists ks. split; [|split].
  - unfold UnionArray.route, UnionArray.content_at. simpl.
    rewrite Hk. simpl. rewrite Hc. simpl. rewrite Hsel. simpl.
    unfold content_put, ndarray_put, np_put, np_setitem, resolve. simpl.
    rewrite Hks. simpl. unfold broadcast. simpl. done.
  - intros j x sl Hi Hx Hsl.
    assert (x ∈ sel) as Hin.
    { apply (elem_of_selected idx inverse _ x Hlen). exists j, i.
      split; [done|]. split; [done|]. by apply bool_decide_eq_true_2. }
    apply list_elem_of_lookup in Hin as [n Hn].
    destruct (Forall2_lookup_l _ _ _ _ _ Hnorm Hn) as (sl' & Hsl' & Heq).
    assert (sl' = sl) as -> by congruence.
    by eapply list_elem_of_lookup_2.
  - intros sl Hin. apply list_elem_of_lookup in Hin as [n Hn].
    destruct (Forall2_lookup_r _ _ _ _ _ Hnorm Hn) as (x & _ & Hx).
    by eapply norm_index_lt.
Qed.

Section UnionWrite.
Variables (cs0 : list content) (uniques : list Z) (inverse : list nat) (idx : list Z) (v : Z).
Hypothesis Hlen : length inverse = length idx.
Hypothesis Htag :
  forall i tag, uniques !! i = Some tag ->
    exists k dt data,
      norm_index (length cs0) tag = Some k /\ cs0 !! k = Some (Plain (mk_ndarray dt data)).
Hypothesis Hpos :
  forall j i x tag k dt data,
    inverse !! j = Some i -> idx !! j = Some x -> uniques !! i = Some tag ->
    norm_index (length cs0) tag = Some k -> cs0 !! k = Some (Plain (mk_ndarray dt data)) ->
    is_Some (norm_index (length data) x).

(** The loop over the distinct tags, from turn [i0] on: every turn
    succeeds, what earlier turns stored stays stored, and every slot that
    a selected position of a later turn addresses holds the scalar at the
    end. *)
Lemma route_from_scalar (us : list Z) (i0 : nat) (s : UnionArray.t)
    (W : nat -> nat -> Prop) :
  drop i0 uniques = us ->
  same_layout cs0 (UnionArray._contents s) ->
  (forall k sl, W k sl -> holds_at (UnionArray._contents s) k sl v) ->
  exists s',
    UnionArray.route_from inverse (Many idx) [] (fun _ => Ok (RScalar v)) i0 us s =
      (Ok tt, s') /\
    UnionArray._tags s' = UnionArray._tags s /\
    UnionArray._index s' = UnionArray._index s /\
    UnionArray._writeable s' = UnionArray._writeable s /\
    same_layout cs0 (UnionArray._contents s') /\
    (forall k sl, W k sl -> holds_at (UnionArray._contents s') k sl v) /\
    (forall j i x tag k dt data sl,
       (i0 <= i)%nat ->
       inverse !! j = Some i -> idx !! j = Some x -> uniques !! i = Some tag ->
       norm_index (length cs0) tag = Some k -> cs0 !! k = Some (Plain (mk_ndarray dt data)) ->
       norm_index (length data) x = Some sl ->
       holds_at (UnionArray._contents s') k sl v).
Proof.
  revert i0 s W. induction us as [|tag rest IH]; intros i0 s W Hdrop Hlay HW.
  - exists s. split; [done|]. do 5 (split; [done|]).
    intros j i x tag k dt data sl Hle Hi Hx Htg.
    assert (drop i0 uniques !! (i - i0)%nat = Some tag) as Hd.
    { rewrite lookup_drop. by replace (i0 + (i - i0))%nat with i by lia. }
    by rewrite Hdrop in Hd.
  - assert (uniques !! i0 = Some tag) as Hi0.
    { pose proof (lookup_drop uniques i0 0) as Hd. rewrite Hdrop in Hd.
      simpl in Hd. by rewrite Nat.add_0_r in Hd. }
    assert (drop (S i0) uniques = rest) as Hrest.
    { rewrite (drop_S _ _ _ Hi0) in Hdrop. by injection Hdrop. }
    destruct (Htag i0 tag Hi0) as (k & dt & data & Hk & Hc).
    destruct Hlay as [Hlencs Hlay].
    destruct (Hlay k dt data Hc) as (data' & Hc' & Hld).
    destruct (route_scalar_step s inverse idx v i0 tag k dt data' Hlen) as (ks & Hstep & Hin & Hlt).
    { by rewrite Hlencs. }
    { done. }
    { intros j x Hj Hx. rewrite Hld. by eapply (Hpos j i0 x tag k dt data). }
    set (s1 := UnionArray.set_contents
                 (<[k := Plain (mk_ndarray dt
                                  (scatter data' ks (replicate (length ks) (wrap dt v))))]>
                    (UnionArray._contents s)) s) in *.
    assert (k < length (UnionArray._contents s))%nat as Hklt by (by eapply lookup_lt_Some).
    assert (same_layout cs0 (UnionArray._contents s1)) as Hlay1.
    { split; [simpl; by rewrite length_insert|].
      intros k' dt' d' Hk'. simpl. destruct (decide (k' = k)) as [->|Hne].
      - rewrite Hc in Hk'. injection Hk' as <- <-.
        eexists. rewrite list_lookup_insert_eq by done. split; [done|].
        by rewrite scatter_length.
      - rewrite list_lookup_insert_ne by done. by apply Hlay. }
    assert (forall k' sl, W k' sl \/ (k' = k /\ sl ∈ ks) ->
                          holds_at (UnionArray._contents s1) k' sl v) as HW1.
    { intros k' sl [Hw|[-> Hsl]].
      - destruct (HW k' sl Hw) as (dt' & d' & Hk' & Hv). unfold holds_at. simpl.
        destruct (decide (k' = k)) as [->|Hne].
        + rewrite Hc' in Hk'. injection Hk' as <- <-.
          exists dt. eexists. rewrite list_lookup_insert_eq by done. split; [done|].
          destruct (scatter_replicate_lookup data' ks (length ks) (wrap dt v) sl)
            as [Heq|[_ Heq]]; congruence.
        + exists dt', d'. by rewrite list_lookup_insert_ne.
      - exists dt. eexists. simpl. rewrite list_lookup_insert_eq by done. split; [done|].
        apply scatter_replicate_in; [done|]. by apply Hlt. }
    destruct (IH (S i0) s1 (fun k' sl => W k' sl \/ (k' = k /\ sl ∈ ks)) Hrest Hlay1 HW1)
      as (s' & Hloop & Ht' & Hi' & Hw' & Hlay' & HW' & Hnew).
    exists s'. split.
    { cbn [UnionArray.route_from]. unfold act_bind. by rewrite Hstep. }
    do 4 (split; [done|]). split.
    { intros k' sl Hw. apply HW'. by left. }
    intros j i x tag' k' dt' d' sl Hle Hj Hx Htg Hk' Hcs Hsl.
    destruct (decide (i = i0)) as [->|Hne].
    + assert (tag' = tag) as -> by congruence.
      assert (k' = k) as -> by congruence.
      rewrite Hc in Hcs. injection Hcs as <- <-.
      apply HW'. right. split; [done|]. apply (Hin j x sl Hj Hx). by rewrite Hld.
    + apply (Hnew j i x tag' k' dt' d' sl); try done. lia.
Qed.

End UnionWrite.

Lemma union_slot_inv (self : UnionArray.t) (p k sl : nat) (dt : dtype) :
  union_slot self p = Some (k, sl, dt) ->
  exists tg i data,
    UnionArray._tags self !! p = Some tg /\
    UnionArray._index self !! p = Some i /\
    norm_index (length (UnionArray._contents self)) tg = Some k /\
    UnionArray._contents self !! k = Some (Plain (mk_ndarray dt data)) /\
    norm_index (length data) i = Some sl.
Proof.
  unfold union_slot.
  destruct (UnionArray._tags self !! p) as [tg|]; simpl; [|done].
  destruct (UnionArray._index self !! p) as [i|]; simpl; [|done].
  destruct (norm_index (length (UnionArray._contents self)) tg) as [k'|] eqn:Hk;
    simpl; [|done].
  destruct (UnionArray._contents self !! k') as [[[dt' data]|cols]|] eqn:Hc; simpl; try done.
  destruct (norm_index (length data) i) as [sl'|] eqn:Hsl; simpl; [|done].
  intros [= <- <- <-]. by exists tg, i, data.
Qed.

(** X16: on a writeable UnionArray with matching tag and index shapes,
    assigning a scalar to a selection of several positions (a slice, an
    integer array, a boolean array), each of which addresses a slot of a
    numeric content whose element type can represent the scalar, succeeds;
    tags and index are left alone, the scalar is routed by tag into the
    contents, and afterwards every selected position reads the scalar. *)
Theorem X16_union_scalar_write_read (self : UnionArray.t) (head : selector)
    (ps : list nat) (v : Z) :
  UnionArray._writeable self = true ->
  shape (UnionArray._tags self) = shape (UnionArray._index self) ->
  is_integer head = false ->
  resolve (length (UnionArray._tags self)) head = Ok ps ->
  (forall p, p ∈ ps ->
     exists k sl dt, union_slot self p = Some (k, sl, dt) /\ representable dt v) ->
  let r := UnionArray.__setitem__ (KSel head) (PScalar v) self in
  fst r = Ok tt /\
  UnionArray._tags (snd r) = UnionArray._tags self /\
  UnionArray._index (snd r) = UnionArray._index self /\
  forall p,
    p ∈ ps ->
    UnionArray.__getitem__ (snd r) (KSel (SInt (Z.of_nat p))) =
      Ok (UnionArray.Value (VScalar v)).
Proof.
  intros Hw Hsh Hint Hps Hrep r.
  assert (forall p, p ∈ ps -> is_Some (union_slot self p)) as Hslots.
  { intros p Hp. destruct (Hrep p Hp) as (k & sl & dt & Hslot & _). by eexists. }
  destruct (UnionArray_sliced self head ps Hsh Hint Hps)
    as (ts & ix & Hts & Hix & Hlt & Hli & Hsel).
  set (uniques := np_unique ts).
  set (inverse := map (fun x => index_of x uniques) ts).
  assert (r = UnionArray.route_from inverse (Many ix) [] (fun _ => Ok (RScalar v)) 0
                uniques self) as Hr.
  { subst r. unfold UnionArray.__setitem__, act_bind, act_get, act_lift. simpl.
    rewrite Hw, (bool_decide_eq_true_2 _ Hsh). simpl. rewrite Hts, Hix. simpl.
    rewrite bool_decide_eq_true_2 by (unfold shape; congruence). done. }
  assert (forall j tg, ts !! j = Some tg ->
            inverse !! j = Some (index_of tg uniques) /\
            uniques !! index_of tg uniques = Some tg) as Hinv.
  { intros j tg Hj. split.
    - subst inverse. by rewrite list_lookup_fmap, Hj.
    - apply index_of_lookup, elem_of_np_unique. by eapply list_elem_of_lookup_2. }
  assert (forall j tg, ts !! j = Some tg ->
            exists p i k sl dt data,
              ps !! j = Some p /\ ix !! j = Some i /\
              UnionArray._tags self !! p = Some tg /\
              UnionArray._index self !! p = Some i /\
              union_slot self p = Some (k, sl, dt) /\
              norm_index (length (UnionArray._contents self)) tg = Some k /\
              UnionArray._contents self !! k = Some (Plain (mk_ndarray dt data)) /\
              norm_index (length data) i = Some sl) as Hat.
  { intros j tg Hj.
    destruct (lookup_lt_is_Some_2 ps j) as [p Hp];
      [rewrite <- Hlt; by eapply lookup_lt_Some|].
    destruct (Hsel j p Hp) as (tg' & i & Htg' & Hi & Hptg & Hpi).
    assert (tg' = tg) as -> by congruence.
    destruct (Hslots p) as [[[k sl] dt] Hslot]; [by eapply list_elem_of_lookup_2|].
    destruct (union_slot_inv _ _ _ _ _ Hslot) as (tg' & i' & data & Ht' & Hi' & Hk & Hc & Hn).
    assert (tg' = tg) as -> by congruence. assert (i' = i) as -> by congruence.
    by exists p, i, k, sl, dt, data. }
  destruct (route_from_scalar (UnionArray._contents self) uniques inverse ix v) with
    (us := uniques) (i0 := 0%nat) (s := self) (W := fun (_ _ : nat) => False)
    as (s' & Hloop & Htags & Hindex & _ & [Hlencs Hlay] & _ & Hheld).
  - subst inverse. rewrite length_map. congruence.
  - intros i tag Hi.
    assert (tag ∈ ts) as Hin.
    { apply elem_of_np_unique. by eapply list_elem_of_lookup_2. }
    apply list_elem_of_lookup in Hin as [j Hj].
    destruct (Hat j tag Hj) as (p & i' & k & sl & dt & data & _ & _ & _ & _ & _ & Hk & Hc & _).
    by exists k, dt, data.
  - intros j i x tag k dt data Hj Hx Htg Hk Hc.
    destruct (lookup_lt_is_Some_2 ts j) as [tg Htj];
      [rewrite Hlt, <- Hli; by eapply lookup_lt_Some|].
    destruct (Hinv j tg Htj) as [Hij Hu].
    assert (tag = tg) as -> by congruence.
    destruct (Hat j tg Htj)
      as (p & i' & k' & sl & dt' & data' & _ & Hi' & _ & _ & _ & Hk' & Hc' & Hn).
    assert (i' = x) as -> by congruence. assert (k' = k) as -> by congruence.
    rewrite Hc in Hc'. injection Hc' as <- <-. by eexists.
  - done.
  - split; [done|]. intros k dt data Hc. by exists data.
  - done.
  - rewrite Hr, Hloop. simpl. split; [done|]. split; [done|]. split; [done|].
    intros p Hp.
    destruct (Hrep p Hp) as (k & sl & dt & Hslot & Hfits).
    apply list_elem_of_lookup in Hp as [j Hj].
    destruct (Hsel j p Hj) as (tg & i & Htg & Hi & Hptg & Hpi).
    destruct (Hinv j tg Htg) as [Hij Hu].
    destruct (union_slot_inv _ _ _ _ _ Hslot) as (tg' & i' & data & Ht' & Hi' & Hk & Hc & Hn).
    assert (tg' = tg) as -> by congruence. assert (i' = i) as -> by congruence.
    destruct (Hheld j _ i tg k dt data sl (Nat.le_0_l _) Hij Hi Hu Hk Hc Hn)
      as (dt' & data' & Hc' & Hv).
    destruct (Hlay k dt data Hc) as (data'' & Hc'' & Hld).
    rewrite Hc'' in Hc'. injection Hc' as <- <-.
    rewrite (UnionArray_getitem_int s' p tg i) by (unfold shape in *; congruence).
    unfold UnionArray.content_at. rewrite Hlencs, Hk. simpl. rewrite Hc''. simpl.
    rewrite Hfits in Hv.
    rewrite (content_take_plain_one dt data'' i sl v); [done| |done].
    by rewrite Hld.
Qed.

Lemma X16_union_scalar_write_read_witness :
  fst (UnionArray.__setitem__ (KSel (SSlice None None None)) (PScalar 9) ex_union) = Ok tt /\
  UnionArray.__getitem__
    (snd (UnionArray.__setitem__ (KSel (SSlice None None None)) (PScalar 9) ex_union))
    (KSel (SInt (Z.of_nat 1))) =
    Ok (UnionArray.Value (VScalar 9)).
Proof.
  assert (forall p, p ∈ [0%nat; 1%nat; 2%nat] ->
            exists k sl dt, union_slot ex_union p = Some (k, sl, dt) /\ representable dt 9)
    as Hslots.
  { intros p Hp.
    repeat (apply elem_of_cons in Hp as [->|Hp]; [by eexists _, _, _|]).
    by apply elem_of_nil in Hp. }
  destruct (X16_union_scalar_write_read ex_union (SSlice None None None)
              [0%nat; 1%nat; 2%nat] 9 eq_refl eq_refl eq_refl eq_refl Hslots)
    as (Hok & _ & _ & Hread).
  split; [exact Hok|].
  apply (Hread 1%nat).
  apply elem_of_cons. right. apply elem_of_cons. by left.
Defined.

(** ** ByteIndexedArray: writes *)

#[local] Arguments ByteIndexedArray.__setitem__ : simpl never.
#[local] Arguments write_at : simpl never.

Lemma byte_of_Z_value (z : Z) : Z.of_N (Byte.to_N (byte_of_Z z)) = z mod 256.
Proof.
  unfold byte_of_Z.
  pose proof (Z.mod_pos_bound z 256 ltac:(lia)) as Hb.
  destruct (Byte.of_N (Z.to_N (z mod 256))) as [b|] eqn:Hof; simpl.
  - rewrite (Byte.to_of_N _ Hof). lia.
  - apply Byte.of_N_None_iff in Hof. lia.
Qed.

Lemma le_bytes_length (n : nat) (z : Z) : length (le_bytes n z) = n.
Proof. revert z. induction n as [|n IH]; intros z; simpl; [done|]. by rewrite IH. Qed.

Lemma le_value_le_bytes (n : nat) (z : Z) :
  le_value (le_bytes n z) = z mod 2 ^ (8 * Z.of_nat n).
Proof.
  revert z. induction n as [|n IH]; intros z.
  - simpl. by rewrite Z.mod_1_r.
  - cbn [le_bytes le_value]. rewrite byte_of_Z_value, IH.
    replace (8 * Z.of_nat (S n)) with (8 + 8 * Z.of_nat n) by lia.
    rewrite Z.pow_add_r by lia. change (2 ^ 8) with 256.
    rewrite Z.rem_mul_r; [done|lia|]. apply Z.pow_pos_nonneg; lia.
Qed.

Lemma wrap_bits_mod (bits : Z) (sgn : bool) (v : Z) :
  wrap_bits bits sgn (v mod 2 ^ bits) = wrap_bits bits sgn v.
Proof. unfold wrap_bits. by rewrite Zmod_mod. Qed.

(** The bytes stored for [v] decode to [v] as the element type holds it. *)
Lemma decode_encode (dt : dtype) (v : Z) : decode dt (encode dt v) = wrap dt v.
Proof.
  unfold decode, encode, wrap. rewrite le_value_le_bytes. apply wrap_bits_mod.
Qed.

Lemma write_at_length (buf : list byte) (o : nat) (bs : list byte) :
  (o + length bs <= length buf)%nat -> length (write_at buf o bs) = length buf.
Proof.
  intros Hle. unfold write_at. rewrite !length_app, length_take, length_drop. lia.
Qed.

Lemma write_at_lookup_in (buf : list byte) (o : nat) (bs : list byte) (k : nat) :
  (o <= length buf)%nat -> (k < length bs)%nat ->
  write_at buf o bs !! (o + k)%nat = bs !! k.
Proof.
  intros Hle Hk. unfold write_at.
  rewrite lookup_app_r by (rewrite length_take; lia).
  rewrite length_take, Nat.min_l by done.
  replace (o + k - o)%nat with k by lia. by rewrite lookup_app_l.
Qed.

Lemma write_at_lookup_out (buf : list byte) (o : nat) (bs : list byte) (b : nat) :
  (o + length bs <= length buf)%nat -> (b < o \/ o + length bs <= b)%nat ->
  write_at buf o bs !! b = buf !! b.
Proof.
  intros Hle Hout. unfold write_at. destruct Hout as [Hlt|Hge].
  - rewrite lookup_app_l by (rewrite length_take; lia). by apply lookup_take_lt.
  - rewrite lookup_app_r by (rewrite length_take; lia).
    rewrite length_take, Nat.min_l by lia.
    rewrite lookup_app_r by lia. rewrite lookup_drop. f_equal. lia.
Qed.

Lemma write_at_read (buf : list byte) (o : nat) (bs : list byte) :
  (o + length bs <= length buf)%nat ->
  take (length bs) (drop o (write_at buf o bs)) = bs.
Proof.
  intros Hle. apply list_eq. intros k.
  destruct (decide (k < length bs)%nat) as [Hk|Hk].
  - rewrite lookup_take_lt, lookup_drop by done. apply write_at_lookup_in; lia.
  - rewrite lookup_take_ge by lia. symmetry. apply lookup_ge_None. lia.
Qed.

(** The scalar path of a write stores the bytes of the value where the
    offset points. *)
Lemma setitem_scalar_spec (self : ByteIndexedArray.t) (o v : Z) :
  ByteIndexedArray._indextype self <> uint64 ->
  (0 < itemsize (ByteIndexedArray._dtype self))%nat ->
  valid_offset self o ->
  ByteIndexedArray.setitem_scalar o (RScalar v) self =
    (Ok tt,
     ByteIndexedArray.set_content
       (write_at (ByteIndexedArray._content self) (Z.to_nat o)
          (encode (ByteIndexedArray._dtype self) v)) self).
Proof.
  intros Hix Hsz [Ho Hon].
  unfold ByteIndexedArray.setitem_scalar, ByteIndexedArray.float_divmod.
  rewrite bool_decide_eq_false_2 by done.
  set (sz := Z.of_nat (itemsize (ByteIndexedArray._dtype self))) in *.
  assert (0 < sz) as Hszpos by lia.
  destruct (Z.eqb_spec sz 0) as [|_]; [lia|].
  pose proof (Z.mod_pos_bound o sz Hszpos) as Hmod.
  pose proof (Z.div_pos o sz Ho Hszpos) as Hdiv.
  pose proof (Z.div_mod o sz ltac:(lia)) as Hdm.
  unfold frombuffer. fold sz.
  destruct (Z.ltb_spec (o mod sz) 0) as [|_]; [lia|].
  destruct (Z.ltb_spec (Z.of_nat (length (ByteIndexedArray._content self))) (o mod sz))
    as [|_]; [lia|].
  simpl.
  destruct (Z.ltb_spec (o / sz + 1) 0) as [|_]; [lia|].
  destruct (Z.ltb_spec (Z.of_nat (length (ByteIndexedArray._content self)) - o mod sz)
              ((o / sz + 1) * sz)) as [|_]; [lia|].
  simpl. rewrite length_map, length_seq. unfold resolve.
  assert (norm_index (Z.to_nat (o / sz + 1)) (o / sz) = Some (Z.to_nat (o / sz))) as ->.
  { unfold norm_index.
    destruct (Z.leb_spec 0 (o / sz)) as [_|]; [|lia].
    destruct (Z.ltb_spec (o / sz) (Z.of_nat (Z.to_nat (o / sz + 1)))) as [_|]; [|lia].
    done. }
  simpl. unfold broadcast, store_elements. simpl. do 3 f_equal.
  apply Nat2Z.inj. rewrite Nat2Z.inj_add, Nat2Z.inj_mul, !Z2Nat.id by lia.
  fold sz. rewrite (Z.mul_comm (o / sz) sz). lia.
Qed.

(** X17: on a writeable ByteIndexedArray whose index array is of an
    integer type other than uint64 and whose element type has a positive
    itemsize [S], writing a scalar that the element type can represent at
    a position whose offset [o] satisfies [0 <= o] and
    [o + S <= len(buffer)] succeeds and stores the [S] bytes of the
    scalar, least significant first, at bytes [o] to [o + S - 1] of the
    buffer: the buffer keeps its length, every other byte and the index
    stay as they were, reading the position returns the scalar, and every
    position whose element does not overlap these bytes reads what it read
    before. *)
Theorem X17_byte_scalar_write_read (self : ByteIndexedArray.t) (p : nat) (o v : Z) :
  ByteIndexedArray._writeable self = true ->
  ByteIndexedArray._indextype self <> uint64 ->
  (0 < itemsize (ByteIndexedArray._dtype self))%nat ->
  ByteIndexedArray._index self !! p = Some o ->
  valid_offset self o ->
  representable (ByteIndexedArray._dtype self) v ->
  exists self',
    ByteIndexedArray.__setitem__ (KSel (SInt (Z.of_nat p))) (RScalar v) self = (Ok tt, self') /\
    ByteIndexedArray._index self' = ByteIndexedArray._index self /\
    ByteIndexedArray._dtype self' = ByteIndexedArray._dtype self /\
    length (ByteIndexedArray._content self') = length (ByteIndexedArray._content self) /\
    (forall b : nat,
       Z.of_nat b < o \/
       o + Z.of_nat (itemsize (ByteIndexedArray._dtype self)) <= Z.of_nat b ->
       ByteIndexedArray._content self' !! b = ByteIndexedArray._content self !! b) /\
    ByteIndexedArray.__getitem__ self' (KSel (SInt (Z.of_nat p))) =
      Ok (ByteIndexedArray.Scalar v) /\
    (forall (q : nat) (o' : Z),
       ByteIndexedArray._index self !! q = Some o' ->
       valid_offset self o' ->
       o' + Z.of_nat (itemsize (ByteIndexedArray._dtype self)) <= o \/
       o + Z.of_nat (itemsize (ByteIndexedArray._dtype self)) <= o' ->
       ByteIndexedArray.__getitem__ self' (KSel (SInt (Z.of_nat q))) =
         ByteIndexedArray.__getitem__ self (KSel (SInt (Z.of_nat q)))).
Proof.
  intros Hw Hix Hsz Hp Hvalid Hv. pose proof Hvalid as [Ho Hon].
  set (dt := ByteIndexedArray._dtype self) in *.
  set (buf := ByteIndexedArray._content self) in *.
  assert (Z.to_nat o + length (encode dt v) <= length buf)%nat as Hfit.
  { unfold encode. rewrite le_bytes_length. lia. }
  assert (forall b : nat,
            Z.of_nat b < o \/ o + Z.of_nat (itemsize dt) <= Z.of_nat b ->
            write_at buf (Z.to_nat o) (encode dt v) !! b = buf !! b) as Hframe.
  { intros b Hb. apply write_at_lookup_out; [done|].
    unfold encode. rewrite le_bytes_length. lia. }
  eexists. split; [|split; [|split; [|split; [|split; [|split]]]]].
  - unfold ByteIndexedArray.__setitem__, act_bind, act_get, act_lift, np_index. simpl.
    rewrite Hw. simpl. rewrite (np_getitem_nat _ _ _ Hp).
    by rewrite (setitem_scalar_spec self o v Hix Hsz Hvalid).
  - done.
  - done.
  - simpl. by apply write_at_length.
  - exact Hframe.
  - rewrite (ByteIndexedArray_getitem_int _ p o) by done.
    rewrite getitem_scalar_spec.
    + unfold read_at. simpl. fold dt buf.
      replace (itemsize dt) with (length (encode dt v)) at 1
        by (unfold encode; by rewrite le_bytes_length).
      rewrite write_at_read by done. rewrite decode_encode. by rewrite Hv.
    + done.
    + done.
    + split; [done|]. simpl. fold dt buf. rewrite write_at_length by done. done.
  - intros q o' Hq [Ho' Hon'] Hapart. fold dt buf in Hon'.
    rewrite (ByteIndexedArray_getitem_int _ q o') by done.
    rewrite (ByteIndexedArray_getitem_int self q o') by done.
    rewrite !getitem_scalar_spec; try done.
    + unfold read_at. simpl. fold dt buf. do 3 f_equal.
      apply list_eq. intros k.
      destruct (decide (k < itemsize dt)%nat) as [Hk|Hk].
      * rewrite !lookup_take_lt, !lookup_drop by done. apply Hframe. lia.
      * by rewrite !lookup_take_ge by lia.
    + split; [done|]. simpl. fold dt buf. by rewrite write_at_length.
Qed.

Lemma X17_byte_scalar_write_read_witness :
  exists self',
    ByteIndexedArray.__setitem__ (KSel (SInt (Z.of_nat 2))) (RScalar (-2)) ex_bytes =
      (Ok tt, self') /\
    ByteIndexedArray.__getitem__ self' (KSel (SInt (Z.of_nat 2))) =
      Ok (ByteIndexedArray.Scalar (-2)).
Proof.
  assert (valid_offset ex_bytes 3) as Hvalid by (split; simpl; lia).
  assert (0 < itemsize (ByteIndexedArray._dtype ex_bytes))%nat as Hsz by (simpl; lia).
  assert (ByteIndexedArray._indextype ex_bytes <> uint64) as Hix by discriminate.
  assert (representable (ByteIndexedArray._dtype ex_bytes) (-2)) as Hv by reflexivity.
  destruct (X17_byte_scalar_write_read ex_bytes 2%nat 3 (-2) eq_refl Hix Hsz eq_refl
              Hvalid Hv)
    as (self' & Hset & _ & _ & _ & _ & Hread & _).
  exists self'. by split.
Defined.

Lemma le_bytes_mod (n : nat) (z : Z) :
  le_bytes n (z mod 2 ^ (8 * Z.of_nat n)) = le_bytes n z.
Proof.
  revert z. induction n as [|n IH]; intros z; [done|].
  replace (8 * Z.of_nat (S n)) with (8 + 8 * Z.of_nat n) by lia.
  rewrite Z.pow_add_r by lia. change (2 ^ 8) with 256.
  assert (0 < 2 ^ (8 * Z.of_nat n)) as Hpos by (apply Z.pow_pos_nonneg; lia).
  rewrite Z.rem_mul_r by lia.
  pose proof (Z.mod_pos_bound z 256 ltac:(lia)) as Hb.
  cbn [le_bytes]. f_equal.
  - unfold byte_of_Z. do 3 f_equal.
    rewrite (Z.mul_comm 256), Z_mod_plus_full. by rewrite Zmod_mod.
  - rewrite <- (IH (z / 256)). f_equal.
    rewrite (Z.mul_comm 256), Z.div_add by lia.
    rewrite (Z.div_small (z mod 256)) by lia. lia.
Qed.

Lemma wrap_bits_congr (bits : Z) (sgn : bool) (v : Z) :
  0 <= bits -> wrap_bits bits sgn v mod 2 ^ bits = v mod 2 ^ bits.
Proof.
  intros Hbits. unfold wrap_bits.
  destruct (sgn && _).
  - replace (v mod 2 ^ bits - 2 ^ bits) with (v mod 2 ^ bits + (-1) * 2 ^ bits) by lia.
    rewrite Z_mod_plus_full. by rewrite Zmod_mod.
  - by rewrite Zmod_mod.
Qed.

(** Casting before storing changes nothing: the store keeps the low bytes. *)
Lemma encode_wrap (dt : dtype) (v : Z) : encode dt (wrap dt v) = encode dt v.
Proof.
  unfold encode, wrap.
  rewrite <- (le_bytes_mod _ (wrap_bits _ _ _)), wrap_bits_congr by lia.
  apply le_bytes_mod.
Qed.

Lemma scatter_app {A} (a : list A) (ps1 ps2 : list nat) (vs1 vs2 : list A) :
  length ps1 = length vs1 ->
  scatter a (ps1 ++ ps2) (vs1 ++ vs2) = scatter (scatter a ps1 vs1) ps2 vs2.
Proof.
  intros Hlen. unfold scatter. rewrite zip_with_app by done. apply fold_left_app.
Qed.

(** A run of consecutive slots stored at once. *)
Lemma scatter_block (buf : list byte) (o : nat) (bs : list byte) :
  (o + length bs <= length buf)%nat ->
  scatter buf (map (fun k => (o + k)%nat) (seq 0 (length bs))) bs = write_at buf o bs.
Proof.
  intros Hle. apply list_eq. intros b.
  destruct (decide (o <= b < o + length bs)%nat) as [Hin|Hout].
  - replace b with (o + (b - o))%nat at 2 by lia.
    rewrite write_at_lookup_in by lia.
    destruct (lookup_lt_is_Some_2 bs (b - o)) as [x Hx]; [lia|]. rewrite Hx.
    apply (scatter_lookup _ _ _ (b - o)%nat).
    + apply NoDup_fmap_2; [intros x1 x2; lia|apply NoDup_seq].
    + rewrite list_lookup_fmap, lookup_seq_lt by lia. simpl. f_equal. lia.
    + done.
    + lia.
  - rewrite write_at_lookup_out by lia. apply scatter_lookup_other.
    intros Hb. apply list_elem_of_fmap in Hb as (k & -> & Hk).
    apply elem_of_seq in Hk. lia.
Qed.

Lemma grid_concat {A} (K itemsz : nat) (f : nat -> nat -> A) :
  (0 < itemsz)%nat ->
  map (fun i => f (i / itemsz)%nat (i mod itemsz)%nat) (seq 0 (K * itemsz)) =
    concat (map (fun j => map (f j) (seq 0 itemsz)) (seq 0 K)).
Proof.
  intros Hsz. induction K as [|K IH]; [done|].
  replace (S K * itemsz)%nat with (K * itemsz + itemsz)%nat by lia.
  rewrite seq_app, map_app, IH, seq_S, map_app, concat_app. simpl.
  rewrite app_nil_r. f_equal.
  apply list_eq. intros k. rewrite !list_lookup_fmap.
  destruct (decide (k < itemsz)%nat) as [Hk|Hk].
  - rewrite !lookup_seq_lt by done. simpl.
    destruct (grid_div_mod itemsz K k Hk) as [Hd Hm]. by rewrite Hd, Hm.
  - by rewrite !lookup_seq_ge by lia.
Qed.

(** The store of the batched write, element by element. *)
Lemma scatter_elements (dt : dtype) (buf : list byte) (starts ws : list Z) :
  length starts = length ws ->
  Forall (fun o => 0 <= o /\ o + Z.of_nat (itemsize dt) <= Z.of_nat (length buf)) starts ->
  scatter buf
    (concat (map (fun o => map (fun k => (Z.to_nat o + k)%nat) (seq 0 (itemsize dt))) starts))
    (concat (map (encode dt) ws)) =
  foldl (fun b ov => write_at b (Z.to_nat (fst ov)) (encode dt (snd ov))) buf (zip starts ws).
Proof.
  revert buf ws. induction starts as [|o starts IH]; intros buf [|w ws] Hlen Hvalid;
    try done.
  apply Forall_cons in Hvalid as [[Ho Hon] Hvalid].
  simpl. rewrite scatter_app by (by rewrite length_map, length_seq; unfold encode;
                                   rewrite le_bytes_length).
  assert (length (encode dt w) = itemsize dt) as Hen
    by (unfold encode; by rewrite le_bytes_length).
  rewrite <- Hen at 1. rewrite scatter_block by lia.
  apply IH; [by injection Hlen|].
  rewrite write_at_length by lia. done.
Qed.

Lemma broadcast_map {A B} (f : A -> B) (n : nat) (what : rhs A) (vs : list A) :
  broadcast n what = Ok vs -> broadcast n (rhs_map f what) = Ok (map f vs).
Proof.
  unfold broadcast. destruct what as [x|[|x [|y xs]]]; simpl.
  - intros [= <-]. by rewrite fmap_replicate.
  - destruct (decide (0 = n)%nat); [|done]. by intros [= <-].
  - intros [= <-]. by rewrite fmap_replicate.
  - rewrite length_map. destruct (decide (_ = n)); [|done]. by intros [= <-].
Qed.

Lemma ByteIndexedArray_setitem_int (self : ByteIndexedArray.t) (p : nat) (o v : Z) :
  ByteIndexedArray._writeable self = true ->
  ByteIndexedArray._indextype self <> uint64 ->
  (0 < itemsize (ByteIndexedArray._dtype self))%nat ->
  ByteIndexedArray._index self !! p = Some o ->
  valid_offset self o ->
  ByteIndexedArray.__setitem__ (KSel (SInt (Z.of_nat p))) (RScalar v) self =
    (Ok tt,
     ByteIndexedArray.set_content
       (write_at (ByteIndexedArray._content self) (Z.to_nat o)
          (encode (ByteIndexedArray._dtype self) v)) self).
Proof.
  intros Hw Hix Hsz Hp Hvalid.
  unfold ByteIndexedArray.__setitem__, act_bind, act_get, act_lift, np_index. simpl.
  rewrite Hw. simpl. rewrite (np_getitem_nat _ _ _ Hp).
  by rewrite (setitem_scalar_spec self o v Hix Hsz Hvalid).
Qed.

(** Scalar writes one after the other, as stores into the buffer. *)
Lemma byte_writes_spec (self : ByteIndexedArray.t) (ps : list nat) (starts vs : list Z)
    (c : list byte) :
  ByteIndexedArray._writeable self = true ->
  ByteIndexedArray._indextype self <> uint64 ->
  (0 < itemsize (ByteIndexedArray._dtype self))%nat ->
  Forall2 (fun p o => ByteIndexedArray._index self !! p = Some o /\ valid_offset self o)
          ps starts ->
  length c = length (ByteIndexedArray._content self) ->
  byte_writes (zip ps vs) (ByteIndexedArray.set_content c self) =
    (Ok tt,
     ByteIndexedArray.set_content
       (foldl (fun b ov => write_at b (Z.to_nat (fst ov))
                             (encode (ByteIndexedArray._dtype self) (snd ov)))
              c (zip starts vs)) self).
Proof.
  intros Hw Hix Hsz Hall. revert vs c.
  induction Hall as [|p o ps starts [Hp Hvalid] _ IH]; intros vs c Hlen; [done|].
  destruct vs as [|v vs]; [done|].
  cbn [zip zip_with byte_writes foldl fst snd]. unfold act_bind.
  assert (valid_offset (ByteIndexedArray.set_content c self) o) as Hvalid'.
  { destruct Hvalid as [Ho Hon]. split; [done|]. simpl. by rewrite Hlen. }
  rewrite (ByteIndexedArray_setitem_int (ByteIndexedArray.set_content c self) p o v
             Hw Hix Hsz Hp Hvalid'). simpl.
  apply (IH vs). rewrite write_at_length; [done|].
  destruct Hvalid as [Ho Hon]. unfold encode. rewrite le_bytes_length. lia.
Qed.

(** X18: on a writeable ByteIndexedArray whose index array is of an
    integer type other than uint64 and whose element type has a positive
    itemsize [S], the batched write of a scalar or of an array, of values
    the element type can represent, to any number of positions (unaligned,
    overlapping or repeated offsets alike) whose selected offsets [o] all
    satisfy [0 <= o] and [o + S <= len(buffer)] succeeds and leaves the
    view exactly as writing the values one position after the other with
    the scalar path leaves it, in the order of the selection: where
    elements overlap the later write wins; with no position selected
    nothing is written.  Nothing is asked of the index entries that are
    not selected.  The buffer and the scratch buffer are of sizes the
    index type can hold. *)
Theorem X18_batch_write_agrees_with_scalar (self : ByteIndexedArray.t) (head : selector)
    (starts : list Z) (what : rhs Z) (vs : list Z) :
  ByteIndexedArray._writeable self = true ->
  ByteIndexedArray._indextype self <> uint64 ->
  (0 < itemsize (ByteIndexedArray._dtype self))%nat ->
  fits_INDEXTYPE (length (ByteIndexedArray._content self)) ->
  fits_INDEXTYPE (length starts * itemsize (ByteIndexedArray._dtype self)) ->
  np_getitem (ByteIndexedArray._index self) head = Ok (Many starts) ->
  Forall (valid_offset self) starts ->
  broadcast (length starts) what = Ok vs ->
  Forall (representable (ByteIndexedArray._dtype self)) vs ->
  exists ps,
    resolve (length (ByteIndexedArray._index self)) head = Ok ps /\
    fst (ByteIndexedArray.__setitem__ (KSel head) what self) = Ok tt /\
    ByteIndexedArray.__setitem__ (KSel head) what self = byte_writes (zip ps vs) self.
Proof.
  intros Hw Hix Hsz Hfn Hfk Hstarts Hvs' Hvs _.
  destruct (np_getitem_many_inv _ _ _ Hstarts) as (ps & Hps & Hg).
  pose proof (gather_Forall2 _ _ _ Hg) as Hpos.
  assert (Forall2 (fun p o => ByteIndexedArray._index self !! p = Some o /\
                              valid_offset self o) ps starts) as Hall.
  { apply Forall2_same_length_lookup. split; [by apply Forall2_length in Hpos|].
    intros j p o Hj Ho.
    destruct (Forall2_lookup_l _ _ _ _ _ Hpos Hj) as (o' & Ho' & Hp).
    assert (o' = o) as -> by congruence.
    split; [done|]. exact (Forall_lookup_1 _ _ _ _ Hvs' Ho). }
  exists ps. split; [done|].
  assert (ByteIndexedArray.__setitem__ (KSel head) what self =
          ByteIndexedArray.setitem_batch starts what self) as Hbatch.
  { unfold ByteIndexedArray.__setitem__, act_bind, act_get, act_lift, np_index. simpl.
    by rewrite Hw, Hstarts. }
  rewrite Hbatch. unfold ByteIndexedArray.setitem_batch.
  destruct (decide (length starts = 0%nat)) as [Hnil|Hne].
  { destruct starts; [|done]. apply Forall2_nil_inv_r in Hall as ->. done. }
  set (dt := ByteIndexedArray._dtype self) in *.
  set (buf := ByteIndexedArray._content self) in *.
  set (sz := itemsize dt) in *.
  assert (length vs = length starts) as Hlvs.
  { destruct what as [x|[|x [|y xs]]]; unfold broadcast in Hvs; simpl in Hvs.
    - injection Hvs as <-. by rewrite length_replicate.
    - destruct (decide (0 = length starts)%nat); [|done]. by injection Hvs as <-.
    - injection Hvs as <-. by rewrite length_replicate.
    - destruct (decide (_ = length starts)) as [Heq|]; [|done]. by injection Hvs as <-. }
  (* the scratch array *)
  assert (np_setitem (np_empty 0 (length starts)) (SSlice None None None)
            (rhs_map (wrap dt) what) = Ok (map (wrap dt) vs)) as ->.
  { unfold np_setitem, np_empty. rewrite length_replicate, resolve_all. simpl.
    rewrite length_seq, (broadcast_map _ _ _ _ Hvs). simpl. f_equal.
    pose proof (scatter_seq_all [] (replicate (length starts) 0) (map (wrap dt) vs)) as Hs.
    rewrite length_replicate in Hs. simpl in Hs. apply Hs. by rewrite length_map. }
  simpl.
  rewrite (contidx_spec starts sz (length buf)); [|done|lia|done|exact Hvs'].
  rewrite holdidx_spec; [|done|lia|done].
  simpl.
  (* the store into the buffer *)
  set (src := fun i : nat => (Z.to_nat (nth (i / sz) starts 0%Z) + i mod sz)%nat).
  assert (forall i, i ∈ seq 0 (length starts * sz) ->
            (src i < length buf)%nat /\
            nth (i / sz) starts 0 + Z.of_nat (i mod sz) = Z.of_nat (src i)) as Hsrc.
  { intros i Hi. destruct (seq_grid_bounds _ _ _ Hsz Hi) as [Hj Hk].
    destruct (lookup_lt_is_Some_2 starts (i / sz) Hj) as [o Ho].
    pose proof (Forall_lookup_1 _ _ _ _ Hvs' Ho) as [Ho0 Hon].
    subst src. simpl. rewrite (nth_lookup_Some _ _ 0 _ Ho). fold buf dt sz in Hon. lia. }
  assert (length (tobytes dt (map (wrap dt) vs)) = (length starts * sz)%nat) as Hlb.
  { unfold tobytes. rewrite <- Hlvs. clear. induction vs as [|v vs IH]; [done|].
    simpl. rewrite length_app, IH. unfold encode. by rewrite le_bytes_length. }
  unfold np_setitem, resolve.
  rewrite (traverse_map _ _ src).
  2:{ intros i Hi. destruct (Hsrc i Hi) as [Hlt ->]. by rewrite norm_index_nat. }
  simpl. rewrite broadcast_exact by (by rewrite length_map, length_seq).
  simpl.
  assert (map src (seq 0 (length starts * sz)) =
          concat (map (fun o => map (fun k => (Z.to_nat o + k)%nat) (seq 0 sz)) starts))
    as ->.
  { subst src.
    rewrite (grid_concat (length starts) sz
               (fun j k => (Z.to_nat (nth j starts 0%Z) + k)%nat)) by done.
    f_equal.
    exact (map_nth_seq (fun o => map (fun k => (Z.to_nat o + k)%nat) (seq 0 sz)) starts 0). }
  unfold tobytes, sz. rewrite (scatter_elements dt buf starts (map (wrap dt) vs)).
  2:{ by rewrite length_map. }
  2:{ exact Hvs'. }
  assert (foldl (fun b ov => write_at b (Z.to_nat (fst ov)) (encode dt (snd ov))) buf
            (zip starts (map (wrap dt) vs)) =
          foldl (fun b ov => write_at b (Z.to_nat (fst ov)) (encode dt (snd ov))) buf
            (zip starts vs)) as ->.
  { generalize buf, vs, starts. intros b ws os. revert ws b.
    induction os as [|o os IH]; intros [|w ws] b; try done.
    simpl. rewrite encode_wrap. apply IH. }
  split; [done|].
  pose proof (byte_writes_spec self ps starts vs buf Hw Hix Hsz Hall eq_refl) as Hseq.
  assert (ByteIndexedArray.set_content buf self = self) as Hself
    by (subst buf; by destruct self).
  rewrite Hself in Hseq. by rewrite Hseq.
Qed.

Lemma X18_batch_write_agrees_with_scalar_witness :
  ByteIndexedArray.__setitem__ (KSel (SSlice (Some 1) (Some 3) None)) (RArray [258; -1])
    ex_bytes =
  byte_writes [(1%nat, 258); (2%nat, -1)] ex_bytes.
Proof.
  assert (fits_INDEXTYPE (length (ByteIndexedArray._content ex_bytes))) as Hfn
    by (by vm_compute).
  assert (fits_INDEXTYPE (length [1; 3] * itemsize (ByteIndexedArray._dtype ex_bytes)))
    as Hfk by (by vm_compute).
  assert (0 < itemsize (ByteIndexedArray._dtype ex_bytes))%nat as Hsz by (simpl; lia).
  assert (Forall (valid_offset ex_bytes) [1; 3]) as Hvalid
    by (repeat constructor; simpl; lia).
  assert (ByteIndexedArray._indextype ex_bytes <> uint64) as Hix by discriminate.
  assert (Forall (representable (ByteIndexedArray._dtype ex_bytes)) [258; -1]) as Hrep
    by (repeat constructor).
  destruct (X18_batch_write_agrees_with_scalar ex_bytes (SSlice (Some 1) (Some 3) None)
              [1; 3] (RArray [258; -1]) [258; -1] eq_refl Hix Hsz Hfn Hfk eq_refl Hvalid
              eq_refl Hrep)
    as (ps & Hps & _ & Heq).
  assert (ps = [1%nat; 2%nat]) as -> by (vm_compute in Hps; congruence).
  exact Heq.
Defined.

Lemma frombuffer_past_the_end (buf : list byte) (dt : dtype) (o : Z) :
  (0 < itemsize dt)%nat -> 0 <= o ->
  Z.of_nat (length buf) < o + Z.of_nat (itemsize dt) ->
  exists msg,
    frombuffer buf dt (o / Z.of_nat (itemsize dt) + 1) (o mod Z.of_nat (itemsize dt)) =
      Err (ValueError msg).
Proof.
  intros Hsz Ho Hpast. unfold frombuffer.
  set (sz := Z.of_nat (itemsize dt)) in *.
  assert (0 < sz) as Hszpos by lia.
  pose proof (Z.mod_pos_bound o sz Hszpos) as Hmod.
  pose proof (Z.div_pos o sz Ho Hszpos) as Hdiv.
  pose proof (Z.div_mod o sz ltac:(lia)) as Hdm.
  destruct (Z.ltb_spec (o mod sz) 0) as [|_]; [lia|].
  destruct (Z.ltb_spec (Z.of_nat (length buf)) (o mod sz)) as [|_]; simpl; [by eexists|].
  destruct (Z.ltb_spec (o / sz + 1) 0) as [|_]; [lia|].
  destruct (Z.ltb_spec (Z.of_nat (length buf) - o mod sz) ((o / sz + 1) * sz)) as [_|Hge];
    simpl; [by eexists|].
  rewrite (Z.mul_comm (o / sz + 1) sz) in Hge. lia.
Qed.

(** X19: on a ByteIndexedArray whose index array is of an integer type
    other than uint64 and whose element type has a positive itemsize [S],
    a position whose offset [o] is not negative and leaves fewer than [S]
    bytes before the end of the buffer can be neither read nor written
    through the scalar path: both raise a ValueError, and the write leaves
    the view as it was, whatever the value. *)
Theorem X19_offset_past_the_end_is_refused (self : ByteIndexedArray.t) (p : nat) (o : Z) :
  ByteIndexedArray._indextype self <> uint64 ->
  (0 < itemsize (ByteIndexedArray._dtype self))%nat ->
  ByteIndexedArray._index self !! p = Some o ->
  0 <= o ->
  Z.of_nat (length (ByteIndexedArray._content self)) <
    o + Z.of_nat (itemsize (ByteIndexedArray._dtype self)) ->
  (exists msg,
     ByteIndexedArray.__getitem__ self (KSel (SInt (Z.of_nat p))) = Err (ValueError msg)) /\
  (forall what, exists msg,
     ByteIndexedArray.__setitem__ (KSel (SInt (Z.of_nat p))) what self =
       (Err (ValueError msg), self)).
Proof.
  intros Hix Hsz Hp Ho Hpast.
  destruct (frombuffer_past_the_end _ _ _ Hsz Ho Hpast) as [msg Hfb].
  assert ((Z.of_nat (itemsize (ByteIndexedArray._dtype self)) =? 0) = false) as Hnz
    by (apply Z.eqb_neq; lia).
  assert (ByteIndexedArray.float_divmod self = false) as Hint
    by (by apply bool_decide_eq_false_2).
  split.
  - exists msg. rewrite (ByteIndexedArray_getitem_int _ _ _ Hp).
    unfold ByteIndexedArray.getitem_scalar. by rewrite Hint, Hnz, Hfb.
  - intros what.
    unfold ByteIndexedArray.__setitem__, act_bind, act_get, act_lift, act_raise, np_index.
    simpl. destruct (ByteIndexedArray._writeable self); simpl; [|by eexists].
    rewrite (np_getitem_nat _ _ _ Hp).
    unfold ByteIndexedArray.setitem_scalar. rewrite Hint, Hnz, Hfb. by exists msg.
Qed.

Lemma X19_offset_past_the_end_is_refused_witness :
  exists msg,
    ByteIndexedArray.__getitem__
      (ByteIndexedArray.mk [6] (ByteIndexedArray._content ex_bytes) (mk_dtype 4 true) true
         int64)
      (KSel (SInt (Z.of_nat 0))) = Err (ValueError msg).
Proof.
  assert (int64 <> uint64) as Hix by discriminate.
  assert (0 < itemsize (mk_dtype 4 true))%nat as Hsz by (simpl; lia).
  assert (0 <= 6) as Ho by lia.
  assert (Z.of_nat (length (ByteIndexedArray._content ex_bytes)) <
          6 + Z.of_nat (itemsize (mk_dtype 4 true))) as Hpast by (simpl; lia).
  exact (proj1 (X19_offset_past_the_end_is_refused
                  (ByteIndexedArray.mk [6] (ByteIndexedArray._content ex_bytes)
                     (mk_dtype 4 true) true int64) 0%nat 6 Hix Hsz eq_refl Ho Hpast)).
Defined.

(** With an index of type uint64 the scalar paths raise TypeError at every
    position, valid offsets included: [divmod] has turned position and
    offset into floats.  The batched paths never call [divmod]. *)
Lemma ByteIndexedArray_uint64_index (self : ByteIndexedArray.t) (p : nat) (o : Z) :
  ByteIndexedArray._indextype self = uint64 ->
  ByteIndexedArray._index self !! p = Some o ->
  ByteIndexedArray.__getitem__ self (KSel (SInt (Z.of_nat p))) = Err TypeError /\
  (ByteIndexedArray._writeable self = true ->
   forall what,
     ByteIndexedArray.__setitem__ (KSel (SInt (Z.of_nat p))) what self =
       (Err TypeError, self)).
Proof.
  intros Hix Hp.
  assert (ByteIndexedArray.float_divmod self = true) as Hfloat
    by (by apply bool_decide_eq_true_2).
  split.
  - rewrite (ByteIndexedArray_getitem_int _ _ _ Hp).
    unfold ByteIndexedArray.getitem_scalar. by rewrite Hfloat.
  - intros Hw what.
    unfold ByteIndexedArray.__setitem__, act_bind, act_get, act_lift, act_raise, np_index.
    simpl. rewrite Hw. simpl. rewrite (np_getitem_nat _ _ _ Hp).
    unfold ByteIndexedArray.setitem_scalar. by rewrite Hfloat.
Qed.

(** ** IndexedMaskedArray: the polarity of a masked right-hand side *)

(** X20: the polarity of the mask of a nullable right-hand side makes no
    difference to an assignment to an IndexedMaskedArray: a MaskedArray
    whose mask bits mean "missing" and the MaskedArray with the same
    elements, the opposite polarity and every bit negated have the same
    effect and the same outcome, for every view, key and length. *)
Theorem X20_mask_polarity_is_immaterial (self : IndexedMaskedArray.t) (where_ : pykey)
    (items : list (bool * Z)) :
  IndexedMaskedArray.__setitem__ where_ (OMaskedArray (mk_MaskedArray true items)) self =
  IndexedMaskedArray.__setitem__ where_
    (OMaskedArray (mk_MaskedArray false (map (fun bx => (negb (fst bx), snd bx)) items)))
    self.
Proof.
  assert (map fst (map (fun bx : bool * Z => (negb (fst bx), snd bx)) items) =
          map negb (map fst items)) as Hfst
    by (rewrite !map_map; by apply map_ext).
  assert (map snd (map (fun bx : bool * Z => (negb (fst bx), snd bx)) items) =
          map snd items) as Hsnd
    by (rewrite !map_map; by apply map_ext).
  assert (map negb (map negb (map fst items)) = map fst items) as Hneg.
  { rewrite map_map. rewrite <- (map_id (map fst items)) at 2.
    apply map_ext. intros b. apply negb_involutive. }
  unfold IndexedMaskedArray.__setitem__.
  destruct where_ as [name|s|t]; [done| |];
    unfold act_bind, act_get, act_lift; simpl;
    (destruct (negb (IndexedMaskedArray._writeable self)); [done|]);
    try (destruct t as [|s t]; simpl; [done|]);
    rewrite length_map;
    (destruct (decide (Some (length items) = Some 1%nat)) as [Hone|Hmany];
     [destruct items as [|[[] x] [|]]; done
     |rewrite Hfst, Hsnd, Hneg; done]).
Qed.

Lemma X20_mask_polarity_is_immaterial_witness :
  IndexedMaskedArray.__setitem__ (KSel (SSlice None None None))
    (OMaskedArray (mk_MaskedArray true [(true, 5); (false, 6)])) ex_masked =
  IndexedMaskedArray.__setitem__ (KSel (SSlice None None None))
    (OMaskedArray (mk_MaskedArray false [(false, 5); (true, 6)])) ex_masked.
Proof.
  exact (X20_mask_polarity_is_immaterial ex_masked (KSel (SSlice None None None))
           [(true, 5); (false, 6)]).
Defined.

(** ** VirtualObjectArray *)

Lemma generate_each_reads {B : Type} (c : list Z) (ps : list nat) (xs : list Z) :
  Forall2 (fun p x => c !! p = Some x) ps xs ->
  forall s : VirtualObjectArray.t B,
    VirtualObjectArray._content s = c ->
    VirtualObjectArray.generate_each xs s = object_reads ps s /\
    VirtualObjectArray._content (snd (object_reads ps s)) = c.
Proof.
  induction 1 as [|p x ps xs Hp _ IH]; intros s Hc; [done|].
  cbn [VirtualObjectArray.generate_each object_reads].
  unfold act_bind at 1 3 5.
  assert (VirtualObjectArray.__getitem__ (KSel (SInt (Z.of_nat p))) s =
          match VirtualObjectArray.generate (One x) s with
          | (Ok b, s') => (Ok (VirtualObjectArray.Object b), s')
          | (Err e, s') => (Err e, s')
          end) as ->.
  { unfold VirtualObjectArray.__getitem__, act_bind, act_get, act_lift, act_ret, np_index.
    simpl. rewrite Hc, (np_getitem_nat _ _ _ Hp). simpl.
    by destruct (VirtualObjectArray._generator s (VirtualObjectArray.calls s) (One x)). }
  unfold VirtualObjectArray.generate.
  destruct (VirtualObjectArray._generator s (VirtualObjectArray.calls s) (One x)) as [b|e];
    [|done].
  destruct (IH (VirtualObjectArray.mk (VirtualObjectArray._generator s)
                  (S (VirtualObjectArray.calls s)) (VirtualObjectArray._content s)) Hc)
    as [Heq Hcont].
  unfold act_bind. rewrite Heq.
  destruct (object_reads ps _) as [[bs|e] s'] eqn:Hreads; simpl in *; done.
Qed.

(** X21: reading a selection of several positions (a slice, an integer
    array, a boolean array) of a VirtualObjectArray calls the generator on
    the selected elements of the content in the order of the selection and
    returns the list of what it produced: outcome, number of generator
    calls and final state are those of reading the selected positions one
    after the other, up to and including the first one for which the
    generator raises.  The content is never changed. *)
Theorem X21_object_selection_read {B : Type} (self : VirtualObjectArray.t B)
    (head : selector) (ps : list nat) :
  is_integer head = false ->
  resolve (length (VirtualObjectArray._content self)) head = Ok ps ->
  VirtualObjectArray.__getitem__ (KSel head) self =
    act_bind (object_reads ps) (fun bs => act_ret (VirtualObjectArray.Objects bs)) self /\
  VirtualObjectArray._content (snd (VirtualObjectArray.__getitem__ (KSel head) self)) =
    VirtualObjectArray._content self.
Proof.
  intros Hint Hps.
  destruct (np_getitem_many _ _ _ Hint Hps) as (xs & Hxs & Hg).
  destruct (generate_each_reads _ ps xs (gather_Forall2 _ _ _ Hg) self eq_refl)
    as [Heq Hcont].
  assert (VirtualObjectArray.__getitem__ (KSel head) self =
          act_bind (object_reads ps)
            (fun bs => act_ret (VirtualObjectArray.Objects bs)) self) as Hread.
  { unfold VirtualObjectArray.__getitem__ at 1.
    unfold act_bind at 1 2. unfold act_get, act_lift, np_index. simpl.
    rewrite Hint, Hxs. unfold act_bind. by rewrite Heq. }
  split; [done|]. rewrite Hread. unfold act_bind, act_ret.
  by destruct (object_reads ps self) as [[bs|e] s'].
Qed.

Lemma X21_object_selection_read_witness :
  VirtualObjectArray.__getitem__ (KSel (SSlice None None (Some (-1))))
    (VirtualObjectArray.mk
       (fun n x => match x with One z => Ok (Z.of_nat n + z) | Many _ => Err TypeError end)
       0 [10; 20; 30]) =
  (Ok (VirtualObjectArray.Objects [30; 21; 12]),
   VirtualObjectArray.mk
     (fun n x => match x with One z => Ok (Z.of_nat n + z) | Many _ => Err TypeError end)
     3 [10; 20; 30]).
Proof.
  rewrite (proj1 (X21_object_selection_read
                    (VirtualObjectArray.mk
                       (fun n x => match x with
                                   | One z => Ok (Z.of_nat n + z)
                                   | Many _ => Err TypeError
                                   end) 0 [10; 20; 30])
                    (SSlice None None (Some (-1))) [2%nat; 1%nat; 0%nat] eq_refl eq_refl)).
  reflexivity.
Defined.

(** ** IndexedArray: array writes *)

Lemma traverse_norm_Forall2 (n : nat) (idx : list Z) (ks : list nat) :
  Forall2 (fun i k => norm_index n i = Some k) idx ks ->
  traverse (fun i => or_raise IndexError (norm_index n i)) idx = Ok ks.
Proof.
  induction 1 as [|i k idx ks Hk _ IH]; [done|].
  cbn [traverse]. rewrite Hk. simpl. by rewrite IH.
Qed.

Lemma gather_lookups {A} (a : list A) (ks : list nat) (ws : list A) :
  Forall2 (fun k w => a !! k = Some w) ks ws -> gather a ks = Ok ws.
Proof.
  unfold gather. induction 1 as [|k w ks ws Hk _ IH]; [done|].
  cbn [traverse]. rewrite Hk. simpl. by rewrite IH.
Qed.

(** X22: on a writeable IndexedArray over a numeric content, assigning an
    array with one value per selected position to a selection of several
    positions (a slice, an integer array, a boolean array) whose index
    entries address pairwise distinct slots of the content succeeds,
    leaves the index alone, and reading the same selection afterwards
    returns the assigned values, cast to the content's element type. *)
Theorem X22_array_write_read (self : IndexedArray.t) (dt : dtype) (data : list Z)
    (head : selector) (ps ks : list nat) (vs : list Z) :
  IndexedArray._writeable self = true ->
  IndexedArray._content self = Plain (mk_ndarray dt data) ->
  is_integer head = false ->
  resolve (length (IndexedArray._index self)) head = Ok ps ->
  Forall2 (fun p k => exists i, IndexedArray._index self !! p = Some i /\
                                norm_index (length data) i = Some k) ps ks ->
  NoDup ks ->
  length vs = length ps ->
  exists self',
    IndexedArray.__setitem__ (KSel head) (RArray vs) self = (Ok tt, self') /\
    IndexedArray._index self' = IndexedArray._index self /\
    IndexedArray.__getitem__ self' (KSel head) =
      Ok (IndexedArray.Value (VArray (Plain (mk_ndarray dt (map (wrap dt) vs))))).
Proof.
  intros Hw Hc Hint Hps Hslots Hnd Hlen.
  destruct (np_getitem_many _ _ _ Hint Hps) as (idx & Hidx & Hg).
  pose proof (gather_Forall2 _ _ _ Hg) as Hpos.
  assert (Forall2 (fun i k => norm_index (length data) i = Some k) idx ks) as Hnorm.
  { apply Forall2_same_length_lookup. split.
    - rewrite <- (Forall2_length _ _ _ Hpos). by apply Forall2_length in Hslots.
    - intros j i k Hi Hk.
      destruct (Forall2_lookup_r _ _ _ _ _ Hpos Hi) as (p & Hp & Hpi).
      destruct (Forall2_lookup_l _ _ _ _ _ Hslots Hp) as (k' & Hk' & i' & Hi' & Hn).
      congruence. }
  pose proof (Forall2_length _ _ _ Hslots) as Hlk.
  set (data' := scatter data ks (map (wrap dt) vs)).
  assert (gather data' ks = Ok (map (wrap dt) vs)) as Hread.
  { apply gather_lookups. apply Forall2_same_length_lookup. split.
    - rewrite length_map. congruence.
    - intros j k w Hk Hw'. subst data'.
      apply (scatter_lookup _ _ _ j); [done..|].
      destruct (Forall2_lookup_r _ _ _ _ _ Hnorm Hk) as (i & _ & Hn).
      by eapply norm_index_lt. }
  exists (IndexedArray.mk (IndexedArray._index self) (Plain (mk_ndarray dt data')) true).
  split; [|split; [done|]].
  - unfold IndexedArray.__setitem__, IndexedArray.assign, np_index.
    rewrite Hw, Hidx, Hc. simpl.
    unfold content_put, ndarray_put, np_put, np_setitem, resolve. simpl.
    rewrite (traverse_norm_Forall2 _ _ _ Hnorm). simpl.
    rewrite broadcast_exact by (rewrite length_map; congruence). done.
  - unfold IndexedArray.__getitem__, np_index. simpl. rewrite Hidx. simpl.
    unfold content_take, ndarray_take, np_take, np_getitem, resolve. simpl.
    assert (length data' = length data) as -> by (subst data'; apply scatter_length).
    rewrite (traverse_norm_Forall2 _ _ _ Hnorm). simpl. by rewrite Hread.
Qed.

Lemma X22_array_write_read_witness :
  exists self',
    IndexedArray.__setitem__ (KSel (SSlice (Some 1) None None)) (RArray [7; 8]) ex_indexed =
      (Ok tt, self') /\
    IndexedArray.__getitem__ self' (KSel (SSlice (Some 1) None None)) =
      Ok (IndexedArray.Value
            (VArray (Plain (mk_ndarray (mk_dtype 8 true) (map (wrap (mk_dtype 8 true)) [7; 8]))))).
Proof.
  assert (Forall2 (fun p k => exists i, IndexedArray._index ex_indexed !! p = Some i /\
                                        norm_index (length [10; 20; 30]) i = Some k)
            [1%nat; 2%nat] [0%nat; 1%nat]) as Hslots.
  { repeat constructor; by eexists. }
  assert (NoDup [0%nat; 1%nat]) as Hnd.
  { apply NoDup_cons. split; [|apply NoDup_singleton].
    intros Hin. by apply list_elem_of_singleton in Hin. }
  destruct (X22_array_write_read ex_indexed (mk_dtype 8 true) [10; 20; 30]
              (SSlice (Some 1) None None) [1%nat; 2%nat] [0%nat; 1%nat] [7; 8]
              eq_refl eq_refl eq_refl eq_refl Hslots Hnd eq_refl)
    as (self' & Hset & _ & Hread).
  exists self'. by split.
Defined.

(** ** UnionArray: array writes *)

(** Two arrays indexed by one boolean array: the selected entries go in
    pairs. *)
Lemma selected_pairs {A B} (xs : list A) (ys : list B) (mask : list bool) :
  length xs = length mask -> length ys = length mask ->
  length (map fst (filter (fun p => snd p = true) (zip xs mask))) =
    length (map fst (filter (fun p => snd p = true) (zip ys mask))) /\
  (forall n x y,
     map fst (filter (fun p => snd p = true) (zip xs mask)) !! n = Some x ->
     map fst (filter (fun p => snd p = true) (zip ys mask)) !! n = Some y ->
     exists j, xs !! j = Some x /\ ys !! j = Some y /\ mask !! j = Some true) /\
  (forall j x y,
     xs !! j = Some x -> ys !! j = Some y -> mask !! j = Some true ->
     exists n,
       map fst (filter (fun p => snd p = true) (zip xs mask)) !! n = Some x /\
       map fst (filter (fun p => snd p = true) (zip ys mask)) !! n = Some y).
Proof.
  revert xs ys. induction mask as [|b mask IH]; intros [|x0 xs] [|y0 ys] Hx Hy; try done.
  injection Hx as Hx. injection Hy as Hy.
  destruct (IH xs ys Hx Hy) as (Hl & Hfwd & Hbwd).
  destruct b.
  - cbn [zip zip_with]. rewrite !filter_cons_True by done. cbn [map fst length].
    split; [by rewrite Hl|]. split.
    + intros [|n] x y; simpl.
      * intros [= <-] [= <-]. by exists 0%nat.
      * intros Hn Hn'. destruct (Hfwd n x y Hn Hn') as (j & ? & ? & ?). by exists (S j).
    + intros [|j] x y; simpl.
      * intros [= <-] [= <-] _. by exists 0%nat.
      * intros Hj Hj' Hm. destruct (Hbwd j x y Hj Hj' Hm) as (n & ? & ?). by exists (S n).
  - cbn [zip zip_with]. rewrite !filter_cons_False by (simpl; congruence).
    split; [done|]. split.
    + intros n x y Hn Hn'. destruct (Hfwd n x y Hn Hn') as (j & ? & ? & ?). by exists (S j).
    + intros [|j] x y; simpl; [done|]. apply Hbwd.
Qed.

(** A slot that every store addressing it gives the same value holds that
    value afterwards. *)
Lemma scatter_lookup_agree {A} (a : list A) (ps : list nat) (vs : list A) (p : nat) (v : A) :
  length ps = length vs -> (p < length a)%nat ->
  p ∈ ps ->
  (forall n w, ps !! n = Some p -> vs !! n = Some w -> w = v) ->
  scatter a ps vs !! p = Some v.
Proof.
  revert a vs. induction ps as [|q ps IH]; intros a vs Hlen Hlt Hin Hagree.
  - by apply elem_of_nil in Hin.
  - destruct vs as [|w vs]; [done|]. injection Hlen as Hlen.
    change (scatter a (q :: ps) (w :: vs)) with (scatter (<[q := w]> a) ps vs).
    destruct (decide (p ∈ ps)) as [Hps|Hps].
    + apply IH; [done|by rewrite length_insert|done|].
      intros n w' Hn Hw'. by apply (Hagree (S n)).
    + apply elem_of_cons in Hin as [->|Hin]; [|done].
      rewrite scatter_lookup_other by done.
      rewrite (Hagree 0%nat w eq_refl eq_refl). by apply list_lookup_insert_eq.
Qed.

Section UnionArrayWrite.
Variables (cs0 : list content) (uniques : list Z) (inverse : list nat) (idx vs : list Z).
Hypothesis Hlen : length inverse = length idx.
Hypothesis Hlvs : length vs = length idx.
Hypothesis Htag :
  forall i tag, uniques !! i = Some tag ->
    exists k dt data,
      norm_index (length cs0) tag = Some k /\ cs0 !! k = Some (Plain (mk_ndarray dt data)).
Hypothesis Hpos :
  forall j i x, inverse !! j = Some i -> idx !! j = Some x ->
    exists k sl dt, routed cs0 uniques inverse idx j k sl dt.
Hypothesis Hdistinct :
  forall j j' k sl dt dt',
    routed cs0 uniques inverse idx j k sl dt ->
    routed cs0 uniques inverse idx j' k sl dt' -> j = j'.

(** The loop over the distinct tags for an array on the right: every
    turn succeeds, and at the end every slot a selected entry goes to
    holds the value that goes with the entry. *)
Lemma route_from_array (us : list Z) (i0 : nat) (s : UnionArray.t) :
  drop i0 uniques = us ->
  same_layout cs0 (UnionArray._contents s) ->
  (forall j i k sl dt v,
     inverse !! j = Some i -> (i < i0)%nat ->
     routed cs0 uniques inverse idx j k sl dt -> vs !! j = Some v ->
     holds_at (UnionArray._contents s) k sl v) ->
  exists s',
    UnionArray.route_from inverse (Many idx) []
      (fun selection => ws ← select vs selection; Ok (RArray ws)) i0 us s = (Ok tt, s') /\
    UnionArray._tags s' = UnionArray._tags s /\
    UnionArray._index s' = UnionArray._index s /\
    same_layout cs0 (UnionArray._contents s') /\
    (forall j k sl dt v,
       routed cs0 uniques inverse idx j k sl dt -> vs !! j = Some v ->
       holds_at (UnionArray._contents s') k sl v).
Proof.
  revert i0 s. induction us as [|tag rest IH]; intros i0 s Hdrop Hlay Hheld.
  - exists s. split; [done|]. do 3 (split; [done|]).
    intros j k sl dt v Hr Hv. pose proof Hr as (i & x & tg & data & Hi & _ & Htg & _).
    apply (Hheld j i k sl dt v); try done.
    destruct (decide (i < i0)%nat) as [|Hge]; [done|].
    assert (drop i0 uniques !! (i - i0)%nat = Some tg) as Hd.
    { rewrite lookup_drop. by replace (i0 + (i - i0))%nat with i by lia. }
    by rewrite Hdrop in Hd.
  - assert (uniques !! i0 = Some tag) as Hi0.
    { pose proof (lookup_drop uniques i0 0) as Hd. rewrite Hdrop in Hd.
      simpl in Hd. by rewrite Nat.add_0_r in Hd. }
    assert (drop (S i0) uniques = rest) as Hrest.
    { rewrite (drop_S _ _ _ Hi0) in Hdrop. by injection Hdrop. }
    destruct (Htag i0 tag Hi0) as (k & dt & data & Hk & Hc).
    destruct Hlay as [Hlencs Hlay].
    destruct (Hlay k dt data Hc) as (data' & Hc' & Hld).
    set (mask := map (fun j => bool_decide (j = i0)) inverse).
    set (sel := map fst (filter (fun p : Z * bool => snd p = true) (zip idx mask))).
    set (ws := map fst (filter (fun p : Z * bool => snd p = true) (zip vs mask))).
    assert (length idx = length mask) as Hlm by (subst mask; by rewrite length_map).
    destruct (selected_pairs idx vs mask Hlm ltac:(congruence)) as (Hlsel & Hfwd & Hbwd).
    fold sel ws in Hlsel, Hfwd, Hbwd.
    (* what the turn selects goes to content [k] *)
    assert (forall j x, inverse !! j = Some i0 -> idx !! j = Some x ->
              forall k' sl dt', routed cs0 uniques inverse idx j k' sl dt' ->
                k' = k /\ dt' = dt /\ norm_index (length data) x = Some sl) as Hturn.
    { intros j x Hj Hx k' sl dt' (i & x' & tg & d & Hi & Hx' & Htg & Hk' & Hcs & Hsl).
      assert (i = i0) as -> by congruence. assert (x' = x) as -> by congruence.
      assert (tg = tag) as -> by congruence. assert (k' = k) as -> by congruence.
      rewrite Hc in Hcs. injection Hcs as <- <-. done. }
    assert (forall j, mask !! j = Some true <-> inverse !! j = Some i0) as Hmask.
    { intros j. subst mask. rewrite list_lookup_fmap.
      destruct (inverse !! j) as [i|]; simpl; [|done]. split.
      - intros [= Hb]. apply bool_decide_eq_true_1 in Hb. by subst.
      - intros [= ->]. by rewrite bool_decide_eq_true_2. }
    assert (Forall (fun x => is_Some (norm_index (length data') x)) sel) as Hall.
    { apply Forall_forall. intros x Hx. apply list_elem_of_lookup in Hx as [n Hn].
      destruct (lookup_lt_is_Some_2 ws n) as [w Hw];
        [rewrite <- Hlsel; by eapply lookup_lt_Some|].
      destruct (Hfwd n x w Hn Hw) as (j & Hj & _ & Hm). apply Hmask in Hm.
      destruct (Hpos j i0 x Hm Hj) as (k' & sl & dt' & Hr).
      destruct (Hturn j x Hm Hj _ _ _ Hr) as (_ & _ & Hsl). rewrite Hld. by eexists. }
    destruct (traverse_norm_total _ _ Hall) as (ks & Hks & Hnorm).
    pose proof (Forall2_length _ _ _ Hnorm) as Hlks.
    set (s1 := UnionArray.set_contents
                 (<[k := Plain (mk_ndarray dt (scatter data' ks (map (wrap dt) ws)))]>
                    (UnionArray._contents s)) s).
    assert (UnionArray.route inverse (Many idx) []
              (fun selection => ws ← select vs selection; Ok (RArray ws)) i0 tag s =
            (Ok tt, s1)) as Hstep.
    { unfold UnionArray.route, UnionArray.content_at. fold mask.
      rewrite (select_filter vs mask) by congruence. fold ws. simpl.
      rewrite Hlencs, Hk. simpl. rewrite Hc'. simpl.
      rewrite (select_filter idx mask) by congruence. fold sel. simpl.
      unfold content_put, ndarray_put, np_put, np_setitem, resolve. simpl.
      rewrite Hks. simpl.
      rewrite broadcast_exact by (rewrite length_map; congruence). done. }
    assert (k < length (UnionArray._contents s))%nat as Hklt by (by eapply lookup_lt_Some).
    assert (same_layout cs0 (UnionArray._contents s1)) as Hlay1.
    { split; [simpl; by rewrite length_insert|].
      intros k' dt' d' Hk'. simpl. destruct (decide (k' = k)) as [->|Hne].
      - rewrite Hc in Hk'. injection Hk' as <- <-.
        eexists. rewrite list_lookup_insert_eq by done. split; [done|].
        by rewrite scatter_length.
      - rewrite list_lookup_insert_ne by done. by apply Hlay. }
    (* a slot of this turn's stores belongs to an entry of this turn *)
    assert (forall n sl, ks !! n = Some sl ->
              exists j x v, inverse !! j = Some i0 /\ idx !! j = Some x /\
                            vs !! j = Some v /\ ws !! n = Some v /\
                            routed cs0 uniques inverse idx j k sl dt) as Hown.
    { intros n sl Hn.
      destruct (Forall2_lookup_r _ _ _ _ _ Hnorm Hn) as (x & Hx & Hsl).
      destruct (lookup_lt_is_Some_2 ws n) as [w Hw];
        [rewrite <- Hlsel; by eapply lookup_lt_Some|].
      destruct (Hfwd n x w Hx Hw) as (j & Hj & Hv & Hm). apply Hmask in Hm.
      exists j, x, w. do 4 (split; [done|]).
      destruct (Hpos j i0 x Hm Hj) as (k' & sl' & dt' & Hr).
      destruct (Hturn j x Hm Hj _ _ _ Hr) as (-> & -> & Hsl').
      rewrite Hld in Hsl. assert (sl' = sl) as -> by congruence. done. }
    destruct (IH (S i0) s1 Hrest Hlay1) as (s' & Hloop & Ht' & Hi' & Hlay' & Hfinal).
    { intros j i k' sl dt' v Hi Hlt Hr Hv.
      destruct (decide (i = i0)) as [->|Hne].
      - (* an entry of this turn *)
        destruct Hr as (i & x & tg & d & Hi2 & Hx & Htg & Hk' & Hcs & Hsl).
        assert (routed cs0 uniques inverse idx j k' sl dt') as Hr
          by (by exists i, x, tg, d).
        destruct (Hturn j x Hi Hx _ _ _ Hr) as (-> & -> & Hsl').
        assert (mask !! j = Some true) as Hm by (by apply Hmask).
        destruct (Hbwd j x v Hx Hv Hm) as (n & Hn & Hw).
        destruct (Forall2_lookup_l _ _ _ _ _ Hnorm Hn) as (sl' & Hksn & Hsl2).
        rewrite Hld in Hsl2. assert (sl' = sl) as -> by congruence.
        exists dt. eexists. simpl. rewrite list_lookup_insert_eq by done.
        split; [done|].
        apply scatter_lookup_agree.
        + rewrite length_map. congruence.
        + rewrite Hld. by eapply norm_index_lt.
        + by eapply list_elem_of_lookup_2.
        + intros n' w Hn' Hw'. rewrite list_lookup_fmap in Hw'.
          destruct (Hown n' sl Hn') as (j' & x' & v' & _ & _ & Hv' & Hwn & Hr').
          rewrite Hwn in Hw'. simpl in Hw'. injection Hw' as <-.
          assert (j' = j) as -> by (by eapply Hdistinct).
          congruence.
      - (* an entry of an earlier turn *)
        destruct (Hheld j i k' sl dt' v Hi ltac:(lia) Hr Hv) as (dt2 & d2 & Hk2 & Hv2).
        unfold holds_at. simpl. destruct (decide (k' = k)) as [->|Hnk].
        + rewrite Hc' in Hk2. injection Hk2 as <- <-.
          exists dt. eexists. rewrite list_lookup_insert_eq by done. split; [done|].
          rewrite scatter_lookup_other; [done|].
          intros Hin. apply list_elem_of_lookup in Hin as [n Hn].
          destruct (Hown n sl Hn) as (j' & x' & v' & Hj' & _ & _ & _ & Hr').
          assert (dt' = dt) as ->.
          { destruct Hr as (? & ? & ? & ? & _ & _ & _ & _ & Hcs & _). congruence. }
          assert (j' = j) as -> by (by eapply Hdistinct).
          congruence.
        + exists dt2, d2. by rewrite list_lookup_insert_ne. }
    exists s'. split.
    { cbn [UnionArray.route_from]. unfold act_bind. by rewrite Hstep. }
    done.
Qed.

End UnionArrayWrite.

(** X23: on a writeable UnionArray with matching tag and index shapes,
    assigning an integer array, or a list of integers that all fit a
    signed 64-bit integer (numpy turns such a list into an array of that
    type), with one value per selected position (and not of length one) to
    a selection of several positions that address pairwise distinct slots
    of numeric contents succeeds; tags and index are left alone, each
    value is routed by the tag of its position into the content the tag
    names, and afterwards every selected position reads the value that
    was assigned to it, cast to the element type of that content. *)
Theorem X23_union_array_write_read (self : UnionArray.t) (head : selector)
    (ps : list nat) (what : plain_operand) (vs : list Z) :
  UnionArray._writeable self = true ->
  shape (UnionArray._tags self) = shape (UnionArray._index self) ->
  is_integer head = false ->
  resolve (length (UnionArray._tags self)) head = Ok ps ->
  (forall p, p ∈ ps -> is_Some (union_slot self p)) ->
  (forall j j' p p' k sl dt dt',
     ps !! j = Some p -> ps !! j' = Some p' ->
     union_slot self p = Some (k, sl, dt) -> union_slot self p' = Some (k, sl, dt') ->
     j = j') ->
  what = PArray vs \/ (what = PSeq vs /\ Forall (representable int64) vs) ->
  length vs = length ps ->
  length vs <> 1%nat ->
  let r := UnionArray.__setitem__ (KSel head) what self in
  fst r = Ok tt /\
  UnionArray._tags (snd r) = UnionArray._tags self /\
  UnionArray._index (snd r) = UnionArray._index self /\
  forall j p v k sl dt,
    ps !! j = Some p -> vs !! j = Some v -> union_slot self p = Some (k, sl, dt) ->
    UnionArray.__getitem__ (snd r) (KSel (SInt (Z.of_nat p))) =
      Ok (UnionArray.Value (VScalar (wrap dt v))).
Proof.
  intros Hw Hsh Hint Hps Hslots Hdist Hwhat Hlvs Hne r.
  destruct (UnionArray_sliced self head ps Hsh Hint Hps)
    as (ts & ix & Hts & Hix & Hlt & Hli & Hsel).
  set (uniques := np_unique ts).
  set (inverse := map (fun x => index_of x uniques) ts).
  assert (r = UnionArray.route_from inverse (Many ix) []
                (fun selection => ws ← select vs selection; Ok (RArray ws)) 0
                uniques self) as Hr.
  { subst r. unfold UnionArray.__setitem__, act_bind, act_get, act_lift. simpl.
    rewrite Hw, (bool_decide_eq_true_2 _ Hsh). simpl. rewrite Hts, Hix. simpl.
    rewrite bool_decide_eq_true_2 by (unfold shape; congruence). simpl.
    assert (bool_decide (length vs = length ts) = true) as Hbd
      by (apply bool_decide_eq_true_2; congruence).
    destruct Hwhat as [->|[-> _]]; destruct vs as [|v0 [|v1 vs']]; try done;
      by rewrite Hbd. }
  assert (forall j tg, ts !! j = Some tg ->
            inverse !! j = Some (index_of tg uniques) /\
            uniques !! index_of tg uniques = Some tg) as Hinv.
  { intros j tg Hj. split.
    - subst inverse. by rewrite list_lookup_fmap, Hj.
    - apply index_of_lookup, elem_of_np_unique. by eapply list_elem_of_lookup_2. }
  (* entries of the selection and the slots of their positions *)
  assert (forall j p k sl dt,
            ps !! j = Some p ->
            (routed (UnionArray._contents self) uniques inverse ix j k sl dt <->
             union_slot self p = Some (k, sl, dt))) as Hrouted.
  { intros j p k sl dt Hj.
    destruct (Hsel j p Hj) as (tg & i & Htg & Hi & Hptg & Hpi).
    destruct (Hinv j tg Htg) as [Hij Hu].
    destruct (Hslots p) as [[[k0 sl0] dt0] Hslot]; [by eapply list_elem_of_lookup_2|].
    destruct (union_slot_inv _ _ _ _ _ Hslot) as (tg' & i' & data & Ht' & Hi' & Hk & Hc & Hn).
    assert (tg' = tg) as -> by congruence. assert (i' = i) as -> by congruence.
    split.
    - intros (i2 & x & tg2 & d & Hi2 & Hx & Htg2 & Hk2 & Hc2 & Hsl2).
      assert (i2 = index_of tg uniques) as -> by congruence.
      assert (x = i) as -> by congruence. assert (tg2 = tg) as -> by congruence.
      assert (k0 = k) as -> by congruence.
      rewrite Hc in Hc2. injection Hc2 as -> ->.
      assert (sl0 = sl) as -> by congruence. done.
    - intros Heq. rewrite Hslot in Heq. injection Heq as -> -> ->.
      by exists (index_of tg uniques), i, tg, data. }
  destruct (route_from_array (UnionArray._contents self) uniques inverse ix vs) with
    (us := uniques) (i0 := 0%nat) (s := self)
    as (s' & Hloop & Htags & Hindex & [Hlencs Hlay] & Hheld).
  - subst inverse. rewrite length_map. congruence.
  - congruence.
  - intros i tag Hi.
    assert (tag ∈ ts) as Hin.
    { apply elem_of_np_unique. by eapply list_elem_of_lookup_2. }
    apply list_elem_of_lookup in Hin as [j Hj].
    destruct (lookup_lt_is_Some_2 ps j) as [p Hp];
      [rewrite <- Hlt; by eapply lookup_lt_Some|].
    destruct (Hsel j p Hp) as (tg & i' & Htg & _ & Hptg & Hpi).
    assert (tg = tag) as -> by congruence.
    destruct (Hslots p) as [[[k sl] dt] Hslot]; [by eapply list_elem_of_lookup_2|].
    destruct (union_slot_inv _ _ _ _ _ Hslot) as (tg' & i2 & data & Ht' & _ & Hk & Hc & _).
    assert (tg' = tag) as -> by congruence.
    by exists k, dt, data.
  - intros j i x Hj Hx.
    destruct (lookup_lt_is_Some_2 ps j) as [p Hp];
      [rewrite <- Hli; by eapply lookup_lt_Some|].
    destruct (Hslots p) as [[[k sl] dt] Hslot]; [by eapply list_elem_of_lookup_2|].
    exists k, sl, dt. by apply (Hrouted j p).
  - intros j j' k sl dt dt' Hrj Hrj'.
    pose proof Hrj as (? & ? & ? & ? & _ & Hxj & _).
    pose proof Hrj' as (? & ? & ? & ? & _ & Hxj' & _).
    destruct (lookup_lt_is_Some_2 ps j) as [p Hp];
      [rewrite <- Hli; by eapply lookup_lt_Some|].
    destruct (lookup_lt_is_Some_2 ps j') as [p' Hp'];
      [rewrite <- Hli; by eapply lookup_lt_Some|].
    apply (Hdist j j' p p' k sl dt dt' Hp Hp').
    + by apply (Hrouted j p).
    + by apply (Hrouted j' p').
  - done.
  - split; [done|]. intros k dt data Hc. by exists data.
  - intros j i k sl dt v _ Hlt'. lia.
  - rewrite Hr, Hloop. simpl. split; [done|]. split; [done|]. split; [done|].
    intros j p v k sl dt Hj Hv Hslot.
    destruct (Hsel j p Hj) as (tg & i & Htg & Hi & Hptg & Hpi).
    destruct (union_slot_inv _ _ _ _ _ Hslot) as (tg' & i' & data & Ht' & Hi' & Hk & Hc & Hn).
    assert (tg' = tg) as -> by congruence. assert (i' = i) as -> by congruence.
    destruct (Hheld j k sl dt v (proj2 (Hrouted j p k sl dt Hj) Hslot) Hv)
      as (dt' & data' & Hc' & Hval).
    destruct (Hlay k dt data Hc) as (data'' & Hc'' & Hld).
    rewrite Hc'' in Hc'. injection Hc' as <- <-.
    rewrite (UnionArray_getitem_int s' p tg i) by (unfold shape in *; congruence).
    unfold UnionArray.content_at. rewrite Hlencs, Hk. simpl. rewrite Hc''. simpl.
    rewrite (content_take_plain_one dt data'' i sl (wrap dt v)); [done| |done].
    by rewrite Hld.
Qed.

Lemma X23_union_array_write_read_witness :
  fst (UnionArray.__setitem__ (KSel (SSlice None None None)) (PSeq [1; 2; 3]) ex_union) =
    Ok tt /\
  UnionArray.__getitem__
    (snd (UnionArray.__setitem__ (KSel (SSlice None None None)) (PSeq [1; 2; 3]) ex_union))
    (KSel (SInt (Z.of_nat 2))) =
    Ok (UnionArray.Value (VScalar (wrap (mk_dtype 8 true) 3))).
Proof.
  assert (forall p, p ∈ [0%nat; 1%nat; 2%nat] -> is_Some (union_slot ex_union p)) as Hslots.
  { intros p Hp. repeat (apply elem_of_cons in Hp as [->|Hp]; [by eexists|]).
    by apply elem_of_nil in Hp. }
  assert (forall j j' p p' k sl dt dt',
            [0%nat; 1%nat; 2%nat] !! j = Some p -> [0%nat; 1%nat; 2%nat] !! j' = Some p' ->
            union_slot ex_union p = Some (k, sl, dt) ->
            union_slot ex_union p' = Some (k, sl, dt') -> j = j') as Hdist.
  { intros [|[|[|j]]] [|[|[|j']]] p p' k sl dt dt' Hj Hj' Hs Hs';
      try done; simpl in Hj, Hj'; simplify_eq; vm_compute in Hs, Hs'; congruence. }
  assert (length [1; 2; 3] <> 1%nat) as Hne by (simpl; lia).
  assert (Forall (representable int64) [1; 2; 3]) as Hfit by (repeat constructor).
  destruct (X23_union_array_write_read ex_union (SSlice None None None)
              [0%nat; 1%nat; 2%nat] (PSeq [1; 2; 3]) [1; 2; 3]
              eq_refl eq_refl eq_refl eq_refl Hslots Hdist
              (or_intror (conj eq_refl Hfit)) eq_refl Hne)
    as (Hok & _ & _ & Hread).
  split; [exact Hok|].
  exact (Hread 2%nat 2%nat 3 0%nat 1%nat (mk_dtype 8 true) eq_refl eq_refl eq_refl).
Defined.
